(** * Sponge digest provider, secure-memory wrappers and ECX key exchange

    A shallow embedding of
    - [providers/implementations/digests/sha3_prov.c],
    - [crypto/mem_sec.c],
    - [providers/implementations/exchange/ecx_exch.c],
    with the properties their specification states about them.

    Conventions.  A [size_t] is a [Z] reduced modulo [2^64] wherever the C
    arithmetic can wrap.  A byte is a [Z] in [0, 256).  A C buffer is a
    [list Z] of bytes; an access outside it is a fault, and so is a loop
    that never ends: both are the [None] of the option monad.  A pointer
    that may be [NULL] is an [option]. *)

From Stdlib Require Import ZArith List Lia Bool String.
From stdpp Require Import base option list gmap.
Import ListNotations.
Local Open Scope Z_scope.

(** ** Machine integers and buffers *)

Definition size_t_wrap (z : Z) : Z := z mod 2 ^ 64.
Definition size_t_add (a b : Z) : Z := size_t_wrap (a + b).
Definition size_t_sub (a b : Z) : Z := size_t_wrap (a - b).
Definition size_t_mul (a b : Z) : Z := size_t_wrap (a * b).

(** [memcpy(dst + off, src, length src)]: faults when the copy leaves [dst]. *)
Definition memcpy (dst : list Z) (off : Z) (src : list Z) : option (list Z) :=
  if (0 <=? off) && (off + Z.of_nat (length src) <=? Z.of_nat (length dst))
  then Some (take (Z.to_nat off) dst ++ src
             ++ drop (Z.to_nat off + length src) dst)
  else None.

(** [memset(dst + off, c, n)]. *)
Definition memset (dst : list Z) (off c n : Z) : option (list Z) :=
  if 0 <=? n then memcpy dst off (replicate (Z.to_nat n) c) else None.

(** The [n] bytes read at [src + off]: faults when the read leaves [src]. *)
Definition memread (src : list Z) (off n : Z) : option (list Z) :=
  if (0 <=? off) && (0 <=? n) && (off + n <=? Z.of_nat (length src))
  then Some (take (Z.to_nat n) (drop (Z.to_nat off) src))
  else None.

(** [p[i]] and [p[i] = v]. *)
Definition load (p : list Z) (i : Z) : option Z :=
  if 0 <=? i then p !! Z.to_nat i else None.

Definition store (p : list Z) (i v : Z) : option (list Z) :=
  memcpy p i [v].

(** ** Provider state: [ossl_prov_is_running] and the error queue *)

Inductive ERR_lib := ERR_LIB_PROV.
Inductive ERR_reason := PROV_R_FAILED_TO_GET_PARAMETER | ERR_R_INTERNAL_ERROR.

Record prov_state := mk_prov_state {
  running : bool;
  err_queue : list (ERR_lib * ERR_reason)
}.

Definition ossl_prov_is_running (st : prov_state) : bool := running st.

Definition ERR_raise (st : prov_state) (lib : ERR_lib) (r : ERR_reason)
  : prov_state :=
  {| running := running st; err_queue := err_queue st ++ [(lib, r)] |}.

(** ** The sponge context ([KECCAK1600_CTX], [PROV_SHA3_METHOD]) *)

(** The functions a [PROV_SHA3_METHOD] can point to.  A function pointer is
    the name of its target; [call_absorb] and [call_final] below are the
    indirect calls. *)
Inductive sha3_absorb_fn :=
| fn_generic_sha3_absorb
| fn_s390x_sha3_absorb
| fn_armsha3_sha3_absorb.

Inductive sha3_final_fn :=
| fn_generic_sha3_final
| fn_s390x_sha3_final
| fn_s390x_shake_final
| fn_s390x_keccak_final
| fn_s390x_kmac_final.

(** Both pointers are [NULL] in a context that is zeroed and not yet bound. *)
Record PROV_SHA3_METHOD := mk_meth {
  absorb : option sha3_absorb_fn;
  final : option sha3_final_fn
}.

Definition sha3_generic_md :=
  mk_meth (Some fn_generic_sha3_absorb) (Some fn_generic_sha3_final).
Definition sha3_s390x_md :=
  mk_meth (Some fn_s390x_sha3_absorb) (Some fn_s390x_sha3_final).
Definition keccak_s390x_md :=
  mk_meth (Some fn_s390x_sha3_absorb) (Some fn_s390x_keccak_final).
Definition shake_s390x_md :=
  mk_meth (Some fn_s390x_sha3_absorb) (Some fn_s390x_shake_final).
Definition kmac_s390x_md :=
  mk_meth (Some fn_s390x_sha3_absorb) (Some fn_s390x_kmac_final).
Definition sha3_ARMSHA3_md :=
  mk_meth (Some fn_armsha3_sha3_absorb) (Some fn_generic_sha3_final).

(** Modelled from the spec: the declaration of [struct keccak_st]
    ([include/internal/sha3.h]) is not among the sources.  The fields are the
    ones [sha3_prov.c] uses and the spec's data model lists: the 5x5 lanes
    [A] (kept flat, 25 lanes of 64 bits), [block_size], [md_size], [bufsz],
    the staging buffer [buf] of [KECCAK1600_WIDTH / 8 - 32] bytes, the byte
    [pad] and the method pair [meth]. *)
Record KECCAK1600_CTX := mk_ctx {
  A : list Z;
  block_size : Z;
  md_size : Z;
  bufsz : Z;
  buf : list Z;
  pad : Z;
  meth : PROV_SHA3_METHOD
}.

Definition KECCAK1600_WIDTH : Z := 1600.
Definition sizeof_buf : Z := KECCAK1600_WIDTH / 8 - 32.
Definition SHA3_MDSIZE (bitlen : Z) : Z := bitlen / 8.
Definition KMAC_MDSIZE (bitlen : Z) : Z := 2 * (bitlen / 8).
Definition SHA3_BLOCKSIZE (bitlen : Z) : Z := (KECCAK1600_WIDTH - bitlen * 2) / 8.

Definition set_A (c : KECCAK1600_CTX) (a : list Z) : KECCAK1600_CTX :=
  mk_ctx a (block_size c) (md_size c) (bufsz c) (buf c) (pad c) (meth c).
Definition set_block_size (c : KECCAK1600_CTX) (v : Z) : KECCAK1600_CTX :=
  mk_ctx (A c) v (md_size c) (bufsz c) (buf c) (pad c) (meth c).
Definition set_md_size (c : KECCAK1600_CTX) (v : Z) : KECCAK1600_CTX :=
  mk_ctx (A c) (block_size c) v (bufsz c) (buf c) (pad c) (meth c).
Definition set_bufsz (c : KECCAK1600_CTX) (v : Z) : KECCAK1600_CTX :=
  mk_ctx (A c) (block_size c) (md_size c) v (buf c) (pad c) (meth c).
Definition set_buf (c : KECCAK1600_CTX) (b : list Z) : KECCAK1600_CTX :=
  mk_ctx (A c) (block_size c) (md_size c) (bufsz c) b (pad c) (meth c).
Definition set_pad (c : KECCAK1600_CTX) (v : Z) : KECCAK1600_CTX :=
  mk_ctx (A c) (block_size c) (md_size c) (bufsz c) (buf c) v (meth c).
Definition set_meth (c : KECCAK1600_CTX) (m : PROV_SHA3_METHOD) : KECCAK1600_CTX :=
  mk_ctx (A c) (block_size c) (md_size c) (bufsz c) (buf c) (pad c) m.

(** ** Lanes and bytes *)

(** The little-endian 64-bit word at the head of [inp], as [SHA3_absorb]
    assembles it; bytes past the end of [inp] read as zero. *)
Definition load64_le (inp : list Z) : Z :=
  Z.lor (nth 0 inp 0)
 (Z.lor (Z.shiftl (nth 1 inp 0) 8)
 (Z.lor (Z.shiftl (nth 2 inp 0) 16)
 (Z.lor (Z.shiftl (nth 3 inp 0) 24)
 (Z.lor (Z.shiftl (nth 4 inp 0) 32)
 (Z.lor (Z.shiftl (nth 5 inp 0) 40)
 (Z.lor (Z.shiftl (nth 6 inp 0) 48)
        (Z.shiftl (nth 7 inp 0) 56))))))).

(** The eight bytes of a lane, least significant first. *)
Definition store64_le (v : Z) : list Z :=
  map (fun k => Z.land (Z.shiftr v (8 * k)) 255) [0; 1; 2; 3; 4; 5; 6; 7].

(** [A_flat[i] ^= Ai] for the successive 8-byte words of a block. *)
Fixpoint xor_block (st : list Z) (blk : list Z) : list Z :=
  match st with
  | [] => []
  | a :: st' => Z.lxor a (load64_le blk) :: xor_block st' (drop 8 blk)
  end.

(** The state seen as bytes, the order in which it is squeezed. *)
Definition state_bytes (st : list Z) : list Z := flat_map store64_le st.

(** ** S390X function codes ([s390x_arch.h]) *)

(** Modelled from the spec: [s390x_arch.h] is not among the sources.  The
    function codes of KIMD/KLMD select the sponge rate (the block size of
    the family, in bytes) and, for KLMD, the domain-separation byte of the
    padding; [S390X_KLMD_PS] says that the padding has been done already. *)
Definition S390X_SHA3_224 : Z := 32.
Definition S390X_SHA3_256 : Z := 33.
Definition S390X_SHA3_384 : Z := 34.
Definition S390X_SHA3_512 : Z := 35.
Definition S390X_SHAKE_128 : Z := 36.
Definition S390X_SHAKE_256 : Z := 37.
Definition S390X_KECCAK_224 : Z := S390X_SHA3_224.
Definition S390X_KECCAK_256 : Z := S390X_SHA3_256.
Definition S390X_KECCAK_384 : Z := S390X_SHA3_384.
Definition S390X_KECCAK_512 : Z := S390X_SHA3_512.
Definition S390X_KLMD_PS : Z := 256.

Definition s390x_rate (fc : Z) : option Z :=
  if fc =? S390X_SHA3_224 then Some (SHA3_BLOCKSIZE 224)
  else if fc =? S390X_SHA3_256 then Some (SHA3_BLOCKSIZE 256)
  else if fc =? S390X_SHA3_384 then Some (SHA3_BLOCKSIZE 384)
  else if fc =? S390X_SHA3_512 then Some (SHA3_BLOCKSIZE 512)
  else if fc =? S390X_SHAKE_128 then Some (SHA3_BLOCKSIZE 128)
  else if fc =? S390X_SHAKE_256 then Some (SHA3_BLOCKSIZE 256)
  else None.

Definition s390x_padbyte (fc : Z) : Z :=
  if (fc =? S390X_SHAKE_128) || (fc =? S390X_SHAKE_256) then 31 else 6.

(** ** The sponge engine, over an arbitrary permutation *)

Section Sponge.

(** Modelled from the spec: [KeccakF1600] ([crypto/sha/keccak1600.c]) is not
    among the sources; the spec treats the permutation as a replaceable
    primitive, and so does this development: every definition and theorem
    below holds for any function on the state. *)
Variable KeccakF1600 : list Z -> list Z.

(** Modelled from the spec: [SHA3_absorb] ([crypto/sha/keccak1600.c]) is not
    among the sources.  Section 4.1: it consumes every full
    [block_size]-aligned prefix of the input by XOR-ing it into the state and
    applying the permutation once per block, and returns the length of the
    trailing partial block it did not consume.  The [while (len >= r)] loop
    runs on fuel; [SHA3_absorb] gives it as much as the input is long, which
    is enough exactly when [r] is positive (with [r = 0] the loop never ends,
    whatever the fuel). *)
Fixpoint SHA3_absorb_loop (fuel : nat) (st inp : list Z) (r : Z)
  : option (list Z * Z) :=
  let len := Z.of_nat (length inp) in
  if r <=? len then
    match fuel with
    | O => None
    | S fuel' =>
        SHA3_absorb_loop fuel'
          (KeccakF1600 (xor_block st (take (Z.to_nat r) inp)))
          (drop (Z.to_nat r) inp) r
    end
  else Some (st, len).

Definition SHA3_absorb (st inp : list Z) (r : Z) : option (list Z * Z) :=
  SHA3_absorb_loop (length inp) st inp r.

(** Modelled from the spec: [SHA3_absorb_cext] is the ARMv8.2 assembly twin of
    [SHA3_absorb], only declared in [sha3_prov.c].  Section 4.1: every
    backend is a drop-in substitute with byte-identical state. *)
Definition SHA3_absorb_cext (st inp : list Z) (r : Z) : option (list Z * Z) :=
  SHA3_absorb st inp r.

(** Modelled from the spec: [SHA3_squeeze] ([crypto/sha/keccak1600.c]) is not
    among the sources.  Section 4.1: it extracts the output in
    [block_size]-sized squeezes, permuting between squeezes, until [len]
    bytes are produced.  Returns the state it leaves and the bytes. *)
Fixpoint SHA3_squeeze_loop (fuel : nat) (st : list Z) (len r : Z)
  : option (list Z * list Z) :=
  if len <=? 0 then Some (st, [])
  else if len <=? r then Some (st, take (Z.to_nat len) (state_bytes st))
  else match fuel with
       | O => None
       | S fuel' =>
           '(st', out) ← SHA3_squeeze_loop fuel' (KeccakF1600 st) (len - r) r;
           Some (st', take (Z.to_nat r) (state_bytes st) ++ out)
       end.

Definition SHA3_squeeze (st : list Z) (len r : Z) : option (list Z * list Z) :=
  SHA3_squeeze_loop (Z.to_nat len) st len r.

(** The final block of a message: [memset(buf + num, 0, bsz - num)],
    [buf[num] = p], [buf[bsz - 1] |= 0x80]. *)
Definition pad_block (b : list Z) (num bsz p : Z) : option (list Z) :=
  b1 ← memset b num 0 (size_t_sub bsz num);
  b2 ← store b1 num (p mod 256);
  last ← load b2 (size_t_sub bsz 1);
  store b2 (size_t_sub bsz 1) (Z.lor last 128).

(** Modelled from the spec: [ossl_sha3_final] ([crypto/sha/sha3.c]) is not
    among the sources.  Section 4.4: pad the buffered remainder with the
    domain-separation byte followed by zero bytes and a final bit-set
    terminator aligned to [block_size], absorb that final padded block, then
    squeeze [md_size] bytes into the caller's buffer.  A zero [md_size]
    yields no bytes and no side effect. *)
Definition ossl_sha3_final (md : list Z) (ctx : KECCAK1600_CTX)
  : option (Z * list Z * KECCAK1600_CTX) :=
  let bsz := block_size ctx in
  let num := bufsz ctx in
  if md_size ctx =? 0 then Some (1, md, ctx)
  else
    b ← pad_block (buf ctx) num bsz (pad ctx);
    blk ← memread b 0 bsz;
    '(st1, _) ← SHA3_absorb (A ctx) blk bsz;
    '(st2, out) ← SHA3_squeeze st1 (md_size ctx) bsz;
    md' ← memcpy md 0 out;
    Some (1, md', set_A (set_buf ctx b) st2).

(** Modelled from the spec: [ossl_sha3_reset] ([crypto/sha/sha3.c]) is not
    among the sources.  Section 4.3, state [Created]: buffer empty, state
    zeroed. *)
Definition ossl_sha3_reset (ctx : KECCAK1600_CTX) : KECCAK1600_CTX :=
  set_bufsz (set_A ctx (replicate 25 0)) 0.

(** Modelled from the spec: [s390x_kimd] is the KIMD instruction.  It
    absorbs [inp], a whole number of blocks of the rate its function code
    selects, into the state (Section 4.1, drop-in substitutable).  An
    unknown function code or a length that is not a multiple of the rate
    raises a specification exception. *)
Definition s390x_kimd (inp : list Z) (fc : Z) (st : list Z) : option (list Z) :=
  r ← s390x_rate fc;
  '(st', rem) ← SHA3_absorb st inp r;
  if rem =? 0 then Some st' else None.

(** Modelled from the spec: [s390x_klmd] is the KLMD instruction.  Without
    [S390X_KLMD_PS] it absorbs [inp], pads its trailing partial block with
    the domain-separation byte of the function code and absorbs it, then
    squeezes [outlen] bytes; with [S390X_KLMD_PS] the padding has been done
    and the first block read by the caller: it permutes and goes on
    squeezing.  Returns the state and the bytes written to [out]. *)
Definition s390x_klmd (inp : list Z) (outlen : Z) (fc : Z) (st : list Z)
  : option (list Z * list Z) :=
  if Z.land fc S390X_KLMD_PS =? 0 then
    r ← s390x_rate fc;
    '(st1, rem) ← SHA3_absorb st inp r;
    let tail := drop (Z.to_nat (Z.of_nat (length inp) - rem)) inp in
    b ← pad_block (tail ++ replicate (Z.to_nat (r - rem)) 0) rem r
                  (s390x_padbyte fc);
    SHA3_squeeze (KeccakF1600 (xor_block st1 b)) outlen r
  else
    r ← s390x_rate (Z.lxor fc S390X_KLMD_PS);
    SHA3_squeeze (KeccakF1600 st) outlen r.

(** *** The backends: [generic_sha3_absorb] and friends *)

Definition generic_sha3_absorb (ctx : KECCAK1600_CTX) (inp : list Z)
  : option (KECCAK1600_CTX * Z) :=
  '(st, rem) ← SHA3_absorb (A ctx) inp (block_size ctx);
  Some (set_A ctx st, rem).

Definition generic_sha3_final (md : list Z) (ctx : KECCAK1600_CTX)
  : option (Z * list Z * KECCAK1600_CTX) :=
  ossl_sha3_final md ctx.

(** [len % ctx->block_size] divides by zero when the block size is zero. *)
Definition s390x_sha3_absorb (ctx : KECCAK1600_CTX) (inp : list Z)
  : option (KECCAK1600_CTX * Z) :=
  let len := Z.of_nat (length inp) in
  if block_size ctx =? 0 then None
  else
    let rem := len mod block_size ctx in
    st ← s390x_kimd (take (Z.to_nat (len - rem)) inp) (pad ctx) (A ctx);
    Some (set_A ctx st, rem).

Definition s390x_sha3_final (ps : prov_state) (md : list Z)
    (ctx : KECCAK1600_CTX) : option (Z * list Z * KECCAK1600_CTX) :=
  if negb (ossl_prov_is_running ps) then Some (0, md, ctx)
  else
    pending ← memread (buf ctx) 0 (bufsz ctx);
    '(st, _) ← s390x_klmd pending 0 (pad ctx) (A ctx);
    bytes ← memread (state_bytes st) 0 (md_size ctx);
    md' ← memcpy md 0 bytes;
    Some (1, md', set_A ctx st).

Definition s390x_shake_final (ps : prov_state) (md : list Z)
    (ctx : KECCAK1600_CTX) : option (Z * list Z * KECCAK1600_CTX) :=
  if negb (ossl_prov_is_running ps) then Some (0, md, ctx)
  else
    pending ← memread (buf ctx) 0 (bufsz ctx);
    '(st, out) ← s390x_klmd pending (md_size ctx) (pad ctx) (A ctx);
    md' ← memcpy md 0 out;
    Some (1, md', set_A ctx st).

Definition s390x_keccakc_final (ps : prov_state) (md : list Z)
    (ctx : KECCAK1600_CTX) (padding : Z)
  : option (Z * list Z * KECCAK1600_CTX) :=
  let bsz := block_size ctx in
  let num := bufsz ctx in
  let needed := md_size ctx in
  if negb (ossl_prov_is_running ps) then Some (0, md, ctx)
  else if md_size ctx =? 0 then Some (1, md, ctx)
  else
    b ← pad_block (buf ctx) num bsz padding;
    blk ← memread b 0 bsz;
    st1 ← s390x_kimd blk (pad ctx) (A ctx);
    let num := if needed >? bsz then bsz else needed in
    bytes ← memread (state_bytes st1) 0 num;
    md1 ← memcpy md 0 bytes;
    let needed := size_t_sub needed num in
    if needed >? 0 then
      '(st2, out) ← s390x_klmd [] needed (Z.lor (pad ctx) S390X_KLMD_PS) st1;
      md2 ← memcpy md1 bsz out;
      Some (1, md2, set_A (set_buf ctx b) st2)
    else Some (1, md1, set_A (set_buf ctx b) st1).

Definition s390x_keccak_final (ps : prov_state) (md : list Z)
    (ctx : KECCAK1600_CTX) : option (Z * list Z * KECCAK1600_CTX) :=
  s390x_keccakc_final ps md ctx 1.

Definition s390x_kmac_final (ps : prov_state) (md : list Z)
    (ctx : KECCAK1600_CTX) : option (Z * list Z * KECCAK1600_CTX) :=
  s390x_keccakc_final ps md ctx 4.

Definition armsha3_sha3_absorb (ctx : KECCAK1600_CTX) (inp : list Z)
  : option (KECCAK1600_CTX * Z) :=
  '(st, rem) ← SHA3_absorb_cext (A ctx) inp (block_size ctx);
  Some (set_A ctx st, rem).

(** The indirect calls [ctx->meth.absorb(ctx, inp, len)] and
    [ctx->meth.final(md, ctx)]; a call through [NULL] faults. *)
Definition call_absorb (f : option sha3_absorb_fn) (ctx : KECCAK1600_CTX)
    (inp : list Z) : option (KECCAK1600_CTX * Z) :=
  match f with
  | Some fn_generic_sha3_absorb => generic_sha3_absorb ctx inp
  | Some fn_s390x_sha3_absorb => s390x_sha3_absorb ctx inp
  | Some fn_armsha3_sha3_absorb => armsha3_sha3_absorb ctx inp
  | None => None
  end.

Definition call_final (f : option sha3_final_fn) (ps : prov_state)
    (md : list Z) (ctx : KECCAK1600_CTX)
  : option (Z * list Z * KECCAK1600_CTX) :=
  match f with
  | Some fn_generic_sha3_final => generic_sha3_final md ctx
  | Some fn_s390x_sha3_final => s390x_sha3_final ps md ctx
  | Some fn_s390x_shake_final => s390x_shake_final ps md ctx
  | Some fn_s390x_keccak_final => s390x_keccak_final ps md ctx
  | Some fn_s390x_kmac_final => s390x_kmac_final ps md ctx
  | None => None
  end.

(** *** [keccak_update] *)

(** The staging buffer is the 168-byte field [buf] on its own: a copy that
    would leave it is a fault here.  In the C struct [pad] and [meth] lie
    behind [buf], and such a copy would run on into them.  On a well-formed
    context ([ctx_ok] below) fewer than [block_size <= 168] bytes are
    buffered and no copy leaves the field, so the properties of
    [keccak_update] are stated for those. *)

(** The part of [keccak_update] after the staging buffer has been dealt
    with: absorb the input, keep the leftover. *)
Definition keccak_update_rest (ctx : KECCAK1600_CTX) (inp : list Z)
  : option (Z * KECCAK1600_CTX) :=
  let len := Z.of_nat (length inp) in
  '(ctx, rem) ← call_absorb (absorb (meth ctx)) ctx inp;
  if negb (rem =? 0) then
    src ← memread inp (size_t_sub len rem) rem;
    b ← memcpy (buf ctx) 0 src;
    Some (1, set_bufsz (set_buf ctx b) rem)
  else Some (1, ctx).

Definition keccak_update (ctx : KECCAK1600_CTX) (inp : list Z)
  : option (Z * KECCAK1600_CTX) :=
  let bsz := block_size ctx in
  let len := Z.of_nat (length inp) in
  if len =? 0 then Some (1, ctx)
  else
    let num := bufsz ctx in
    if negb (num =? 0) then
      let rem := size_t_sub bsz num in
      if len <? rem then
        b ← memcpy (buf ctx) num inp;
        Some (1, set_bufsz (set_buf ctx b) (size_t_add (bufsz ctx) len))
      else
        src ← memread inp 0 rem;
        b ← memcpy (buf ctx) num src;
        let ctx := set_buf ctx b in
        let inp := drop (Z.to_nat rem) inp in
        blk ← memread (buf ctx) 0 bsz;
        '(ctx, _) ← call_absorb (absorb (meth ctx)) ctx blk;
        let ctx := set_bufsz ctx 0 in
        keccak_update_rest ctx inp
    else keccak_update_rest ctx inp.

(** *** [keccak_final] *)

(** Returns the status, the caller's buffer, [*outl] and the context. *)
Definition keccak_final (ps : prov_state) (ctx : KECCAK1600_CTX)
    (out : list Z) (outl : Z) (outsz : Z)
  : option (Z * list Z * Z * KECCAK1600_CTX) :=
  let ret := 1 in
  if negb (ossl_prov_is_running ps) then Some (0, out, outl, ctx)
  else
    '(ret, out, ctx) ←
      (if outsz >? 0 then call_final (final (meth ctx)) ps out ctx
       else Some (ret, out, ctx));
    let outl := md_size ctx in
    Some (ret, out, outl, ctx).

(** *** The sponge as a function of the bytes received so far *)

(** What absorbing the first [n] blocks of [inp] does to the state: per
    block, XOR it in and permute once. *)
Fixpoint absorb_blocks (n : nat) (st inp : list Z) (r : nat) : list Z :=
  match n with
  | O => st
  | S n' =>
      absorb_blocks n' (KeccakF1600 (xor_block st (take r inp))) (drop r inp) r
  end.

(** The abstract state of a stream: the permutation state and the bytes
    received but not yet absorbed.  One more chunk [inp] absorbs every full
    block of pending-then-new bytes and keeps the rest pending. *)
Definition sponge_step (r : nat) (s : list Z * list Z) (inp : list Z)
  : list Z * list Z :=
  let data := s.2 ++ inp in
  let n := (length data / r)%nat in
  (absorb_blocks n s.1 data r, drop (n * r) data).

(** [keccak_update] on each chunk of a list, in order. *)
Fixpoint keccak_update_chunks (ctx : KECCAK1600_CTX) (chunks : list (list Z))
  : option KECCAK1600_CTX :=
  match chunks with
  | [] => Some ctx
  | inp :: chunks' =>
      '(_, ctx') ← keccak_update ctx inp;
      keccak_update_chunks ctx' chunks'
  end.

End Sponge.

(** ** Well-formed contexts and what a context means *)

(** The bytes the staging buffer really holds: its first [bufsz] bytes. *)
Definition pending (c : KECCAK1600_CTX) : list Z :=
  take (Z.to_nat (bufsz c)) (buf c).

(** The abstract state of a context. *)
Definition sponge_of (c : KECCAK1600_CTX) : list Z * list Z :=
  (A c, pending c).

(** The function code of an S390X context selects the rate of its block
    size, which is what [SHA3_SET_MD] sets up; the other backends take the
    rate from [block_size]. *)
Definition backend_okb (f : option sha3_absorb_fn) (c : KECCAK1600_CTX) : bool :=
  match f with
  | Some fn_s390x_sha3_absorb =>
      match s390x_rate (pad c) with
      | Some r => r =? block_size c
      | None => false
      end
  | Some _ => true
  | None => false
  end.

(** A context as [newctx] makes it and [keccak_update] keeps it: the staging
    buffer has its declared size, the block size is positive and fits the
    buffer, fewer than [block_size] bytes are buffered, an absorb function
    is bound. *)
Definition ctx_okb (c : KECCAK1600_CTX) : bool :=
  (Z.of_nat (length (buf c)) =? sizeof_buf)
  && (0 <? block_size c) && (block_size c <=? sizeof_buf)
  && (0 <=? bufsz c) && (bufsz c <? block_size c)
  && backend_okb (absorb (meth c)) c.

Definition ctx_ok (c : KECCAK1600_CTX) : Prop := ctx_okb c = true.

(** Two contexts that differ at most in the bytes of the staging buffer at
    and beyond [bufsz], which no operation reads before it overwrites
    them. *)
Definition ctx_equiv (c1 c2 : KECCAK1600_CTX) : Prop :=
  A c1 = A c2 /\ block_size c1 = block_size c2 /\ md_size c1 = md_size c2
  /\ bufsz c1 = bufsz c2 /\ pad c1 = pad c2 /\ meth c1 = meth c2
  /\ length (buf c1) = length (buf c2) /\ pending c1 = pending c2.

(** What [keccak_update] owes its caller: from context [c] and input [inp]
    it leaves a context [c'] whose abstract state is one [sponge_step]
    further, with the same configuration, and still well formed. *)
Definition update_post (KeccakF1600 : list Z -> list Z)
    (c : KECCAK1600_CTX) (inp : list Z) (c' : KECCAK1600_CTX) : Prop :=
  sponge_of c'
    = sponge_step KeccakF1600 (Z.to_nat (block_size c)) (sponge_of c) inp
  /\ block_size c' = block_size c /\ md_size c' = md_size c
  /\ pad c' = pad c /\ meth c' = meth c /\ ctx_ok c'.

(** Two buffers of one length that hold the same first [n] bytes. *)
Definition agree (n : nat) (b1 b2 : list Z) : Prop :=
  length b1 = length b2 /\ take n b1 = take n b2.

(** Two results of a backend's final function that a caller cannot tell
    apart: both fault, or both return the same status and digest and leave
    the same [md_size]. *)
Definition final_agree (r1 r2 : option (Z * list Z * KECCAK1600_CTX)) : Prop :=
  match r1, r2 with
  | Some (ret1, md1, c1), Some (ret2, md2, c2) =>
      ret1 = ret2 /\ md1 = md2 /\ md_size c1 = md_size c2
  | None, None => True
  | _, _ => False
  end.

(** The shape of a context: 25 lanes and a staging buffer of the declared
    size. *)
Definition ctx_shape (c : KECCAK1600_CTX) : Prop :=
  length (A c) = 25%nat /\ Z.of_nat (length (buf c)) = sizeof_buf.

(** What the caller of [keccak_final] observes: the status, the output
    buffer and [*outl]. *)
Definition keccak_final_output
    (r : option (Z * list Z * Z * KECCAK1600_CTX)) : option (Z * list Z * Z) :=
  match r with
  | Some (ret, out, outl, _) => Some (ret, out, outl)
  | None => None
  end.

(** ** Parameter lists *)

Inductive OSSL_PARAM_type :=
| OSSL_PARAM_INTEGER
| OSSL_PARAM_UNSIGNED_INTEGER
| OSSL_PARAM_REAL
| OSSL_PARAM_UTF8_STRING
| OSSL_PARAM_OCTET_STRING.

(** An entry of an [OSSL_PARAM] array: its key, the type of its payload and
    the payload bytes (native, little-endian, for the integer types).  The
    array is the list of its entries up to [OSSL_PARAM_END]. *)
Record OSSL_PARAM := mk_param {
  key : string;
  data_type : OSSL_PARAM_type;
  data : list Z
}.

Definition OSSL_DIGEST_PARAM_XOFLEN : string := "xoflen".

(** Modelled from the spec: [OSSL_PARAM_locate_const] ([crypto/params.c]) is
    not among the sources; the parameter list is a key/value list and the
    entry of a key is the first one that carries it. *)
Definition OSSL_PARAM_locate_const (params : list OSSL_PARAM) (k : string)
  : option OSSL_PARAM :=
  find (fun p => String.eqb (key p) k) params.

Fixpoint le_unsigned (bs : list Z) : Z :=
  match bs with
  | [] => 0
  | b :: bs' => b + 256 * le_unsigned bs'
  end.

Definition le_signed (bs : list Z) : Z :=
  let v := le_unsigned bs in
  if 128 <=? List.last bs 0 then v - 256 ^ Z.of_nat (length bs) else v.

(** Modelled from the spec: [OSSL_PARAM_get_size_t] ([crypto/params.c]) is
    not among the sources.  Section 6: the value of the recognized key is an
    output length in bytes, and a malformed value fails with a parameter
    error.  A value converts to a size when it is an integer payload whose
    value lies in the range of [size_t]; nothing is written on failure.
    Floating-point payloads are outside this model and are malformed like
    the strings. *)
Definition OSSL_PARAM_get_size_t (p : OSSL_PARAM) : option Z :=
  match data_type p with
  | OSSL_PARAM_UNSIGNED_INTEGER =>
      let v := le_unsigned (data p) in
      if (0 <=? v) && (v <? 2 ^ 64) then Some v else None
  | OSSL_PARAM_INTEGER =>
      let v := le_signed (data p) in
      if (0 <=? v) && (v <? 2 ^ 64) then Some v else None
  | _ => None
  end.

(** ** Initialization and parameters of the digest *)

(** A [NULL] context is dereferenced by [ossl_sha3_reset]: a fault. *)
Definition keccak_init (ps : prov_state) (vctx : option KECCAK1600_CTX)
    (params : option (list OSSL_PARAM)) : option (Z * option KECCAK1600_CTX) :=
  if negb (ossl_prov_is_running ps) then Some (0, vctx)
  else
    ctx ← vctx;
    Some (1, Some (ossl_sha3_reset ctx)).

Definition shake_set_ctx_params (ps : prov_state)
    (vctx : option KECCAK1600_CTX) (params : option (list OSSL_PARAM))
  : Z * option KECCAK1600_CTX * prov_state :=
  match vctx with
  | None => (0, None, ps)
  | Some ctx =>
      match params with
      | None => (1, Some ctx, ps)
      | Some params =>
          match OSSL_PARAM_locate_const params OSSL_DIGEST_PARAM_XOFLEN with
          | Some p =>
              match OSSL_PARAM_get_size_t p with
              | Some v => (1, Some (set_md_size ctx v), ps)
              | None =>
                  (0, Some ctx,
                   ERR_raise ps ERR_LIB_PROV PROV_R_FAILED_TO_GET_PARAMETER)
              end
          | None => (1, Some ctx, ps)
          end
      end
  end.

Definition keccak_init_params (ps : prov_state)
    (vctx : option KECCAK1600_CTX) (params : option (list OSSL_PARAM))
  : option (Z * option KECCAK1600_CTX * prov_state) :=
  '(r, vctx) ← keccak_init ps vctx None;
  if r =? 0 then Some (0, vctx, ps)
  else
    let '(r, vctx, ps) := shake_set_ctx_params ps vctx params in
    Some (if r =? 0 then 0 else 1, vctx, ps).

(** ** Block memory *)

(** A heap of blocks addressed by their base.  A freed block stays in the
    map, dead, with whatever bytes it held when it was released: this is
    what an inspection of freed memory sees.  [avail] is the number of bytes
    the allocator can still hand out; an allocation beyond it fails. *)
Record block := mk_block {
  bytes : list Z;
  live : bool
}.

Record mem := mk_mem {
  blocks : gmap positive block;
  avail : Z
}.

(** Allocation of [n] zeroed bytes: the new base, or [NULL]. *)
Definition mem_alloc (m : mem) (n : Z) : option positive * mem :=
  if (0 <=? n) && (n <=? avail m) then
    let p := fresh (dom (blocks m)) in
    (Some p,
     mk_mem (<[p := mk_block (replicate (Z.to_nat n) 0) true]> (blocks m))
            (avail m - n))
  else (None, m).

(** The [n] bytes of the live block at [ptr]; anything else is a fault. *)
Definition mem_load (m : mem) (ptr : option positive) (n : Z)
  : option (list Z) :=
  p ← ptr;
  b ← blocks m !! p;
  if live b then memread (bytes b) 0 n else None.

(** Overwrites the head of the live block at [ptr] with [src]. *)
Definition mem_store (m : mem) (ptr : option positive) (src : list Z)
  : option mem :=
  p ← ptr;
  b ← blocks m !! p;
  if live b then
    bs ← memcpy (bytes b) 0 src;
    Some (mk_mem (<[p := mk_block bs true]> (blocks m)) (avail m))
  else None.

(** Releases the live block at [p], bytes left as they are. *)
Definition mem_free (m : mem) (p : positive) : option mem :=
  b ← blocks m !! p;
  if live b then
    Some (mk_mem (<[p := mk_block (bytes b) false]> (blocks m))
                 (avail m + Z.of_nat (length (bytes b))))
  else None.

(** Modelled from the spec: [zalloc] and [zalloc_zero] belong to the Fil-C
    runtime ([stdfil.h]) and are not among the sources.  [count] objects of
    [size] bytes, zeroed (Section 3: a context is created with its state
    zeroed), or [NULL] when the allocation fails. *)
Definition zalloc (m : mem) (size count : Z) : option positive * mem :=
  mem_alloc m (size * count).

Definition zalloc_zero (m : mem) (size count : Z) : option positive * mem :=
  mem_alloc m (size * count).

(** Modelled from the spec: [OPENSSL_cleanse] and [OPENSSL_clear_free]
    ([crypto/mem.c], [crypto/mem_clr.c]) are not among the sources.
    Section 4.5: the memory is overwritten with zeros before it is
    released.  [OPENSSL_clear_free(NULL, n)] does nothing. *)
Definition OPENSSL_cleanse (m : mem) (p : positive) (num : Z) : option mem :=
  b ← blocks m !! p;
  if live b then
    bs ← memset (bytes b) 0 0 num;
    Some (mk_mem (<[p := mk_block bs true]> (blocks m)) (avail m))
  else None.

Definition OPENSSL_clear_free (m : mem) (ptr : option positive) (num : Z)
  : option mem :=
  match ptr with
  | None => Some m
  | Some p =>
      m ← (if num =? 0 then Some m else OPENSSL_cleanse m p num);
      mem_free m p
  end.

(** ** The context in memory *)

Fixpoint le_bytes (n : nat) (v : Z) : list Z :=
  match n with
  | O => []
  | S n' => v mod 256 :: le_bytes n' (v / 256)
  end.

(** Code addresses are symbolic: [NULL] is 0 and the functions of the file
    are numbered in the order of their definition. *)
Definition absorb_fn_addr (f : option sha3_absorb_fn) : Z :=
  match f with
  | None => 0
  | Some fn_generic_sha3_absorb => 1
  | Some fn_s390x_sha3_absorb => 3
  | Some fn_armsha3_sha3_absorb => 8
  end.

Definition final_fn_addr (f : option sha3_final_fn) : Z :=
  match f with
  | None => 0
  | Some fn_generic_sha3_final => 2
  | Some fn_s390x_sha3_final => 4
  | Some fn_s390x_shake_final => 5
  | Some fn_s390x_keccak_final => 6
  | Some fn_s390x_kmac_final => 7
  end.

(** Modelled from the spec: the layout of [struct keccak_st] is that of its
    declaration ([include/internal/sha3.h], not among the sources) on an
    LP64 little-endian target: the lanes, the three sizes, the staging
    buffer, the padding byte and its alignment, the two function pointers. *)
Definition sizeof_KECCAK1600_CTX : Z := 200 + 8 + 8 + 8 + sizeof_buf + 8 + 16.

Definition KECCAK1600_CTX_image (c : KECCAK1600_CTX) : list Z :=
  state_bytes (A c)
  ++ le_bytes 8 (block_size c) ++ le_bytes 8 (md_size c)
  ++ le_bytes 8 (bufsz c)
  ++ buf c
  ++ le_bytes 1 (pad c) ++ replicate 7 0
  ++ le_bytes 8 (absorb_fn_addr (absorb (meth c)))
  ++ le_bytes 8 (final_fn_addr (final (meth c))).

(** The struct that [zalloc_zero] returns. *)
Definition KECCAK1600_CTX_zero : KECCAK1600_CTX :=
  mk_ctx (replicate 25 0) 0 0 0 (replicate (Z.to_nat sizeof_buf) 0) 0
         (mk_meth None None).

(** ** Lifecycle: [newctx], [keccak_freectx], [keccak_dupctx] *)

(** Modelled from the spec: [ossl_sha3_init] and [ossl_keccak_kmac_init]
    ([crypto/sha/sha3.c]) are not among the sources.  Section 6,
    Initialize: they apply the family's padding byte, block size and digest
    size to the context and reset it; a block size that does not fit the
    staging buffer is refused.  KMAC doubles the digest size
    ([KMAC_MDSIZE]). *)
Definition ossl_sha3_init (ctx : KECCAK1600_CTX) (pad bitlen : Z)
  : Z * KECCAK1600_CTX :=
  let bsz := SHA3_BLOCKSIZE bitlen in
  if bsz <=? sizeof_buf then
    (1, set_pad (set_md_size (set_block_size (ossl_sha3_reset ctx) bsz)
                             (bitlen / 8)) pad)
  else (0, ctx).

Definition ossl_keccak_kmac_init (ctx : KECCAK1600_CTX) (pad bitlen : Z)
  : Z * KECCAK1600_CTX :=
  let '(ret, ctx) := ossl_sha3_init ctx pad bitlen in
  if ret =? 0 then (ret, ctx)
  else (ret, set_md_size ctx (size_t_mul (md_size ctx) 2)).

(** The three branches of the preprocessor and what the CPU offers. *)
Inductive target := TARGET_S390X | TARGET_AARCH64 | TARGET_OTHER.

Record cpu_caps := mk_caps {
  s390x_kimd_cap : Z -> bool;
  s390x_klmd_cap : Z -> bool;
  armv8_sha3_worth_using : bool
}.

Definition S390_SHA3_CAPABLE (caps : cpu_caps) (fc : Z) : bool :=
  s390x_kimd_cap caps fc && s390x_klmd_cap caps fc.

(** [SHA3_SET_MD(uname, typ)]: [fc] is [S390X_##uname], [typ_md] is
    [typ##_s390x_md]. *)
Definition SHA3_SET_MD (t : target) (caps : cpu_caps) (fc : Z)
    (typ_md : PROV_SHA3_METHOD) (ctx : KECCAK1600_CTX) : KECCAK1600_CTX :=
  match t with
  | TARGET_S390X =>
      if S390_SHA3_CAPABLE caps fc then set_meth (set_pad ctx fc) typ_md
      else set_meth ctx sha3_generic_md
  | TARGET_AARCH64 =>
      if armv8_sha3_worth_using caps then set_meth ctx sha3_ARMSHA3_md
      else set_meth ctx sha3_generic_md
  | TARGET_OTHER => set_meth ctx sha3_generic_md
  end.

(** [KMAC_SET_MD(bitlen)]: [fc] is [S390X_SHAKE_##bitlen]. *)
Definition KMAC_SET_MD (t : target) (caps : cpu_caps) (fc : Z)
    (ctx : KECCAK1600_CTX) : KECCAK1600_CTX :=
  SHA3_SET_MD t caps fc kmac_s390x_md ctx.

(** The struct a successful [name##_newctx] leaves in memory. *)
Definition SHA3_newctx_value (t : target) (caps : cpu_caps)
    (typ_md : PROV_SHA3_METHOD) (fc bitlen pad : Z) : KECCAK1600_CTX :=
  let ctx := KECCAK1600_CTX_zero in
  let '(_, ctx) := ossl_sha3_init ctx pad bitlen in
  SHA3_SET_MD t caps fc typ_md ctx.

Definition KMAC_newctx_value (t : target) (caps : cpu_caps)
    (fc bitlen pad : Z) : KECCAK1600_CTX :=
  let ctx := KECCAK1600_CTX_zero in
  let '(_, ctx) := ossl_keccak_kmac_init ctx pad bitlen in
  KMAC_SET_MD t caps fc ctx.

Definition SHA3_newctx (t : target) (caps : cpu_caps)
    (typ_md : PROV_SHA3_METHOD) (fc bitlen pad : Z)
    (ps : prov_state) (m : mem) : option (option positive * mem) :=
  let '(ctx, m) :=
    if ossl_prov_is_running ps then zalloc_zero m sizeof_KECCAK1600_CTX 1
    else (None, m) in
  match ctx with
  | None => Some (None, m)
  | Some _ =>
      m ← mem_store m ctx
            (KECCAK1600_CTX_image (SHA3_newctx_value t caps typ_md fc bitlen pad));
      Some (ctx, m)
  end.

Definition KMAC_newctx (t : target) (caps : cpu_caps) (fc bitlen pad : Z)
    (ps : prov_state) (m : mem) : option (option positive * mem) :=
  let '(ctx, m) :=
    if ossl_prov_is_running ps then zalloc_zero m sizeof_KECCAK1600_CTX 1
    else (None, m) in
  match ctx with
  | None => Some (None, m)
  | Some _ =>
      m ← mem_store m ctx
            (KECCAK1600_CTX_image (KMAC_newctx_value t caps fc bitlen pad));
      Some (ctx, m)
  end.

(** The twelve families ([IMPLEMENT_SHA3_functions] and the like). *)
Inductive family :=
| sha3_224 | sha3_256 | sha3_384 | sha3_512
| keccak_224 | keccak_256 | keccak_384 | keccak_512
| shake_128 | shake_256
| keccak_kmac_128 | keccak_kmac_256.

Definition family_newctx_value (t : target) (caps : cpu_caps) (f : family)
  : KECCAK1600_CTX :=
  match f with
  | sha3_224 => SHA3_newctx_value t caps sha3_s390x_md S390X_SHA3_224 224 6
  | sha3_256 => SHA3_newctx_value t caps sha3_s390x_md S390X_SHA3_256 256 6
  | sha3_384 => SHA3_newctx_value t caps sha3_s390x_md S390X_SHA3_384 384 6
  | sha3_512 => SHA3_newctx_value t caps sha3_s390x_md S390X_SHA3_512 512 6
  | keccak_224 => SHA3_newctx_value t caps keccak_s390x_md S390X_KECCAK_224 224 1
  | keccak_256 => SHA3_newctx_value t caps keccak_s390x_md S390X_KECCAK_256 256 1
  | keccak_384 => SHA3_newctx_value t caps keccak_s390x_md S390X_KECCAK_384 384 1
  | keccak_512 => SHA3_newctx_value t caps keccak_s390x_md S390X_KECCAK_512 512 1
  | shake_128 => SHA3_newctx_value t caps shake_s390x_md S390X_SHAKE_128 128 31
  | shake_256 => SHA3_newctx_value t caps shake_s390x_md S390X_SHAKE_256 256 31
  | keccak_kmac_128 => KMAC_newctx_value t caps S390X_SHAKE_128 128 4
  | keccak_kmac_256 => KMAC_newctx_value t caps S390X_SHAKE_256 256 4
  end.

Definition family_newctx (t : target) (caps : cpu_caps) (f : family)
    (ps : prov_state) (m : mem) : option (option positive * mem) :=
  match f with
  | sha3_224 => SHA3_newctx t caps sha3_s390x_md S390X_SHA3_224 224 6 ps m
  | sha3_256 => SHA3_newctx t caps sha3_s390x_md S390X_SHA3_256 256 6 ps m
  | sha3_384 => SHA3_newctx t caps sha3_s390x_md S390X_SHA3_384 384 6 ps m
  | sha3_512 => SHA3_newctx t caps sha3_s390x_md S390X_SHA3_512 512 6 ps m
  | keccak_224 => SHA3_newctx t caps keccak_s390x_md S390X_KECCAK_224 224 1 ps m
  | keccak_256 => SHA3_newctx t caps keccak_s390x_md S390X_KECCAK_256 256 1 ps m
  | keccak_384 => SHA3_newctx t caps keccak_s390x_md S390X_KECCAK_384 384 1 ps m
  | keccak_512 => SHA3_newctx t caps keccak_s390x_md S390X_KECCAK_512 512 1 ps m
  | shake_128 => SHA3_newctx t caps shake_s390x_md S390X_SHAKE_128 128 31 ps m
  | shake_256 => SHA3_newctx t caps shake_s390x_md S390X_SHAKE_256 256 31 ps m
  | keccak_kmac_128 => KMAC_newctx t caps S390X_SHAKE_128 128 4 ps m
  | keccak_kmac_256 => KMAC_newctx t caps S390X_SHAKE_256 256 4 ps m
  end.

Definition keccak_freectx (m : mem) (vctx : option positive) : option mem :=
  OPENSSL_clear_free m vctx sizeof_KECCAK1600_CTX.

(** [*ret = *in] copies the whole struct, arrays included. *)
Definition keccak_dupctx (ps : prov_state) (m : mem) (ctx : option positive)
  : option (option positive * mem) :=
  let '(ret, m) :=
    if ossl_prov_is_running ps then zalloc m sizeof_KECCAK1600_CTX 1
    else (None, m) in
  match ret with
  | Some _ =>
      src ← mem_load m ctx sizeof_KECCAK1600_CTX;
      m ← mem_store m ret src;
      Some (ret, m)
  | None => Some (ret, m)
  end.

(** The configuration of a context: what [newctx] and
    [shake_set_ctx_params] decide, as opposed to the running state ([A],
    [bufsz], [buf]). *)
Definition ctx_config (c : KECCAK1600_CTX) : Z * Z * Z * PROV_SHA3_METHOD :=
  (block_size c, md_size c, pad c, meth c).

(** *** The dispatch tables *)

Inductive digest_flag := PROV_DIGEST_FLAG_XOF | PROV_DIGEST_FLAG_ALGID_ABSENT.

Definition SHA3_FLAGS : digest_flag := PROV_DIGEST_FLAG_ALGID_ABSENT.
Definition SHAKE_FLAGS : digest_flag := PROV_DIGEST_FLAG_XOF.
Definition KMAC_FLAGS : digest_flag := PROV_DIGEST_FLAG_XOF.

(** The block size, the digest size and the flags that
    [IMPLEMENT_SHA3_functions] and the like hand to
    [PROV_FUNC_DIGEST_GET_PARAM] for the family: what its [get_params]
    reports. *)
Definition family_get_param (f : family) : Z * Z * digest_flag :=
  match f with
  | sha3_224 => (SHA3_BLOCKSIZE 224, SHA3_MDSIZE 224, SHA3_FLAGS)
  | sha3_256 => (SHA3_BLOCKSIZE 256, SHA3_MDSIZE 256, SHA3_FLAGS)
  | sha3_384 => (SHA3_BLOCKSIZE 384, SHA3_MDSIZE 384, SHA3_FLAGS)
  | sha3_512 => (SHA3_BLOCKSIZE 512, SHA3_MDSIZE 512, SHA3_FLAGS)
  | keccak_224 => (SHA3_BLOCKSIZE 224, SHA3_MDSIZE 224, SHA3_FLAGS)
  | keccak_256 => (SHA3_BLOCKSIZE 256, SHA3_MDSIZE 256, SHA3_FLAGS)
  | keccak_384 => (SHA3_BLOCKSIZE 384, SHA3_MDSIZE 384, SHA3_FLAGS)
  | keccak_512 => (SHA3_BLOCKSIZE 512, SHA3_MDSIZE 512, SHA3_FLAGS)
  | shake_128 => (SHA3_BLOCKSIZE 128, SHA3_MDSIZE 128, SHAKE_FLAGS)
  | shake_256 => (SHA3_BLOCKSIZE 256, SHA3_MDSIZE 256, SHAKE_FLAGS)
  | keccak_kmac_128 => (SHA3_BLOCKSIZE 128, KMAC_MDSIZE 128, KMAC_FLAGS)
  | keccak_kmac_256 => (SHA3_BLOCKSIZE 256, KMAC_MDSIZE 256, KMAC_FLAGS)
  end.

(** The function behind [OSSL_FUNC_DIGEST_INIT] in the table of the family:
    [keccak_init] under [PROV_FUNC_SHA3_DIGEST], [keccak_init_params] under
    [PROV_FUNC_SHAKE_DIGEST]. *)
Definition family_digest_init (f : family) (ps : prov_state)
    (vctx : option KECCAK1600_CTX) (params : option (list OSSL_PARAM))
  : option (Z * option KECCAK1600_CTX * prov_state) :=
  match f with
  | sha3_224 | sha3_256 | sha3_384 | sha3_512
  | keccak_224 | keccak_256 | keccak_384 | keccak_512 =>
      '(r, vctx) ← keccak_init ps vctx params;
      Some (r, vctx, ps)
  | shake_128 | shake_256 | keccak_kmac_128 | keccak_kmac_256 =>
      keccak_init_params ps vctx params
  end.

(** *** [shake_settable_ctx_params] *)

(** [known_shake_settable_ctx_params]: the descriptor, with no payload, of
    the one parameter that can be set. *)
Definition known_shake_settable_ctx_params : list OSSL_PARAM :=
  [mk_param OSSL_DIGEST_PARAM_XOFLEN OSSL_PARAM_UNSIGNED_INTEGER []].

Definition shake_settable_ctx_params (ctx : option KECCAK1600_CTX)
    (provctx : unit) : list OSSL_PARAM :=
  known_shake_settable_ctx_params.

(** *** One stream on two backends *)

(** Two contexts in the same state of the same stream: [c] bound to the
    methods some target selected, [g] to the generic ones.  They share the
    permutation state, the sizes and the buffered bytes; the padding byte of
    [g] is the one the methods of [c] apply, be it [c]'s own [pad], the one
    its S390X function code stands for, or the one its final function
    passes itself. *)
Definition backend_twin (c g : KECCAK1600_CTX) : Prop :=
  A c = A g /\ block_size c = block_size g /\ md_size c = md_size g
  /\ bufsz c = bufsz g /\ length (buf c) = length (buf g)
  /\ pending c = pending g
  /\ meth g = sha3_generic_md
  /\ match absorb (meth c), final (meth c) with
     | Some fn_generic_sha3_absorb, Some fn_generic_sha3_final
     | Some fn_armsha3_sha3_absorb, Some fn_generic_sha3_final =>
         pad c = pad g
     | Some fn_s390x_sha3_absorb, Some fn_s390x_sha3_final =>
         pad g = s390x_padbyte (pad c) /\ md_size c <= block_size c
     | Some fn_s390x_sha3_absorb, Some fn_s390x_shake_final =>
         pad g = s390x_padbyte (pad c)
     | Some fn_s390x_sha3_absorb, Some fn_s390x_keccak_final => pad g = 1
     | Some fn_s390x_sha3_absorb, Some fn_s390x_kmac_final => pad g = 4
     | _, _ => False
     end.

(** ** [crypto/mem_sec.c]: the secure-memory entry points *)

(** Modelled from the spec: [zhard_alloc], [zhard_free] and
    [zhard_getallocsize] belong to the Fil-C runtime ([stdfil.h]) and are not
    among the sources.  Section 6 gives the secure allocator the contract
    allocate-zeroed(n) / free-and-wipe(ptr): [zhard_alloc] returns [num]
    zeroed bytes or [NULL], [zhard_free] wipes the whole block and releases
    it ([zhard_free(NULL)] does nothing), [zhard_getallocsize] is the size of
    the live block at the pointer, 0 when there is none. *)
Definition zhard_alloc (m : mem) (num : Z) : option positive * mem :=
  mem_alloc m num.

Definition zhard_free (m : mem) (ptr : option positive) : option mem :=
  match ptr with
  | None => Some m
  | Some p =>
      b ← blocks m !! p;
      m ← OPENSSL_cleanse m p (Z.of_nat (length (bytes b)));
      mem_free m p
  end.

Definition zhard_getallocsize (m : mem) (ptr : option positive) : Z :=
  match ptr with
  | None => 0
  | Some p =>
      match blocks m !! p with
      | Some b => if live b then Z.of_nat (length (bytes b)) else 0
      | None => 0
      end
  end.

(** The file's one global, [secure_mem_initialized], is threaded through
    the two functions that write it. *)
Definition CRYPTO_secure_malloc_init (secure_mem_initialized : Z)
    (size minsize : Z) : Z * Z :=
  let secure_mem_initialized := 1 in
  (0, secure_mem_initialized).

Definition CRYPTO_secure_malloc_done (secure_mem_initialized : Z) : Z * Z :=
  let secure_mem_initialized := 0 in
  (0, secure_mem_initialized).

Definition CRYPTO_secure_malloc_initialized (secure_mem_initialized : Z) : Z :=
  secure_mem_initialized.

Definition CRYPTO_secure_malloc (m : mem) (num : Z) (file : string)
    (line : Z) : option positive * mem :=
  zhard_alloc m num.

Definition CRYPTO_secure_zalloc (m : mem) (num : Z) (file : string)
    (line : Z) : option positive * mem :=
  zhard_alloc m num.

Definition CRYPTO_secure_free (m : mem) (ptr : option positive)
    (file : string) (line : Z) : option mem :=
  zhard_free m ptr.

Definition CRYPTO_secure_clear_free (m : mem) (ptr : option positive)
    (num : Z) (file : string) (line : Z) : option mem :=
  zhard_free m ptr.

Definition CRYPTO_secure_allocated (m : mem) (ptr : option positive) : Z :=
  if zhard_getallocsize m ptr =? 0 then 0 else 1.

Definition CRYPTO_secure_used : Z := 0.

Definition CRYPTO_secure_actual_size (ptr : option positive) : Z := 0.

(** *** The secure heap's flag over a sequence of calls *)

Inductive secure_heap_call :=
| call_secure_malloc_init (size minsize : Z)
| call_secure_malloc_done.

(** The calls in order, from a value of [secure_mem_initialized]: what each
    returned and the value at the end. *)
Fixpoint secure_heap_calls (secure_mem_initialized : Z)
    (calls : list secure_heap_call) : list Z * Z :=
  match calls with
  | [] => ([], secure_mem_initialized)
  | call :: calls' =>
      let '(ret, secure_mem_initialized) :=
        match call with
        | call_secure_malloc_init size minsize =>
            CRYPTO_secure_malloc_init secure_mem_initialized size minsize
        | call_secure_malloc_done =>
            CRYPTO_secure_malloc_done secure_mem_initialized
        end in
      let '(rets, secure_mem_initialized) :=
        secure_heap_calls secure_mem_initialized calls' in
      (ret :: rets, secure_mem_initialized)
  end.

(** ** [providers/implementations/exchange/ecx_exch.c] *)

Module ECX_KEY.
(** Modelled from the spec: [ECX_KEY] ([include/crypto/ecx.h]) is not among
    the sources; of its fields the exchange reads [keylen], and the
    reference count is what [ossl_ecx_key_up_ref] and [ossl_ecx_key_free]
    work on. *)
Record t := mk {
  keylen : Z;
  references : Z
}.
End ECX_KEY.

Module PROV_ECX_CTX.
Record t := mk {
  keylen : Z;
  key : option positive;
  peerkey : option positive
}.
End PROV_ECX_CTX.

Definition X25519_KEYLEN : Z := 32.
Definition X448_KEYLEN : Z := 56.
Definition sizeof_PROV_ECX_CTX : Z := 24.

(** The keys and the exchange contexts live in two typed stores; [heap_left]
    is what [zalloc] can still hand out. *)
Record ecx_world := mk_ecx_world {
  prov : prov_state;
  keys : gmap positive ECX_KEY.t;
  ctxs : gmap positive PROV_ECX_CTX.t;
  heap_left : Z
}.

Definition ecx_set_prov (w : ecx_world) (ps : prov_state) : ecx_world :=
  mk_ecx_world ps (keys w) (ctxs w) (heap_left w).
Definition ecx_set_keys (w : ecx_world) (ks : gmap positive ECX_KEY.t)
  : ecx_world :=
  mk_ecx_world (prov w) ks (ctxs w) (heap_left w).
Definition ecx_set_ctxs (w : ecx_world) (cs : gmap positive PROV_ECX_CTX.t)
  : ecx_world :=
  mk_ecx_world (prov w) (keys w) cs (heap_left w).

(** Modelled from the spec: [ossl_ecx_key_up_ref] and [ossl_ecx_key_free]
    ([crypto/ec/ecx_key.c]) are not among the sources.  The first takes one
    more reference and reports whether the key was alive (the count after
    the increment exceeds one); the second gives one back, does nothing on
    [NULL], and releases the key with its last reference.  A pointer to no
    key is a fault. *)
Definition ossl_ecx_key_up_ref (ks : gmap positive ECX_KEY.t) (k : positive)
  : option (Z * gmap positive ECX_KEY.t) :=
  key ← ks !! k;
  let i := ECX_KEY.references key + 1 in
  Some (if i >? 1 then 1 else 0, <[k := ECX_KEY.mk (ECX_KEY.keylen key) i]> ks).

Definition ossl_ecx_key_free (ks : gmap positive ECX_KEY.t)
    (ptr : option positive) : option (gmap positive ECX_KEY.t) :=
  match ptr with
  | None => Some ks
  | Some k =>
      key ← ks !! k;
      let i := ECX_KEY.references key - 1 in
      if i >? 0 then Some (<[k := ECX_KEY.mk (ECX_KEY.keylen key) i]> ks)
      else Some (delete k ks)
  end.

Definition ecx_newctx (w : ecx_world) (keylen : Z)
  : option positive * ecx_world :=
  if negb (ossl_prov_is_running (prov w)) then (None, w)
  else if sizeof_PROV_ECX_CTX <=? heap_left w then
    let ctx := fresh (dom (ctxs w)) in
    (Some ctx,
     mk_ecx_world (prov w) (keys w)
       (<[ctx := PROV_ECX_CTX.mk keylen None None]> (ctxs w))
       (heap_left w - sizeof_PROV_ECX_CTX))
  else (None, w).

Definition x25519_newctx (w : ecx_world) : option positive * ecx_world :=
  ecx_newctx w X25519_KEYLEN.

Definition x448_newctx (w : ecx_world) : option positive * ecx_world :=
  ecx_newctx w X448_KEYLEN.

(** The failure exit shared by [ecx_init] and [ecx_set_peer]:
    [ERR_raise(ERR_LIB_PROV, ERR_R_INTERNAL_ERROR); return 0]. *)
Definition ecx_fail (w : ecx_world) : option (Z * ecx_world) :=
  Some (0, ecx_set_prov w (ERR_raise (prov w) ERR_LIB_PROV ERR_R_INTERNAL_ERROR)).

Definition ecx_init (w : ecx_world) (vecxctx vkey : option positive)
    (params : option (list OSSL_PARAM)) : option (Z * ecx_world) :=
  if negb (ossl_prov_is_running (prov w)) then Some (0, w)
  else
    match vecxctx, vkey with
    | Some ecxctx, Some key =>
        c ← ctxs w !! ecxctx;
        k ← keys w !! key;
        if negb (ECX_KEY.keylen k =? PROV_ECX_CTX.keylen c) then ecx_fail w
        else
          '(ok, ks) ← ossl_ecx_key_up_ref (keys w) key;
          let w := ecx_set_keys w ks in
          if ok =? 0 then ecx_fail w
          else
            ks ← ossl_ecx_key_free (keys w) (PROV_ECX_CTX.key c);
            let w := ecx_set_keys w ks in
            Some (1, ecx_set_ctxs w
                       (<[ecxctx := PROV_ECX_CTX.mk (PROV_ECX_CTX.keylen c)
                                      (Some key) (PROV_ECX_CTX.peerkey c)]>
                          (ctxs w)))
    | _, _ => ecx_fail w
    end.

Definition ecx_set_peer (w : ecx_world) (vecxctx vkey : option positive)
  : option (Z * ecx_world) :=
  if negb (ossl_prov_is_running (prov w)) then Some (0, w)
  else
    match vecxctx, vkey with
    | Some ecxctx, Some key =>
        c ← ctxs w !! ecxctx;
        k ← keys w !! key;
        if negb (ECX_KEY.keylen k =? PROV_ECX_CTX.keylen c) then ecx_fail w
        else
          '(ok, ks) ← ossl_ecx_key_up_ref (keys w) key;
          let w := ecx_set_keys w ks in
          if ok =? 0 then ecx_fail w
          else
            ks ← ossl_ecx_key_free (keys w) (PROV_ECX_CTX.peerkey c);
            let w := ecx_set_keys w ks in
            Some (1, ecx_set_ctxs w
                       (<[ecxctx := PROV_ECX_CTX.mk (PROV_ECX_CTX.keylen c)
                                      (PROV_ECX_CTX.key c) (Some key)]>
                          (ctxs w)))
    | _, _ => ecx_fail w
    end.

(** *** [ecx_derive], [ecx_freectx], [ecx_dupctx] *)

(** Modelled from the spec: [OPENSSL_free] ([crypto/mem.c]) is not among the
    sources.  It releases the block of an exchange context and gives its
    bytes back to the allocator; [OPENSSL_free(NULL)] does nothing, and a
    pointer to no context is a fault. *)
Definition OPENSSL_free (w : ecx_world) (ptr : option positive)
  : option ecx_world :=
  match ptr with
  | None => Some w
  | Some p =>
      _ ← ctxs w !! p;
      Some (mk_ecx_world (prov w) (keys w) (delete p (ctxs w))
                         (heap_left w + sizeof_PROV_ECX_CTX))
  end.

Section Derive.

(** [ossl_ecx_compute_key] ([crypto/ec/ecx_key.c]) is not among the sources
    and nothing describes it: [ecx_derive] is embedded over an arbitrary
    callee, which receives the world, the peer key, the own key, the key
    length and the three arguments of the caller, and returns the status,
    the secret buffer, [*secretlen] and the world. *)
Variable ossl_ecx_compute_key :
  ecx_world -> option positive -> option positive -> Z ->
  option (list Z) -> Z -> Z ->
  option (Z * option (list Z) * Z * ecx_world).

Definition ecx_derive (w : ecx_world) (vecxctx : option positive)
    (secret : option (list Z)) (secretlen : Z) (outlen : Z)
  : option (Z * option (list Z) * Z * ecx_world) :=
  if negb (ossl_prov_is_running (prov w)) then Some (0, secret, secretlen, w)
  else
    ecxctx ← vecxctx;
    c ← ctxs w !! ecxctx;
    ossl_ecx_compute_key w (PROV_ECX_CTX.peerkey c) (PROV_ECX_CTX.key c)
      (PROV_ECX_CTX.keylen c) secret secretlen outlen.

End Derive.

Definition ecx_freectx (w : ecx_world) (vecxctx : option positive)
  : option ecx_world :=
  ecxctx ← vecxctx;
  c ← ctxs w !! ecxctx;
  ks ← ossl_ecx_key_free (keys w) (PROV_ECX_CTX.key c);
  let w := ecx_set_keys w ks in
  ks ← ossl_ecx_key_free (keys w) (PROV_ECX_CTX.peerkey c);
  let w := ecx_set_keys w ks in
  OPENSSL_free w (Some ecxctx).

(** [ptr != NULL && !ossl_ecx_key_up_ref(ptr)]: whether the test holds, and
    the world after it. *)
Definition ecx_up_ref_fails (w : ecx_world) (ptr : option positive)
  : option (bool * ecx_world) :=
  match ptr with
  | None => Some (false, w)
  | Some k =>
      '(ok, ks) ← ossl_ecx_key_up_ref (keys w) k;
      Some (ok =? 0, ecx_set_keys w ks)
  end.

Definition ecx_dupctx (w : ecx_world) (vecxctx : option positive)
  : option (option positive * ecx_world) :=
  if negb (ossl_prov_is_running (prov w)) then Some (None, w)
  else if sizeof_PROV_ECX_CTX <=? heap_left w then
    let dstctx := fresh (dom (ctxs w)) in
    let w :=
      mk_ecx_world (prov w) (keys w)
        (<[dstctx := PROV_ECX_CTX.mk 0 None None]> (ctxs w))
        (heap_left w - sizeof_PROV_ECX_CTX) in
    srcctx ← vecxctx;
    src ← ctxs w !! srcctx;
    let w := ecx_set_ctxs w (<[dstctx := src]> (ctxs w)) in
    '(failed, w) ← ecx_up_ref_fails w (PROV_ECX_CTX.key src);
    if (failed : bool) then
      let w :=
        ecx_set_prov w (ERR_raise (prov w) ERR_LIB_PROV ERR_R_INTERNAL_ERROR) in
      w ← OPENSSL_free w (Some dstctx);
      Some (@None positive, w)
    else
      '(failed, w) ← ecx_up_ref_fails w (PROV_ECX_CTX.peerkey src);
      if (failed : bool) then
        let w :=
          ecx_set_prov w (ERR_raise (prov w) ERR_LIB_PROV ERR_R_INTERNAL_ERROR) in
        ks ← ossl_ecx_key_free (keys w) (PROV_ECX_CTX.key src);
        let w := ecx_set_keys w ks in
        w ← OPENSSL_free w (Some dstctx);
        Some (@None positive, w)
      else Some (Some dstctx, w)
  else Some (None, w).

(** *** Reference counts against the pointers the contexts hold *)

(** 1 when the pointer points to [k], 0 otherwise. *)
Definition ecx_points_to (ptr : option positive) (k : positive) : Z :=
  if decide (ptr = Some k) then 1 else 0.

(** How many of the two key fields of a context point to [k]. *)
Definition ecx_ctx_uses (c : PROV_ECX_CTX.t) (k : positive) : Z :=
  ecx_points_to (PROV_ECX_CTX.key c) k
  + ecx_points_to (PROV_ECX_CTX.peerkey c) k.

(** How many key fields of all the contexts point to [k]. *)
Definition ecx_holders (cs : gmap positive PROV_ECX_CTX.t) (k : positive) : Z :=
  map_fold (fun _ c n => n + ecx_ctx_uses c k) 0 cs.

(** The reference count of [k], 0 for a key that has been released. *)
Definition ecx_refs (ks : gmap positive ECX_KEY.t) (k : positive) : Z :=
  match ks !! k with
  | Some key => ECX_KEY.references key
  | None => 0
  end.

(** Every key of the store has a reference. *)
Definition ecx_alive (ks : gmap positive ECX_KEY.t) : Prop :=
  map_Forall (fun _ key => 1 <= ECX_KEY.references key) ks.

(** A key pointer that points to a key, or is [NULL]. *)
Definition ecx_ptr_ok (ks : gmap positive ECX_KEY.t) (ptr : option positive)
  : Prop :=
  match ptr with
  | Some k => is_Some (ks !! k)
  | None => True
  end.

(** The reference counts account for the contexts: every key that exists
    has at least one reference and at least as many as there are context
    fields that point to it, and no context field points to a key that has
    been released. *)
Definition ecx_refs_ok (w : ecx_world) : Prop :=
  map_Forall (fun k key =>
                1 <= ECX_KEY.references key
                /\ ecx_holders (ctxs w) k <= ECX_KEY.references key) (keys w)
  /\ map_Forall (fun _ c =>
                   ecx_ptr_ok (keys w) (PROV_ECX_CTX.key c)
                   /\ ecx_ptr_ok (keys w) (PROV_ECX_CTX.peerkey c)) (ctxs w).

(** ** A reference permutation and sample data *)

(** Modelled from the spec: [KeccakF1600] is not among the sources and the
    spec leaves its rounds out.  This is the Keccak-f[1600] of the standard
    the spec binds the outputs to (FIPS 202): theta, rho and pi, chi, iota,
    24 rounds, the lane [(x, y)] at index [x + 5 * y].  It only serves to
    run the engine on concrete inputs; every theorem takes the permutation
    as a parameter. *)
Definition rotl64 (v n : Z) : Z :=
  Z.lor (Z.shiftl v n mod 2 ^ 64) (Z.shiftr v (64 - n)).

Definition lane (st : list Z) (x y : nat) : Z :=
  nth (x mod 5 + 5 * (y mod 5)) st 0.

Definition lanes (f : nat -> nat -> Z) : list Z :=
  map (fun i => f (i mod 5)%nat (i / 5)%nat) (seq 0 25).

Definition keccak_rhotates : list (list Z) :=
  [ [0; 36; 3; 41; 18];
    [1; 44; 10; 45; 2];
    [62; 6; 43; 15; 61];
    [28; 55; 25; 21; 56];
    [27; 20; 39; 8; 14] ].

Definition keccak_iotas : list Z :=
  [ 0x0000000000000001; 0x0000000000008082; 0x800000000000808a;
    0x8000000080008000; 0x000000000000808b; 0x0000000080000001;
    0x8000000080008081; 0x8000000000008009; 0x000000000000008a;
    0x0000000000000088; 0x0000000080008009; 0x000000008000000a;
    0x000000008000808b; 0x800000000000008b; 0x8000000000008089;
    0x8000000000008003; 0x8000000000008002; 0x8000000000000080;
    0x000000000000800a; 0x800000008000000a; 0x8000000080008081;
    0x8000000000008080; 0x0000000080000001; 0x8000000080008008 ].

Definition Theta (st : list Z) : list Z :=
  let C x := Z.lxor (lane st x 0) (Z.lxor (lane st x 1) (Z.lxor (lane st x 2)
             (Z.lxor (lane st x 3) (lane st x 4)))) in
  let D x := Z.lxor (C (x + 4)%nat) (rotl64 (C (x + 1)%nat) 1) in
  lanes (fun x y => Z.lxor (lane st x y) (D x)).

Definition RhoPi (st : list Z) : list Z :=
  lanes (fun x y =>
    let sx := ((x + 3 * y) mod 5)%nat in
    rotl64 (lane st sx x) (nth x (nth sx keccak_rhotates []) 0)).

Definition Chi (st : list Z) : list Z :=
  lanes (fun x y =>
    Z.lxor (lane st x y)
      (Z.land (Z.lxor (lane st (x + 1) y) (2 ^ 64 - 1)) (lane st (x + 2) y))).

Definition Iota (rc : Z) (st : list Z) : list Z :=
  match st with
  | [] => []
  | a :: st' => Z.lxor a rc :: st'
  end.

Definition Round (st : list Z) (rc : Z) : list Z :=
  Iota rc (Chi (RhoPi (Theta st))).

Definition KeccakF1600_fips202 (st : list Z) : list Z :=
  fold_left Round keccak_iotas st.

(** A CPU with none of the extensions, one with all of them; a provider
    that runs, one that has been shut down. *)
Definition no_caps : cpu_caps := mk_caps (fun _ => false) (fun _ => false) false.
Definition all_caps : cpu_caps := mk_caps (fun _ => true) (fun _ => true) true.
Definition prov_up : prov_state := mk_prov_state true [].
Definition prov_down : prov_state := mk_prov_state false [].

(** The digest of a whole message by one [keccak_update] and one
    [keccak_final] on the fresh context of a family, into a buffer of
    [outlen] bytes; [xoflen], when given, is set first. *)
Definition one_shot_digest (t : target) (caps : cpu_caps) (f : family)
    (xoflen : option Z) (msg : list Z) (outlen : nat)
  : option (Z * list Z * Z) :=
  let c := family_newctx_value t caps f in
  let c := match xoflen with Some v => set_md_size c v | None => c end in
  '(_, c) ← keccak_update KeccakF1600_fips202 c msg;
  keccak_final_output
    (keccak_final KeccakF1600_fips202 prov_up c (replicate outlen 0) 0
       (Z.of_nat outlen)).

(** The fresh SHA3-256 and SHAKE128 contexts of the portable build. *)
Definition sha3_256_ctx : KECCAK1600_CTX :=
  family_newctx_value TARGET_OTHER no_caps sha3_256.

Definition shake_128_ctx : KECCAK1600_CTX :=
  family_newctx_value TARGET_OTHER no_caps shake_128.

(** A memory that holds one SHA3-256 context, at address 1. *)
Definition sample_mem : mem :=
  mk_mem {[ 1%positive := mk_block (KECCAK1600_CTX_image sha3_256_ctx) true ]}
         4096.

(** An output-length entry of 64 bytes, an entry under another key, and an
    output-length entry that is a string. *)
Definition xoflen_64 : OSSL_PARAM :=
  mk_param OSSL_DIGEST_PARAM_XOFLEN OSSL_PARAM_UNSIGNED_INTEGER
           [64; 0; 0; 0; 0; 0; 0; 0].

Definition xoflen_16 : OSSL_PARAM :=
  mk_param OSSL_DIGEST_PARAM_XOFLEN OSSL_PARAM_UNSIGNED_INTEGER
           [16; 0; 0; 0; 0; 0; 0; 0].

Definition other_param : OSSL_PARAM :=
  mk_param "size" OSSL_PARAM_UNSIGNED_INTEGER [32; 0; 0; 0].

Definition xoflen_text : OSSL_PARAM :=
  mk_param OSSL_DIGEST_PARAM_XOFLEN OSSL_PARAM_UTF8_STRING [54; 52].

(** An exchange world: an X25519 context at address 1, an X448 key
    (56 bytes) at address 1 and an X25519 key (32 bytes) at address 2. *)
Definition sample_ecx_world : ecx_world :=
  mk_ecx_world prov_up
    {[ 1%positive := ECX_KEY.mk X448_KEYLEN 1;
       2%positive := ECX_KEY.mk X25519_KEYLEN 1 ]}
    {[ 1%positive := PROV_ECX_CTX.mk X25519_KEYLEN None None ]}
    4096.

(** A SHA3-256 context in the middle of a message: some state, five bytes
    buffered. *)
Definition sha3_256_used_ctx : KECCAK1600_CTX :=
  set_bufsz (set_buf (set_A sha3_256_ctx (replicate 25 7))
                     (replicate (Z.to_nat sizeof_buf) 9)) 5.

(** The exchange world once the X25519 key is installed in the context, the
    context holding the second reference of the key. *)
Definition sample_ecx_world_keyed : ecx_world :=
  mk_ecx_world prov_up
    {[ 1%positive := ECX_KEY.mk X448_KEYLEN 1;
       2%positive := ECX_KEY.mk X25519_KEYLEN 2 ]}
    {[ 1%positive := PROV_ECX_CTX.mk X25519_KEYLEN (Some 2%positive) None ]}
    4096.

(** A stand-in for [ossl_ecx_compute_key] that reports the key length and
    touches nothing. *)
Definition sample_compute_key (w : ecx_world) (peer priv : option positive)
    (keylen : Z) (secret : option (list Z)) (secretlen outlen : Z)
  : option (Z * option (list Z) * Z * ecx_world) :=
  Some (1, secret, keylen, w).


(** * Properties *)

Lemma size_t_sub_small a b : 0 <= a - b < 2 ^ 64 -> size_t_sub a b = a - b.
Proof. intros. unfold size_t_sub, size_t_wrap. apply Z.mod_small. lia. Qed.

Lemma size_t_add_small a b : 0 <= a + b < 2 ^ 64 -> size_t_add a b = a + b.
Proof. intros. unfold size_t_add, size_t_wrap. apply Z.mod_small. lia. Qed.

Lemma memcpy_Some dst off src :
  0 <= off -> off + Z.of_nat (length src) <= Z.of_nat (length dst) ->
  memcpy dst off src =
  Some (take (Z.to_nat off) dst ++ src ++ drop (Z.to_nat off + length src) dst).
Proof.
  intros. unfold memcpy.
  destruct (Z.leb_spec 0 off); [|lia].
  destruct (Z.leb_spec (off + Z.of_nat (length src)) (Z.of_nat (length dst))); [|lia].
  reflexivity.
Qed.

Lemma memcpy_length dst off src r :
  memcpy dst off src = Some r -> length r = length dst.
Proof.
  unfold memcpy.
  destruct (Z.leb_spec 0 off); simpl; [|discriminate].
  destruct (Z.leb_spec (off + Z.of_nat (length src)) (Z.of_nat (length dst)));
    [|discriminate].
  intros [= <-]. rewrite !length_app, length_take, length_drop. lia.
Qed.

Lemma memread_Some src off n :
  0 <= off -> 0 <= n -> off + n <= Z.of_nat (length src) ->
  memread src off n = Some (take (Z.to_nat n) (drop (Z.to_nat off) src)).
Proof.
  intros. unfold memread.
  destruct (Z.leb_spec 0 off); [|lia].
  destruct (Z.leb_spec 0 n); [|lia].
  destruct (Z.leb_spec (off + n) (Z.of_nat (length src))); [|lia].
  reflexivity.
Qed.

Lemma sizeof_buf_eq : sizeof_buf = 168.
Proof. reflexivity. Qed.

Lemma ctx_ok_unfold c :
  ctx_ok c <->
  length (buf c) = 168%nat /\ 0 < block_size c <= 168
  /\ 0 <= bufsz c < block_size c /\ backend_okb (absorb (meth c)) c = true.
Proof.
  unfold ctx_ok, ctx_okb. rewrite sizeof_buf_eq.
  rewrite !andb_true_iff, Z.eqb_eq, !Z.ltb_lt, !Z.leb_le.
  intuition lia.
Qed.

Lemma backend_okb_frame f c c' :
  pad c' = pad c -> block_size c' = block_size c ->
  backend_okb f c' = backend_okb f c.
Proof. intros Hp Hb. unfold backend_okb. rewrite Hp, Hb. reflexivity. Qed.

Lemma mod_of_nat (L : nat) (b : Z) :
  0 < b -> Z.of_nat L mod b = Z.of_nat (L mod Z.to_nat b).
Proof. intros. rewrite Nat2Z.inj_mod, Z2Nat.id by lia. reflexivity. Qed.

Lemma pending_length c :
  0 <= bufsz c -> bufsz c <= Z.of_nat (length (buf c)) ->
  Z.of_nat (length (pending c)) = bufsz c.
Proof. intros. unfold pending. rewrite length_take. lia. Qed.

(** *** Buffers that agree on a prefix *)

Lemma memcpy_lookup b off src r (i : nat) :
  memcpy b off src = Some r ->
  r !! i = if decide (Z.to_nat off <= i < Z.to_nat off + length src)%nat
           then src !! (i - Z.to_nat off)%nat else b !! i.
Proof.
  unfold memcpy.
  destruct (Z.leb_spec 0 off); simpl; [|discriminate].
  destruct (Z.leb_spec (off + Z.of_nat (length src)) (Z.of_nat (length b)));
    [|discriminate].
  intros [= <-].
  assert (Ht : length (take (Z.to_nat off) b) = Z.to_nat off)
    by (rewrite length_take; lia).
  destruct (decide (Z.to_nat off <= i < Z.to_nat off + length src)%nat) as [Hi|Hi].
  - rewrite lookup_app_r by lia. rewrite Ht.
    rewrite lookup_app_l by lia. reflexivity.
  - destruct (decide (i < Z.to_nat off)%nat).
    + rewrite lookup_app_l by lia. apply lookup_take_lt. lia.
    + rewrite lookup_app_r by lia. rewrite Ht.
      rewrite lookup_app_r by lia. rewrite lookup_drop. f_equal. lia.
Qed.

Lemma agree_lookup n b1 b2 (i : nat) :
  agree n b1 b2 -> (i < n)%nat -> b1 !! i = b2 !! i.
Proof.
  intros [_ H] Hi.
  rewrite <- (lookup_take_lt b1 n i), <- (lookup_take_lt b2 n i) by lia.
  rewrite H. reflexivity.
Qed.

Lemma agree_le n m b1 b2 : (m <= n)%nat -> agree n b1 b2 -> agree m b1 b2.
Proof.
  intros Hle [Hl H]. split; [exact Hl|].
  replace m with (m `min` n)%nat by lia.
  rewrite <- !take_take, H. reflexivity.
Qed.

(** The same bytes written at the same place keep the agreement, and extend
    it over what they cover. *)
Lemma memcpy_agree (n m : nat) b1 b2 off src r1 :
  agree n b1 b2 -> memcpy b1 off src = Some r1 ->
  (forall i, (n <= i < m)%nat ->
             (Z.to_nat off <= i < Z.to_nat off + length src)%nat) ->
  exists r2, memcpy b2 off src = Some r2 /\ agree m r1 r2.
Proof.
  intros Hag H1 Hcov.
  assert (H2 : exists r2, memcpy b2 off src = Some r2).
  { revert H1. unfold memcpy. destruct Hag as [-> _].
    destruct (_ && _); [eauto|discriminate]. }
  destruct H2 as [r2 H2]. exists r2. split; [exact H2|].
  split.
  - rewrite (memcpy_length _ _ _ _ H1), (memcpy_length _ _ _ _ H2).
    apply Hag.
  - apply list_eq. intros i. rewrite !lookup_take.
    destruct (decide (i < m)%nat); [|reflexivity].
    rewrite (memcpy_lookup _ _ _ _ i H1), (memcpy_lookup _ _ _ _ i H2).
    destruct (decide _) as [|Hn]; [reflexivity|].
    apply (agree_lookup n); [exact Hag|].
    destruct (decide (i < n)%nat); [assumption|].
    exfalso. apply Hn, Hcov. lia.
Qed.

Lemma load_agree n b1 b2 i :
  agree n b1 b2 -> i < Z.of_nat n -> load b1 i = load b2 i.
Proof.
  intros Hag Hi. unfold load. destruct (Z.leb_spec 0 i); [|reflexivity].
  apply (agree_lookup n); [exact Hag|lia].
Qed.

Lemma memread_agree n b1 b2 k :
  agree n b1 b2 -> k <= Z.of_nat n -> memread b1 0 k = memread b2 0 k.
Proof.
  intros Hag Hk. unfold memread. destruct Hag as [Hl Ht]. rewrite Hl.
  destruct (_ && _); [|reflexivity].
  simpl. rewrite !drop_0. f_equal.
  replace (Z.to_nat k) with (Z.to_nat k `min` n)%nat by lia.
  rewrite <- !take_take, Ht. reflexivity.
Qed.

Lemma pad_block_agree b1 b2 num bsz p r1 :
  0 <= num < bsz -> bsz < 2 ^ 64 ->
  agree (Z.to_nat num) b1 b2 ->
  pad_block b1 num bsz p = Some r1 ->
  exists r2, pad_block b2 num bsz p = Some r2 /\ agree (Z.to_nat bsz) r1 r2.
Proof.
  intros Hnum Hb Hag. unfold pad_block, memset, store.
  rewrite !size_t_sub_small by lia.
  destruct (Z.leb_spec 0 (bsz - num)); [|lia].
  destruct (memcpy b1 num _) as [x1|] eqn:E1; [|discriminate]. simpl.
  destruct (memcpy_agree _ (Z.to_nat bsz) _ _ _ _ _ Hag E1) as (x2 & E2 & Hx).
  { intros i Hi. rewrite length_replicate. lia. }
  rewrite E2. simpl.
  destruct (memcpy x1 num _) as [y1|] eqn:F1; [|discriminate]. simpl.
  destruct (memcpy_agree _ (Z.to_nat bsz) _ _ _ _ _ Hx F1) as (y2 & F2 & Hy).
  { intros i Hi. lia. }
  rewrite F2. simpl.
  rewrite <- (load_agree _ _ _ _ Hy) by lia.
  destruct (load y1 (bsz - 1)) as [v|]; [|discriminate]. simpl.
  intros G1.
  destruct (memcpy_agree _ (Z.to_nat bsz) _ _ _ _ _ Hy G1) as (z2 & G2 & Hz).
  { intros i Hi. lia. }
  eauto.
Qed.

Section SpongeFacts.

Variable F : list Z -> list Z.


Lemma SHA3_absorb_loop_spec fuel : forall st inp r,
  0 < r -> (length inp <= fuel)%nat ->
  SHA3_absorb_loop F fuel st inp r =
  Some (absorb_blocks F (length inp / Z.to_nat r) st inp (Z.to_nat r),
        Z.of_nat (length inp) mod r).
Proof.
  induction fuel as [|fuel IH]; intros st inp r Hr Hf; simpl.
  - assert (length inp = 0%nat) as -> by lia.
    destruct (Z.leb_spec r (Z.of_nat 0)); [lia|].
    rewrite Nat.Div0.div_0_l, Z.mod_0_l by lia. reflexivity.
  - destruct (Z.leb_spec r (Z.of_nat (length inp))) as [Hle|Hlt].
    + rewrite IH by (try rewrite length_drop; lia).
      rewrite length_drop.
      assert (Hd : (length inp / Z.to_nat r = S ((length inp - Z.to_nat r) / Z.to_nat r))%nat).
      { replace (length inp) with (1 * Z.to_nat r + (length inp - Z.to_nat r))%nat at 1 by lia.
        rewrite Nat.div_add_l by lia. lia. }
      rewrite Hd. simpl. f_equal. f_equal.
      rewrite Nat2Z.inj_sub by lia. rewrite Z2Nat.id by lia.
      replace (Z.of_nat (length inp) - r) with (Z.of_nat (length inp) + (-1) * r) by lia.
      apply Z.mod_add. lia.
    + rewrite Nat.div_small by lia. rewrite Z.mod_small by lia. reflexivity.
Qed.

Lemma SHA3_absorb_spec st inp r :
  0 < r ->
  SHA3_absorb F st inp r =
  Some (absorb_blocks F (length inp / Z.to_nat r) st inp (Z.to_nat r),
        Z.of_nat (length inp) mod r).
Proof. intros. apply SHA3_absorb_loop_spec; lia. Qed.

(** With a zero rate the loop never ends, whatever the fuel. *)
Lemma SHA3_absorb_loop_zero fuel : forall st inp,
  SHA3_absorb_loop F fuel st inp 0 = None.
Proof.
  induction fuel as [|fuel IH]; intros; simpl.
  - destruct (Z.leb_spec 0 (Z.of_nat (length inp))); [reflexivity|lia].
  - destruct (Z.leb_spec 0 (Z.of_nat (length inp))); [apply IH|lia].
Qed.

Lemma absorb_blocks_app n : forall st d e r,
  (n * r <= length d)%nat ->
  absorb_blocks F n st (d ++ e) r = absorb_blocks F n st d r.
Proof.
  induction n as [|n IH]; intros st d e r H; simpl; [reflexivity|].
  rewrite take_app_le, drop_app_le by lia.
  apply IH. rewrite length_drop. lia.
Qed.

Lemma absorb_blocks_take n st inp r k :
  (n * r <= k)%nat -> (k <= length inp)%nat ->
  absorb_blocks F n st (take k inp) r = absorb_blocks F n st inp r.
Proof.
  intros. rewrite <- (take_drop k inp) at 2.
  symmetry. apply absorb_blocks_app. rewrite length_take. lia.
Qed.

Lemma absorb_blocks_add n : forall m st d r,
  absorb_blocks F (n + m) st d r =
  absorb_blocks F m (absorb_blocks F n st d r) (drop (n * r) d) r.
Proof.
  induction n as [|n IH]; intros; simpl; [reflexivity|].
  rewrite IH, drop_drop. reflexivity.
Qed.

Lemma div_split (a r : nat) :
  (0 < r)%nat -> (a = a / r * r + a mod r /\ a mod r < r)%nat.
Proof.
  intros. split.
  - rewrite Nat.mul_comm. apply Nat.div_mod_eq.
  - apply Nat.mod_upper_bound. lia.
Qed.

Lemma div_add_blocks (n r m : nat) :
  (0 < r)%nat -> ((n * r + m) / r = n + m / r)%nat.
Proof. intros. apply Nat.div_add_l. lia. Qed.

Lemma sponge_step_app r s x y :
  (0 < r)%nat ->
  sponge_step F r (sponge_step F r s x) y = sponge_step F r s (x ++ y).
Proof.
  intros Hr. destruct s as [st p]. unfold sponge_step; simpl.
  set (d := p ++ x).
  replace (p ++ x ++ y) with (d ++ y) by (unfold d; rewrite app_assoc; reflexivity).
  set (n := (length d / r)%nat).
  destruct (div_split (length d) r Hr) as [Hd Hm]. fold n in Hd.
  assert (Hn : (n * r <= length d)%nat) by lia.
  assert (Hlen : (length (d ++ y) = n * r + length (drop (n * r) d ++ y))%nat).
  { rewrite !length_app, length_drop. lia. }
  rewrite Hlen, div_add_blocks by lia.
  rewrite absorb_blocks_add. f_equal.
  - rewrite (absorb_blocks_app n st d y r) by lia.
    rewrite (drop_app_le d y) by lia. reflexivity.
  - rewrite Nat.mul_add_distr_r, <- drop_drop, (drop_app_le d y) by lia.
    reflexivity.
Qed.



Lemma call_absorb_spec f c inp :
  0 < block_size c -> backend_okb f c = true ->
  call_absorb F f c inp =
  Some (set_A c (absorb_blocks F (length inp / Z.to_nat (block_size c)) (A c)
                   inp (Z.to_nat (block_size c))),
        Z.of_nat (length inp) mod block_size c).
Proof.
  intros Hb Hok. destruct f as [[| |]|]; simpl in *; try discriminate.
  - unfold generic_sha3_absorb. rewrite SHA3_absorb_spec by lia. reflexivity.
  - unfold s390x_sha3_absorb.
    destruct (Z.eqb_spec (block_size c) 0); [lia|].
    destruct (s390x_rate (pad c)) as [r|] eqn:Hr; [|discriminate].
    apply Z.eqb_eq in Hok. subst r.
    unfold s390x_kimd. rewrite Hr. simpl.
    rewrite SHA3_absorb_spec by lia. simpl.
    set (r := Z.to_nat (block_size c)).
    destruct (div_split (length inp) r ltac:(lia)) as [Hd Hm].
    assert (Hk : Z.to_nat (Z.of_nat (length inp) - Z.of_nat (length inp) mod block_size c)
                 = (length inp / r * r)%nat).
    { rewrite mod_of_nat by lia. fold r. lia. }
    rewrite Hk, length_take.
    replace ((length inp / r * r) `min` length inp)%nat with (length inp / r * r)%nat by lia.
    rewrite !mod_of_nat by lia. fold r.
    rewrite Nat.Div0.mod_mul. simpl.
    rewrite Nat.div_mul by lia.
    rewrite absorb_blocks_take by lia. reflexivity.
  - unfold armsha3_sha3_absorb, SHA3_absorb_cext.
    rewrite SHA3_absorb_spec by lia. reflexivity.
Qed.

Local Abbreviation update_post := (update_post F).

Lemma keccak_update_rest_spec c inp :
  ctx_ok c -> bufsz c = 0 -> Z.of_nat (length inp) < 2 ^ 64 ->
  exists c', keccak_update_rest F c inp = Some (1, c') /\ update_post c inp c'.
Proof.
  intros Hok H0 Hlen. pose proof Hok as Hok'.
  apply ctx_ok_unfold in Hok' as (Hbuf & Hbs & Hnum & Hbk).
  unfold keccak_update_rest.
  rewrite call_absorb_spec by (auto; lia). simpl.
  set (r := Z.to_nat (block_size c)).
  set (n := (length inp / r)%nat).
  destruct (div_split (length inp) r ltac:(lia)) as [Hd Hm]. fold n in Hd.
  rewrite mod_of_nat by lia. fold r.
  assert (Hpend : pending c = []).
  { unfold pending. rewrite H0. reflexivity. }
  destruct (Z.eqb_spec (Z.of_nat (length inp mod r)) 0) as [Hz|Hnz]; simpl.
  - eexists. split; [reflexivity|].
    unfold update_post, sponge_of, sponge_step; simpl.
    rewrite Hpend. simpl. fold r. fold n.
    repeat split; auto.
    f_equal. unfold pending; simpl. rewrite H0. simpl.
    symmetry. apply drop_ge. lia.
  - rewrite size_t_sub_small by lia.
    rewrite memread_Some by lia. simpl.
    replace (Z.to_nat (Z.of_nat (length inp) - Z.of_nat (length inp mod r)))
      with (n * r)%nat by lia.
    rewrite Nat2Z.id.
    rewrite take_ge by (rewrite length_drop; lia).
    rewrite memcpy_Some by (rewrite ?length_drop; lia). simpl.
    eexists. split; [reflexivity|].
    unfold update_post, sponge_of, sponge_step; simpl.
    rewrite Hpend. simpl. fold r. fold n.
    repeat split; auto.
    + f_equal. unfold pending; simpl. rewrite Nat2Z.id.
      rewrite take_app_length'; [reflexivity|]. rewrite length_drop. lia.
    + apply ctx_ok_unfold. simpl.
      rewrite !length_app, !length_drop. repeat split; try lia.
      erewrite backend_okb_frame; eauto.
Qed.



Lemma sponge_step_short r st p inp :
  (length (p ++ inp) < r)%nat ->
  sponge_step F r (st, p) inp = (st, p ++ inp).
Proof.
  intros. unfold sponge_step; simpl. rewrite Nat.div_small by lia. reflexivity.
Qed.

Lemma sponge_step_block r st blk :
  (0 < r)%nat -> length blk = r ->
  sponge_step F r (st, []) blk = (F (xor_block st blk), []).
Proof.
  intros Hr Hl. unfold sponge_step; simpl. rewrite Hl, Nat.div_same by lia.
  simpl. rewrite Nat.add_0_r, <- Hl, take_ge, drop_ge by lia. reflexivity.
Qed.

Lemma keccak_update_spec c inp :
  ctx_ok c -> Z.of_nat (length inp) < 2 ^ 64 ->
  exists c', keccak_update F c inp = Some (1, c') /\ update_post c inp c'.
Proof.
  intros Hok Hlen. pose proof Hok as Hok'.
  apply ctx_ok_unfold in Hok' as (Hbuf & Hbs & Hnum & Hbk).
  set (r := Z.to_nat (block_size c)).
  assert (Hpl : length (pending c) = Z.to_nat (bufsz c)).
  { unfold pending. rewrite length_take. lia. }
  unfold keccak_update.
  destruct (Z.eqb_spec (Z.of_nat (length inp)) 0) as [Hz|Hnz].
  { exists c. split; [reflexivity|].
    assert (inp = []) as -> by (destruct inp; [reflexivity|simpl in Hz; lia]).
    unfold update_post, sponge_of. fold r.
    rewrite sponge_step_short by (rewrite app_nil_r; lia).
    rewrite app_nil_r. repeat split; auto. }
  destruct (Z.eqb_spec (bufsz c) 0) as [Hn0|Hn0]; simpl.
  { apply keccak_update_rest_spec; auto. }
  rewrite size_t_sub_small by lia.
  destruct (Z.ltb_spec (Z.of_nat (length inp)) (block_size c - bufsz c)) as [Hlt|Hge].
  - rewrite memcpy_Some by lia. simpl.
    rewrite size_t_add_small by lia.
    eexists. split; [reflexivity|].
    unfold update_post, sponge_of. fold r. simpl.
    rewrite sponge_step_short by (rewrite length_app; lia).
    repeat split; auto.
    + f_equal. unfold pending; simpl.
      rewrite app_assoc. apply take_app_length'.
      rewrite length_app, length_take. lia.
    + apply ctx_ok_unfold; simpl.
      rewrite !length_app, length_take, length_drop.
      repeat split; try lia. erewrite backend_okb_frame; eauto.
  - rewrite memread_Some by lia. simpl. rewrite drop_0.
    set (k := Z.to_nat (block_size c - bufsz c)).
    assert (Hk : length (take k inp) = k) by (rewrite length_take; lia).
    rewrite memcpy_Some by lia. simpl.
    rewrite memread_Some;
      [|lia|lia|rewrite !length_app, length_take, length_drop; lia].
    simpl. rewrite drop_0.
    set (b := take (Z.to_nat (bufsz c)) (buf c) ++ take k inp
              ++ drop (Z.to_nat (bufsz c) + length (take k inp)) (buf c)).
    set (c1 := set_buf c b).
    assert (Hblk : take (Z.to_nat (block_size c)) b = pending c ++ take k inp).
    { unfold b. rewrite app_assoc. apply take_app_length'.
      rewrite length_app, length_take. lia. }
    rewrite Hblk.
    rewrite (call_absorb_spec _ c1) by (simpl; auto; lia).
    simpl. fold r.
    assert (Hbl : length (pending c ++ take k inp) = r)
      by (rewrite length_app; lia).
    rewrite Hbl, Nat.div_same by lia. simpl.
    rewrite (take_ge (pending c ++ take k inp) r) by lia.
    set (st1 := F (xor_block (A c) (pending c ++ take k inp))).
    set (c2 := set_bufsz (set_A c1 st1) 0).
    assert (Hok2 : ctx_ok c2).
    { apply ctx_ok_unfold; simpl. unfold b.
      rewrite !length_app, length_take, length_drop.
      repeat split; try lia.
      rewrite (backend_okb_frame _ c c2) by reflexivity. exact Hbk. }
    destruct (keccak_update_rest_spec c2 (drop k inp) Hok2 eq_refl)
      as (c' & Hrun & Hpost).
    { rewrite length_drop. lia. }
    exists c'. split; [exact Hrun|].
    destruct Hpost as (Hsp & Hb & Hmd & Hpad & Hmeth & Hok').
    unfold update_post. simpl in *. fold r in Hsp.
    repeat split; auto.
    rewrite Hsp.
    replace (sponge_of c2) with (st1, @nil Z) by reflexivity. unfold st1.
    rewrite <- (sponge_step_block r (A c) (pending c ++ take k inp)) by lia.
    rewrite sponge_step_app by lia.
    unfold sponge_of, sponge_step; simpl.
    rewrite <- app_assoc, take_drop. reflexivity.
Qed.


(** *** Chunks *)

Lemma update_post_nil c : ctx_ok c -> update_post c [] c.
Proof.
  intros Hok. pose proof Hok as Hok'.
  apply ctx_ok_unfold in Hok' as (Hbuf & Hbs & Hnum & Hbk).
  unfold update_post, sponge_of.
  rewrite sponge_step_short;
    [|unfold pending; rewrite app_nil_r, length_take; lia].
  rewrite app_nil_r. repeat split; auto.
Qed.

Lemma update_post_trans c x c1 y c2 :
  update_post c x c1 -> update_post c1 y c2 -> ctx_ok c ->
  update_post c (x ++ y) c2.
Proof.
  intros (Hs1 & Hb1 & Hm1 & Hp1 & Ht1 & Hok1) (Hs2 & Hb2 & Hm2 & Hp2 & Ht2 & Hok2) Hok.
  apply ctx_ok_unfold in Hok as (_ & Hbs & _).
  unfold update_post. repeat split; try congruence.
  rewrite Hs2, Hs1, Hb1. apply sponge_step_app. lia.
Qed.

Lemma keccak_update_chunks_spec chunks : forall c,
  ctx_ok c -> Z.of_nat (length (concat chunks)) < 2 ^ 64 ->
  exists c', keccak_update_chunks F c chunks = Some c'
             /\ update_post c (concat chunks) c'.
Proof.
  induction chunks as [|x xs IH]; intros c Hok Hlen; simpl in *.
  - exists c. split; [reflexivity|]. apply update_post_nil, Hok.
  - rewrite length_app in Hlen.
    destruct (keccak_update_spec c x Hok) as (c1 & Hrun & Hpost); [lia|].
    rewrite Hrun. simpl.
    destruct (IH c1) as (c' & Hrun' & Hpost'); [apply Hpost|lia|].
    exists c'. split; [exact Hrun'|].
    eapply update_post_trans; eauto.
Qed.

Lemma update_post_equiv c inp c1 c2 :
  update_post c inp c1 -> update_post c inp c2 -> ctx_equiv c1 c2.
Proof.
  intros (Hs1 & Hb1 & Hm1 & Hp1 & Ht1 & Hok1) (Hs2 & Hb2 & Hm2 & Hp2 & Ht2 & Hok2).
  apply ctx_ok_unfold in Hok1 as (Hl1 & Hbs1 & Hn1 & _).
  apply ctx_ok_unfold in Hok2 as (Hl2 & Hbs2 & Hn2 & _).
  rewrite <- Hs2 in Hs1. unfold sponge_of in Hs1.
  injection Hs1 as HA Hpend.
  unfold ctx_equiv. repeat split; try congruence.
  rewrite <- (pending_length c1), <- (pending_length c2) by lia.
  rewrite Hpend. reflexivity.
Qed.

(** *** The digest does not see the stale bytes of the buffer *)

Lemma agree_sym n b1 b2 : agree n b1 b2 -> agree n b2 b1.
Proof. intros [? ?]. split; congruence. Qed.

Lemma pad_block_agree_opt b1 b2 num bsz p :
  0 <= num < bsz -> bsz < 2 ^ 64 ->
  agree (Z.to_nat num) b1 b2 ->
  match pad_block b1 num bsz p, pad_block b2 num bsz p with
  | Some r1, Some r2 => agree (Z.to_nat bsz) r1 r2
  | None, None => True
  | _, _ => False
  end.
Proof.
  intros Hn Hb Hag.
  destruct (pad_block b1 num bsz p) as [r1|] eqn:E1.
  - destruct (pad_block_agree _ _ _ _ _ _ Hn Hb Hag E1) as (r2 & -> & H).
    exact H.
  - destruct (pad_block b2 num bsz p) as [r2|] eqn:E2; [|exact I].
    destruct (pad_block_agree _ _ _ _ _ _ Hn Hb (agree_sym _ _ _ Hag) E2)
      as (r1 & E & _).
    congruence.
Qed.

Ltac step_bind :=
  match goal with
  | |- final_agree (?x ≫= _) (?x ≫= _) =>
      destruct x as [?|]; simpl; [|exact I]
  | |- final_agree (let '(_, _) := ?x in _) (let '(_, _) := ?x in _) =>
      destruct x as [? ?]; simpl
  | |- final_agree (if ?b then _ else _) (if ?b then _ else _) =>
      destruct b; simpl
  | |- final_agree (Some _) (Some _) => simpl; repeat split; auto
  | |- _ /\ _ => repeat split; auto
  end.

Lemma ossl_sha3_final_equiv md c1 c2 :
  ctx_ok c1 -> ctx_equiv c1 c2 ->
  final_agree (ossl_sha3_final F md c1) (ossl_sha3_final F md c2).
Proof.
  intros Hok (HA & Hb & Hm & Hn & Hp & Ht & Hl & Hpend).
  apply ctx_ok_unfold in Hok as (Hbuf & Hbs & Hnum & Hbk).
  unfold ossl_sha3_final. rewrite <- HA, <- Hb, <- Hm, <- Hn, <- Hp.
  destruct (md_size c1 =? 0); [simpl; auto|].
  assert (Hag : agree (Z.to_nat (bufsz c1)) (buf c1) (buf c2)).
  { split; [exact Hl|]. unfold pending in Hpend. rewrite <- Hn in Hpend.
    exact Hpend. }
  pose proof (pad_block_agree_opt _ _ (bufsz c1) (block_size c1) (pad c1)
                ltac:(lia) ltac:(lia) Hag) as Hpb.
  destruct (pad_block (buf c1) _ _ _) as [r1|],
           (pad_block (buf c2) _ _ _) as [r2|]; simpl; try contradiction;
    [|exact I].
  rewrite <- (memread_agree _ _ _ _ Hpb) by lia.
  repeat step_bind.
Qed.

Lemma ctx_equiv_agree c1 c2 :
  ctx_equiv c1 c2 -> agree (Z.to_nat (bufsz c1)) (buf c1) (buf c2).
Proof.
  intros (HA & Hb & Hm & Hn & Hp & Ht & Hl & Hpend).
  split; [exact Hl|]. unfold pending in Hpend. rewrite <- Hn in Hpend.
  exact Hpend.
Qed.

Lemma s390x_sha3_final_equiv ps md c1 c2 :
  ctx_ok c1 -> ctx_equiv c1 c2 ->
  final_agree (s390x_sha3_final F ps md c1) (s390x_sha3_final F ps md c2).
Proof.
  intros Hok Heq. pose proof (ctx_equiv_agree _ _ Heq) as Hag.
  destruct Heq as (HA & Hb & Hm & Hn & Hp & Ht & Hl & Hpend).
  apply ctx_ok_unfold in Hok as (Hbuf & Hbs & Hnum & Hbk).
  unfold s390x_sha3_final. rewrite <- HA, <- Hm, <- Hn, <- Hp.
  rewrite <- (memread_agree _ _ _ _ Hag) by lia.
  repeat step_bind.
Qed.

Lemma s390x_shake_final_equiv ps md c1 c2 :
  ctx_ok c1 -> ctx_equiv c1 c2 ->
  final_agree (s390x_shake_final F ps md c1) (s390x_shake_final F ps md c2).
Proof.
  intros Hok Heq. pose proof (ctx_equiv_agree _ _ Heq) as Hag.
  destruct Heq as (HA & Hb & Hm & Hn & Hp & Ht & Hl & Hpend).
  apply ctx_ok_unfold in Hok as (Hbuf & Hbs & Hnum & Hbk).
  unfold s390x_shake_final. rewrite <- HA, <- Hm, <- Hn, <- Hp.
  rewrite <- (memread_agree _ _ _ _ Hag) by lia.
  repeat step_bind.
Qed.

Lemma s390x_keccakc_final_equiv ps md c1 c2 padding :
  ctx_ok c1 -> ctx_equiv c1 c2 ->
  final_agree (s390x_keccakc_final F ps md c1 padding)
              (s390x_keccakc_final F ps md c2 padding).
Proof.
  intros Hok Heq. pose proof (ctx_equiv_agree _ _ Heq) as Hag.
  destruct Heq as (HA & Hb & Hm & Hn & Hp & Ht & Hl & Hpend).
  apply ctx_ok_unfold in Hok as (Hbuf & Hbs & Hnum & Hbk).
  unfold s390x_keccakc_final. rewrite <- HA, <- Hb, <- Hm, <- Hn, <- Hp.
  destruct (negb _); [simpl; repeat split; auto|].
  destruct (md_size c1 =? 0); [simpl; repeat split; auto|].
  pose proof (pad_block_agree_opt _ _ (bufsz c1) (block_size c1) padding
                ltac:(lia) ltac:(lia) Hag) as Hpb.
  destruct (pad_block (buf c1) _ _ _) as [r1|],
           (pad_block (buf c2) _ _ _) as [r2|]; simpl; try contradiction;
    [|exact I].
  rewrite <- (memread_agree _ _ _ _ Hpb) by lia.
  repeat step_bind.
Qed.

Lemma call_final_equiv f ps md c1 c2 :
  ctx_ok c1 -> ctx_equiv c1 c2 ->
  final_agree (call_final F f ps md c1) (call_final F f ps md c2).
Proof.
  intros Hok Heq. destruct f as [[| | | |]|]; simpl.
  - apply ossl_sha3_final_equiv; assumption.
  - apply s390x_sha3_final_equiv; assumption.
  - apply s390x_shake_final_equiv; assumption.
  - apply s390x_keccakc_final_equiv; assumption.
  - apply s390x_keccakc_final_equiv; assumption.
  - exact I.
Qed.

Lemma keccak_final_equiv ps c1 c2 out outl outsz :
  ctx_ok c1 -> ctx_equiv c1 c2 ->
  keccak_final_output (keccak_final F ps c1 out outl outsz) =
  keccak_final_output (keccak_final F ps c2 out outl outsz).
Proof.
  intros Hok Heq. unfold keccak_final.
  destruct (negb _); [reflexivity|].
  destruct (outsz >? 0).
  - pose proof (call_final_equiv (final (meth c1)) ps out c1 c2 Hok Heq) as H.
    destruct Heq as (HA & Hb & Hm & Hn & Hp & Ht & Hl & Hpend).
    rewrite <- Ht.
    destruct (call_final F _ ps out c1) as [[[ret1 md1] c1']|],
             (call_final F _ ps out c2) as [[[ret2 md2] c2']|];
      simpl in *; try contradiction; [|reflexivity].
    destruct H as (-> & -> & ->). reflexivity.
  - simpl. destruct Heq as (HA & Hb & Hm & Hn & Hp & Ht & Hl & Hpend).
    rewrite Hm. reflexivity.
Qed.

(** *** The generic final function returns *)

Lemma SHA3_squeeze_loop_total fuel : forall st len r,
  0 < r -> len <= Z.of_nat fuel ->
  exists st' out,
    SHA3_squeeze_loop F fuel st len r = Some (st', out)
    /\ Z.of_nat (length out) <= Z.max len 0.
Proof.
  induction fuel as [|fuel IH]; intros st len r Hr Hf; simpl.
  - destruct (Z.leb_spec len 0); [|lia].
    eexists _, _. split; [reflexivity|]. simpl. lia.
  - destruct (Z.leb_spec len 0).
    { eexists _, _. split; [reflexivity|]. simpl. lia. }
    destruct (Z.leb_spec len r).
    { eexists _, _. split; [reflexivity|]. rewrite length_take. lia. }
    destruct (IH (F st) (len - r) r Hr) as (st' & out & -> & Hl); [lia|].
    simpl. eexists _, _. split; [reflexivity|].
    rewrite length_app, length_take. lia.
Qed.

Lemma pad_block_Some b num bsz p :
  0 <= num < bsz -> bsz <= Z.of_nat (length b) -> bsz < 2 ^ 64 ->
  exists r, pad_block b num bsz p = Some r /\ length r = length b.
Proof.
  intros Hn Hb Hs. unfold pad_block, memset, store.
  rewrite !size_t_sub_small by lia.
  destruct (Z.leb_spec 0 (bsz - num)); [|lia].
  destruct (memcpy b num (replicate (Z.to_nat (bsz - num)) 0)) as [b1|] eqn:E1.
  2:{ rewrite memcpy_Some in E1 by (rewrite ?length_replicate; lia).
      discriminate. }
  pose proof (memcpy_length _ _ _ _ E1) as L1. simpl.
  destruct (memcpy b1 num [p mod 256]) as [b2|] eqn:E2.
  2:{ rewrite memcpy_Some in E2 by (simpl; lia). discriminate. }
  pose proof (memcpy_length _ _ _ _ E2) as L2. simpl.
  unfold load. destruct (Z.leb_spec 0 (bsz - 1)); [|lia].
  destruct (b2 !! Z.to_nat (bsz - 1)) as [v|] eqn:E3.
  2:{ apply lookup_ge_None in E3. lia. }
  simpl.
  destruct (memcpy b2 (bsz - 1) [Z.lor v 128]) as [b3|] eqn:E4.
  2:{ rewrite memcpy_Some in E4 by (simpl; lia). discriminate. }
  pose proof (memcpy_length _ _ _ _ E4) as L4.
  exists b3. split; [reflexivity|congruence].
Qed.

Lemma ossl_sha3_final_returns md c :
  ctx_ok c -> 0 <= md_size c <= Z.of_nat (length md) ->
  exists md' c',
    ossl_sha3_final F md c = Some (1, md', c')
    /\ length md' = length md /\ md_size c' = md_size c.
Proof.
  intros Hok Hmd.
  apply ctx_ok_unfold in Hok as (Hbuf & Hbs & Hnum & Hbk).
  unfold ossl_sha3_final.
  destruct (Z.eqb_spec (md_size c) 0);
    [eexists _, _; repeat split; reflexivity|].
  destruct (pad_block_Some (buf c) (bufsz c) (block_size c) (pad c))
    as (b & -> & Hl); try lia.
  simpl. rewrite memread_Some by lia. simpl.
  rewrite SHA3_absorb_spec by lia. simpl.
  match goal with
  | |- context [SHA3_squeeze F ?s _ _] =>
      destruct (SHA3_squeeze_loop_total (Z.to_nat (md_size c)) s
                  (md_size c) (block_size c)) as (st2 & out & Hsq & Hout);
        try lia
  end.
  unfold SHA3_squeeze. rewrite Hsq. simpl.
  rewrite memcpy_Some by lia. simpl.
  eexists _, _. split; [reflexivity|]. split; [|reflexivity].
  rewrite !length_app, length_drop. simpl. lia.
Qed.

(** With the generic final function bound, [keccak_final] on a well-formed
    context returns, status 1, as soon as the caller's buffer can take
    [md_size] bytes. *)
Lemma keccak_final_generic_returns ps c out outl outsz :
  ctx_ok c -> final (meth c) = Some fn_generic_sha3_final ->
  ossl_prov_is_running ps = true ->
  0 <= md_size c <= Z.of_nat (length out) ->
  exists out' c',
    keccak_final F ps c out outl outsz = Some (1, out', md_size c, c')
    /\ length out' = length out.
Proof.
  intros Hok Hfin Hrun Hmd. unfold keccak_final. rewrite Hrun, Hfin. simpl.
  destruct (outsz >? 0).
  - unfold generic_sha3_final.
    destruct (ossl_sha3_final_returns out c Hok Hmd)
      as (out' & c' & -> & Hl & Hm).
    simpl. rewrite Hm. eexists _, _. split; [reflexivity|exact Hl].
  - simpl. eexists _, _. split; reflexivity.
Qed.

(** *** The claims about the sponge engine *)

(** C5.  For a context with block size [b > 0] and an input of length
    [len], every backend absorb function ([generic_sha3_absorb],
    [s390x_sha3_absorb], [armsha3_sha3_absorb]; for the S390X one the
    function code of the context selects the rate [b]) returns: it absorbs
    the [len / b] blocks of the longest [b]-aligned prefix of the input,
    [take (len - len mod b) inp], into the permutation state, leaves the
    rest of the context alone, and returns the length of the trailing
    partial block, which is [len mod b] and lies in [0, b). *)
Theorem backend_absorb_contract (f : sha3_absorb_fn) (ctx : KECCAK1600_CTX)
    (inp : list Z) :
  0 < block_size ctx ->
  backend_okb (Some f) ctx = true ->
  let b := block_size ctx in
  let len := Z.of_nat (length inp) in
  call_absorb F (Some f) ctx inp =
    Some (set_A ctx (absorb_blocks F (Z.to_nat (len / b)) (A ctx)
                       (take (Z.to_nat (len - len mod b)) inp) (Z.to_nat b)),
          len mod b)
  /\ 0 <= len mod b < b
  /\ len - len mod b = b * (len / b).
Proof.
  intros Hb Hok b len. split; [|split].
  - rewrite call_absorb_spec by assumption. fold b. fold len.
    set (r := Z.to_nat b).
    destruct (div_split (length inp) r ltac:(lia)) as [Hd Hm].
    assert (Hq : Z.to_nat (len / b) = (length inp / r)%nat).
    { unfold len. replace b with (Z.of_nat r) by lia.
      rewrite <- Nat2Z.inj_div. lia. }
    assert (Hk : Z.to_nat (len - len mod b) = (length inp / r * r)%nat).
    { unfold len. rewrite mod_of_nat by lia. fold r. lia. }
    rewrite Hq, Hk, absorb_blocks_take by lia. reflexivity.
  - apply Z.mod_pos_bound. lia.
  - pose proof (Z.div_mod len b ltac:(lia)). lia.
Qed.

(** [keccak_update] returns on every well-formed context. *)
Lemma keccak_update_total c inp :
  ctx_ok c -> Z.of_nat (length inp) < 2 ^ 64 ->
  exists c', keccak_update F c inp = Some (1, c') /\ ctx_ok c'.
Proof.
  intros Hok Hlen.
  destruct (keccak_update_spec c inp Hok Hlen) as (c' & Hrun & Hpost).
  exists c'. split; [exact Hrun|apply Hpost].
Qed.

(** What an absorb call that returns gives back, on any context. *)
Lemma call_absorb_frame f c inp c' rem :
  0 < block_size c ->
  call_absorb F f c inp = Some (c', rem) ->
  block_size c' = block_size c /\ bufsz c' = bufsz c /\ buf c' = buf c
  /\ 0 <= rem < block_size c.
Proof.
  intros Hb. destruct f as [[| |]|]; simpl; try discriminate.
  - unfold generic_sha3_absorb. rewrite SHA3_absorb_spec by lia. simpl.
    intros [= <- <-]. simpl. repeat split; try apply Z.mod_pos_bound; lia.
  - unfold s390x_sha3_absorb.
    destruct (block_size c =? 0); [discriminate|].
    destruct (s390x_kimd _ _ _ _); simpl; [|discriminate].
    intros [= <- <-]. simpl. repeat split; try apply Z.mod_pos_bound; lia.
  - unfold armsha3_sha3_absorb, SHA3_absorb_cext.
    rewrite SHA3_absorb_spec by lia. simpl.
    intros [= <- <-]. simpl. repeat split; try apply Z.mod_pos_bound; lia.
Qed.

Lemma keccak_update_rest_bufsz c inp ret c' :
  0 <= bufsz c < block_size c ->
  keccak_update_rest F c inp = Some (ret, c') ->
  0 <= bufsz c' < block_size c'.
Proof.
  intros Hinv. unfold keccak_update_rest.
  destruct (call_absorb F _ c inp) as [[c1 rem]|] eqn:E; [|discriminate].
  simpl.
  assert (Hpos : 0 < block_size c) by lia.
  destruct (call_absorb_frame _ _ _ _ _ Hpos E) as (Hb & Hn & _ & Hrem).
  destruct (Z.eqb_spec rem 0); simpl.
  - intros [= <- <-]. lia.
  - destruct (memread _ _ _); simpl; [|discriminate].
    destruct (memcpy _ _ _); simpl; [|discriminate].
    intros [= <- <-]. simpl. lia.
Qed.

(** C2.  The staging buffer never holds a full block.  On any context
    with [0 <= bufsz < block_size], whatever [keccak_update] call returns
    leaves [0 <= bufsz < block_size] again.  On a well-formed context
    ([ctx_ok]) the call does return, with status 1, and every whole block
    of the pending-then-new bytes has gone into the permutation state, in
    order, one permutation per block: the state is the old one with those
    blocks absorbed, the staging buffer holds exactly the bytes after the
    last whole block, [bufsz] counts them, and when the pending and the new
    bytes together do not fill a block the state is untouched. *)
Theorem keccak_update_bufsz_invariant (ctx : KECCAK1600_CTX) (inp : list Z) :
  0 <= bufsz ctx < block_size ctx ->
  (forall ret ctx', keccak_update F ctx inp = Some (ret, ctx') ->
                    0 <= bufsz ctx' < block_size ctx')
  /\ (ctx_ok ctx -> Z.of_nat (length inp) < 2 ^ 64 ->
      let r := Z.to_nat (block_size ctx) in
      let data := pending ctx ++ inp in
      let n := (length data / r)%nat in
      exists ctx',
        keccak_update F ctx inp = Some (1, ctx')
        /\ A ctx' = absorb_blocks F n (A ctx) data r
        /\ pending ctx' = drop (n * r) data
        /\ bufsz ctx' = (bufsz ctx + Z.of_nat (length inp)) mod block_size ctx
        /\ (bufsz ctx + Z.of_nat (length inp) < block_size ctx ->
            A ctx' = A ctx)).
Proof.
  intros Hinv. split.
  - intros ret ctx'. unfold keccak_update.
    destruct (Z.of_nat (length inp) =? 0); [intros [= <- <-]; exact Hinv|].
    destruct (Z.eqb_spec (bufsz ctx) 0) as [H0|H0]; simpl.
    { apply keccak_update_rest_bufsz. exact Hinv. }
    assert (Hrem : size_t_sub (block_size ctx) (bufsz ctx)
                   <= block_size ctx - bufsz ctx).
    { unfold size_t_sub, size_t_wrap. apply Z.mod_le; lia. }
    destruct (Z.ltb_spec (Z.of_nat (length inp))
                (size_t_sub (block_size ctx) (bufsz ctx))).
    + destruct (memcpy _ _ _); simpl; [|discriminate].
      intros [= <- <-]. simpl.
      assert (size_t_add (bufsz ctx) (Z.of_nat (length inp))
              <= bufsz ctx + Z.of_nat (length inp)).
      { unfold size_t_add, size_t_wrap. apply Z.mod_le; lia. }
      assert (0 <= size_t_add (bufsz ctx) (Z.of_nat (length inp))).
      { unfold size_t_add, size_t_wrap. apply Z.mod_pos_bound. lia. }
      lia.
    + destruct (memread inp _ _); simpl; [|discriminate].
      destruct (memcpy _ _ _); simpl; [|discriminate].
      destruct (memread _ _ _); simpl; [|discriminate].
      destruct (call_absorb F _ _ _) as [[c1 rem]|] eqn:E; [|discriminate].
      simpl.
      apply call_absorb_frame in E as (Hb & _); [|simpl; lia].
      simpl in Hb.
      apply keccak_update_rest_bufsz. simpl. lia.
  - intros Hok Hlen r data n.
    destruct (keccak_update_spec ctx inp Hok Hlen)
      as (c' & Hrun & Hsp & _ & _ & _ & _ & Hok').
    exists c'. split; [exact Hrun|].
    unfold sponge_of, sponge_step in Hsp. simpl in Hsp.
    injection Hsp as HA Hpend. fold r in HA, Hpend. fold data in HA, Hpend.
    fold n in HA, Hpend.
    split; [exact HA|]. split; [exact Hpend|].
    apply ctx_ok_unfold in Hok as (Hbuf & Hbs & Hnum & _).
    apply ctx_ok_unfold in Hok' as (Hbuf' & Hbs' & Hnum' & _).
    assert (Hd : Z.of_nat (length data) = bufsz ctx + Z.of_nat (length inp)).
    { unfold data. rewrite length_app, Nat2Z.inj_add, pending_length by lia.
      reflexivity. }
    split.
    + rewrite <- (pending_length c') by lia. rewrite Hpend, length_drop.
      rewrite <- Hd.
      destruct (div_split (length data) r ltac:(lia)) as [Hdiv Hmod].
      fold n in Hdiv. rewrite mod_of_nat by lia. fold r. lia.
    + intros Hshort. rewrite HA.
      replace n with 0%nat; [reflexivity|].
      unfold n. symmetry. apply Nat.div_small. lia.
Qed.

(** C1 (amended).  On a well-formed context, feeding an input to
    [keccak_update] chunk by chunk, however it is split, and feeding it in
    one call both return, and leave contexts that agree on the permutation
    state, the buffered count, the buffered bytes (the first [bufsz] bytes
    of the staging buffer) and the configuration; only the stale bytes of
    the staging buffer at and beyond [bufsz] can differ.  [keccak_final]
    then reports the same status, digest and length on both, whatever the
    backend. *)
Theorem keccak_update_chunking (ctx : KECCAK1600_CTX)
    (chunks : list (list Z)) :
  ctx_ok ctx ->
  Z.of_nat (length (concat chunks)) < 2 ^ 64 ->
  exists c1 c2,
    keccak_update_chunks F ctx chunks = Some c1
    /\ keccak_update F ctx (concat chunks) = Some (1, c2)
    /\ ctx_equiv c1 c2
    /\ forall ps out outl outsz,
         keccak_final_output (keccak_final F ps c1 out outl outsz) =
         keccak_final_output (keccak_final F ps c2 out outl outsz).
Proof.
  intros Hok Hlen.
  destruct (keccak_update_chunks_spec chunks ctx Hok Hlen) as (c1 & H1 & P1).
  destruct (keccak_update_spec ctx (concat chunks) Hok Hlen) as (c2 & H2 & P2).
  exists c1, c2. split; [exact H1|]. split; [exact H2|].
  pose proof (update_post_equiv _ _ _ _ P1 P2) as Heq.
  split; [exact Heq|].
  intros. apply keccak_final_equiv; [apply P1|exact Heq].
Qed.

(** C4 (amended).  While the provider is running, [keccak_final] with
    output size 0 succeeds without calling the backend's final function
    (whatever is bound, even nothing): no byte of the output buffer is
    written, the context is unchanged, and [*outl] is set to the context's
    [md_size], the configured digest size. *)
Theorem keccak_final_zero_outsz (ps : prov_state) (ctx : KECCAK1600_CTX)
    (out : list Z) (outl : Z) :
  ossl_prov_is_running ps = true ->
  keccak_final F ps ctx out outl 0 = Some (1, out, md_size ctx, ctx).
Proof. intros Hrun. unfold keccak_final. rewrite Hrun. reflexivity. Qed.

(** C6 (amended).  [shake_set_ctx_params] never looks at what the context
    has absorbed nor at whether a length was configured before: after any
    [keccak_update] that returned, an output-length entry that converts to
    a size is accepted and sets [md_size], nothing else; and a second one
    right after is accepted just the same and overrides the first. *)
Theorem shake_set_ctx_params_any_time (ps : prov_state)
    (ctx ctx' : KECCAK1600_CTX) (inp : list Z) (ret : Z)
    (params params' : list OSSL_PARAM) (p p' : OSSL_PARAM) (v v' : Z) :
  keccak_update F ctx inp = Some (ret, ctx') ->
  OSSL_PARAM_locate_const params OSSL_DIGEST_PARAM_XOFLEN = Some p ->
  OSSL_PARAM_get_size_t p = Some v ->
  OSSL_PARAM_locate_const params' OSSL_DIGEST_PARAM_XOFLEN = Some p' ->
  OSSL_PARAM_get_size_t p' = Some v' ->
  shake_set_ctx_params ps (Some ctx') (Some params)
    = (1, Some (set_md_size ctx' v), ps)
  /\ shake_set_ctx_params ps (Some (set_md_size ctx' v)) (Some params')
    = (1, Some (set_md_size ctx' v'), ps).
Proof.
  intros _ Hp Hv Hp' Hv'. unfold shake_set_ctx_params.
  rewrite Hp, Hv, Hp', Hv'. split; reflexivity.
Qed.

End SpongeFacts.

(** ** Every family starts from a well-formed context *)

Lemma family_newctx_value_ok t caps f : ctx_ok (family_newctx_value t caps f).
Proof.
  unfold ctx_ok.
  destruct f, t; unfold family_newctx_value, SHA3_newctx_value,
    KMAC_newctx_value, KMAC_SET_MD, SHA3_SET_MD; simpl;
    try reflexivity;
    match goal with
    | |- context [S390_SHA3_CAPABLE ?c ?fc] =>
        destruct (S390_SHA3_CAPABLE c fc); reflexivity
    | |- context [armv8_sha3_worth_using ?c] =>
        destruct (armv8_sha3_worth_using c); reflexivity
    end.
Qed.

(** ** Parameters *)

Lemma find_filter {T} (f : T -> bool) (l : list T) :
  find f (List.filter f l) = find f l.
Proof.
  induction l as [|x l IH]; simpl; [reflexivity|].
  destruct (f x) eqn:E; simpl; [rewrite E; reflexivity|exact IH].
Qed.

(** C7 (amended).  [shake_set_ctx_params] on a context and a parameter
    list: the entries whose key is not the output-length key are ignored
    (the call does what it does on the list without them); when no entry
    carries that key the call succeeds and the context is unchanged; when
    the entry that carries it does not convert to a size the call fails,
    raises [PROV_R_FAILED_TO_GET_PARAMETER] and leaves the context, digest
    size included, unchanged.  [keccak_init_params], while the provider is
    running, first resets the context and then treats the list the same
    way: the reset context is returned in both cases, and the reset does
    not touch the digest size.  When the provider is not running
    [keccak_init_params] fails before it reads the list, raising nothing
    and changing nothing. *)
Theorem xof_params_handling (ps : prov_state) (ctx : KECCAK1600_CTX)
    (params : list OSSL_PARAM) :
  let xoflen := fun p => String.eqb (key p) OSSL_DIGEST_PARAM_XOFLEN in
  shake_set_ctx_params ps (Some ctx) (Some params)
    = shake_set_ctx_params ps (Some ctx) (Some (List.filter xoflen params))
  /\ (OSSL_PARAM_locate_const params OSSL_DIGEST_PARAM_XOFLEN = None ->
      shake_set_ctx_params ps (Some ctx) (Some params) = (1, Some ctx, ps)
      /\ (ossl_prov_is_running ps = true ->
          keccak_init_params ps (Some ctx) (Some params)
            = Some (1, Some (ossl_sha3_reset ctx), ps)))
  /\ (forall p,
      OSSL_PARAM_locate_const params OSSL_DIGEST_PARAM_XOFLEN = Some p ->
      OSSL_PARAM_get_size_t p = None ->
      let ps' := ERR_raise ps ERR_LIB_PROV PROV_R_FAILED_TO_GET_PARAMETER in
      shake_set_ctx_params ps (Some ctx) (Some params) = (0, Some ctx, ps')
      /\ (ossl_prov_is_running ps = true ->
          keccak_init_params ps (Some ctx) (Some params)
            = Some (0, Some (ossl_sha3_reset ctx), ps'))
      /\ md_size (ossl_sha3_reset ctx) = md_size ctx)
  /\ (ossl_prov_is_running ps = false ->
      keccak_init_params ps (Some ctx) (Some params) = Some (0, Some ctx, ps)).
Proof.
  intros xoflen. split; [|split; [|split]].
  - unfold shake_set_ctx_params, OSSL_PARAM_locate_const.
    fold xoflen. rewrite find_filter. reflexivity.
  - intros Hnone. unfold keccak_init_params, keccak_init,
      shake_set_ctx_params. rewrite Hnone. split; [reflexivity|].
    intros ->. reflexivity.
  - intros p Hp Hv ps'. unfold keccak_init_params, keccak_init,
      shake_set_ctx_params. rewrite Hp, Hv. split; [reflexivity|].
    split; [|reflexivity]. intros ->. reflexivity.
  - intros Hdown. unfold keccak_init_params, keccak_init.
    rewrite Hdown. reflexivity.
Qed.

(** ** Memory: duplication and destruction *)

Lemma sizeof_KECCAK1600_CTX_eq : sizeof_KECCAK1600_CTX = 416.
Proof. reflexivity. Qed.

Lemma le_bytes_length n : forall v, length (le_bytes n v) = n.
Proof. induction n as [|n IH]; intros; simpl; [reflexivity|]. rewrite IH. reflexivity. Qed.

Lemma state_bytes_length st : length (state_bytes st) = (length st * 8)%nat.
Proof.
  unfold state_bytes. apply flat_map_constant_length. intros. reflexivity.
Qed.

Lemma KECCAK1600_CTX_image_length c :
  ctx_shape c ->
  Z.of_nat (length (KECCAK1600_CTX_image c)) = sizeof_KECCAK1600_CTX.
Proof.
  intros [HA Hb]. unfold KECCAK1600_CTX_image.
  rewrite !length_app, state_bytes_length, !le_bytes_length, length_replicate.
  rewrite HA, sizeof_KECCAK1600_CTX_eq. rewrite sizeof_buf_eq in Hb.
  lia.
Qed.

Lemma mem_alloc_ok m n :
  0 <= n <= avail m ->
  let p := fresh (dom (blocks m)) in
  mem_alloc m n =
    (Some p, mk_mem (<[p := mk_block (replicate (Z.to_nat n) 0) true]> (blocks m))
                    (avail m - n))
  /\ blocks m !! p = None.
Proof.
  intros Hn p. unfold mem_alloc.
  destruct (Z.leb_spec 0 n); [|lia].
  destruct (Z.leb_spec n (avail m)); [|lia].
  split; [reflexivity|]. apply not_elem_of_dom, is_fresh.
Qed.

Lemma mem_alloc_fail m n : avail m < n -> mem_alloc m n = (None, m).
Proof.
  intros Hn. unfold mem_alloc.
  destruct (Z.leb_spec n (avail m)); [lia|]. rewrite andb_false_r. reflexivity.
Qed.

Lemma memcpy_whole dst src :
  length src = length dst -> memcpy dst 0 src = Some src.
Proof.
  intros Hl. rewrite memcpy_Some by lia. simpl.
  rewrite drop_ge by lia. rewrite app_nil_r. reflexivity.
Qed.

Lemma memread_whole src n :
  n = Z.of_nat (length src) -> memread src 0 n = Some src.
Proof.
  intros ->. rewrite memread_Some by lia. simpl.
  rewrite drop_0, Nat2Z.id, take_ge by lia. reflexivity.
Qed.

(** C3 (amended).  For a source context that lives in memory,
    [keccak_dupctx] returns [NULL], and touches nothing, exactly when the
    provider is not running or the allocation fails.  Otherwise it returns
    a fresh block, distinct from the source, that holds the very bytes of
    the source context: permutation state, staging buffer, buffered count,
    block size, digest size, padding byte and both function pointers.  The
    source and every other block are as before, and a later write to
    either of the two blocks leaves the other alone. *)
Theorem keccak_dupctx_copy (ps : prov_state) (m : mem) (src : positive)
    (c : KECCAK1600_CTX) :
  blocks m !! src = Some (mk_block (KECCAK1600_CTX_image c) true) ->
  ctx_shape c ->
  (ossl_prov_is_running ps = false \/ avail m < sizeof_KECCAK1600_CTX ->
   keccak_dupctx ps m (Some src) = Some (None, m))
  /\ (ossl_prov_is_running ps = true -> sizeof_KECCAK1600_CTX <= avail m ->
      exists ret m',
        keccak_dupctx ps m (Some src) = Some (Some ret, m')
        /\ blocks m !! ret = None
        /\ ret <> src
        /\ blocks m' !! ret = Some (mk_block (KECCAK1600_CTX_image c) true)
        /\ blocks m' !! src = Some (mk_block (KECCAK1600_CTX_image c) true)
        /\ (forall q, q <> ret -> blocks m' !! q = blocks m !! q)
        /\ (forall data m'', mem_store m' (Some ret) data = Some m'' ->
                             blocks m'' !! src = blocks m' !! src)
        /\ (forall data m'', mem_store m' (Some src) data = Some m'' ->
                             blocks m'' !! ret = blocks m' !! ret)).
Proof.
  intros Hsrc Hshape.
  pose proof (KECCAK1600_CTX_image_length c Hshape) as Hlen.
  split.
  - intros [Hrun|Havail]; unfold keccak_dupctx.
    + rewrite Hrun. reflexivity.
    + destruct (ossl_prov_is_running ps); [|reflexivity].
      unfold zalloc. rewrite mem_alloc_fail by lia. reflexivity.
  - intros Hrun Havail. unfold keccak_dupctx. rewrite Hrun. unfold zalloc.
    destruct (mem_alloc_ok m (sizeof_KECCAK1600_CTX * 1)) as [Hal Hfresh].
    { rewrite sizeof_KECCAK1600_CTX_eq in *. lia. }
    rewrite Hal. clear Hal.
    set (ret := fresh (dom (blocks m))) in *.
    remember (replicate (Z.to_nat (sizeof_KECCAK1600_CTX * 1)) 0) as zeros
      eqn:Hz.
    assert (Hzl : length zeros = length (KECCAK1600_CTX_image c)).
    { subst zeros. rewrite length_replicate. lia. }
    clear Hz.
    assert (Hne : ret <> src) by congruence.
    unfold mem_load. simpl.
    rewrite (lookup_insert_ne _ ret src) by exact Hne. rewrite Hsrc. simpl.
    rewrite memread_whole by lia. simpl.
    unfold mem_store. simpl. rewrite lookup_insert_eq. simpl.
    rewrite memcpy_whole by congruence.
    simpl. eexists _, _. split; [reflexivity|]. simpl.
    rewrite insert_insert_eq.
    repeat split.
    + exact Hfresh.
    + exact Hne.
    + apply lookup_insert_eq.
    + rewrite lookup_insert_ne by exact Hne. exact Hsrc.
    + intros q Hq. apply lookup_insert_ne. congruence.
    + intros data m''. rewrite lookup_insert_eq. simpl.
      destruct (memcpy _ 0 data); simpl; [|discriminate].
      intros [= <-]. simpl. apply lookup_insert_ne. exact Hne.
    + intros data m''. rewrite lookup_insert_ne by exact Hne.
      rewrite Hsrc. simpl.
      destruct (memcpy _ 0 data); simpl; [|discriminate].
      intros [= <-]. simpl. apply lookup_insert_ne. congruence.
Qed.

Lemma memset_whole bs n :
  n = Z.of_nat (length bs) ->
  memset bs 0 0 n = Some (replicate (length bs) 0).
Proof.
  intros ->. unfold memset.
  destruct (Z.leb_spec 0 (Z.of_nat (length bs))); [|lia].
  rewrite Nat2Z.id. apply memcpy_whole. apply length_replicate.
Qed.

Lemma zhard_free_wipes m p b :
  blocks m !! p = Some b -> live b = true ->
  zhard_free m (Some p) =
    Some (mk_mem (<[p := mk_block (replicate (length (bytes b)) 0) false]>
                    (blocks m))
                 (avail m + Z.of_nat (length (bytes b)))).
Proof.
  intros Hb Hl. unfold zhard_free, OPENSSL_cleanse, mem_free.
  rewrite Hb. simpl. rewrite Hl.
  rewrite memset_whole by reflexivity. simpl.
  rewrite lookup_insert_eq. simpl.
  rewrite insert_insert_eq, length_replicate. reflexivity.
Qed.

(** C8.  Destruction wipes before it releases.  For every context held
    in a live block, [keccak_freectx] leaves the block released and all
    zeros, over the whole struct: nothing of the permutation state or of
    the staging buffer remains in the freed memory, and no other block is
    touched.  [CRYPTO_secure_clear_free] on a live block leaves it released
    and all zeros too, whatever length it is given. *)
Theorem destroy_wipes_before_release (m : mem) (p : positive) (b : block) :
  blocks m !! p = Some b -> live b = true ->
  (forall c, ctx_shape c -> bytes b = KECCAK1600_CTX_image c ->
   exists m', keccak_freectx m (Some p) = Some m'
     /\ blocks m' !! p
        = Some (mk_block (replicate (Z.to_nat sizeof_KECCAK1600_CTX) 0) false)
     /\ forall q, q <> p -> blocks m' !! q = blocks m !! q)
  /\ (forall num file line,
      exists m', CRYPTO_secure_clear_free m (Some p) num file line = Some m'
        /\ blocks m' !! p
           = Some (mk_block (replicate (length (bytes b)) 0) false)
        /\ forall q, q <> p -> blocks m' !! q = blocks m !! q).
Proof.
  intros Hb Hl. split.
  - intros c Hshape Himg.
    pose proof (KECCAK1600_CTX_image_length c Hshape) as Hsz.
    rewrite <- Himg in Hsz.
    replace (Z.to_nat sizeof_KECCAK1600_CTX) with (length (bytes b)) by lia.
    unfold keccak_freectx, OPENSSL_clear_free.
    destruct (Z.eqb_spec sizeof_KECCAK1600_CTX 0) as [E|_];
      [rewrite sizeof_KECCAK1600_CTX_eq in E; lia|].
    unfold OPENSSL_cleanse, mem_free. rewrite Hb. simpl. rewrite Hl.
    rewrite memset_whole by lia. simpl.
    rewrite lookup_insert_eq. simpl. rewrite insert_insert_eq.
    eexists. split; [reflexivity|]. simpl. split.
    + apply lookup_insert_eq.
    + intros q Hq. apply lookup_insert_ne. congruence.
  - intros num file line. unfold CRYPTO_secure_clear_free.
    rewrite (zhard_free_wipes m p b Hb Hl).
    eexists. split; [reflexivity|]. simpl. split.
    + apply lookup_insert_eq.
    + intros q Hq. apply lookup_insert_ne. congruence.
Qed.

(** C10.  [CRYPTO_secure_malloc] and [CRYPTO_secure_zalloc] are the same
    function of the memory and the size (file and line are ignored), and
    what either returns is zeroed; [CRYPTO_secure_clear_free] is
    [CRYPTO_secure_free]: its length argument is ignored and the wrapper
    wipes nothing by itself. *)
Theorem secure_wrappers_coincide (m : mem) (num : Z) (ptr : option positive)
    (len : Z) (file file' : string) (line line' : Z) :
  CRYPTO_secure_malloc m num file line = CRYPTO_secure_zalloc m num file' line'
  /\ (forall p m', CRYPTO_secure_malloc m num file line = (Some p, m') ->
        blocks m' !! p = Some (mk_block (replicate (Z.to_nat num) 0) true))
  /\ CRYPTO_secure_clear_free m ptr len file line
     = CRYPTO_secure_free m ptr file' line'
  /\ CRYPTO_secure_clear_free m ptr len file line = zhard_free m ptr.
Proof.
  split; [reflexivity|]. split; [|split; reflexivity].
  intros p m'. unfold CRYPTO_secure_malloc, zhard_alloc, mem_alloc.
  destruct (_ && _); [|discriminate].
  intros [= <- <-]. simpl. apply lookup_insert_eq.
Qed.

(** ** Key exchange *)

(** Both entry points share one admission path; so do the two proofs. *)
Ltac ecx_success_path w vecxctx vkey :=
  unfold ecx_fail;
  destruct (negb (ossl_prov_is_running (prov w))); [discriminate|];
  destruct vecxctx as [ecxctx|], vkey as [key|]; try discriminate;
  destruct (ctxs w !! ecxctx) as [c|] eqn:Hc; simpl; [|discriminate];
  destruct (keys w !! key) as [k|] eqn:Hk; simpl; [|discriminate];
  destruct (Z.eqb_spec (ECX_KEY.keylen k) (PROV_ECX_CTX.keylen c)) as [He|];
    simpl; [|discriminate];
  destruct (ossl_ecx_key_up_ref (keys w) key) as [[ok ks]|] eqn:Hup;
    simpl; [|discriminate];
  destruct (Z.eqb_spec ok 0); [discriminate|];
  intros _; exists ecxctx, key, c, k, ks; repeat split; auto;
  revert Hup; unfold ossl_ecx_key_up_ref; rewrite Hk; simpl;
  destruct (_ >? 1); intros [= <- <-]; [reflexivity|contradiction].

Lemma ecx_init_success w vecxctx vkey params w' :
  ecx_init w vecxctx vkey params = Some (1, w') ->
  exists ecxctx key c k ks,
    vecxctx = Some ecxctx /\ vkey = Some key
    /\ ctxs w !! ecxctx = Some c /\ keys w !! key = Some k
    /\ ECX_KEY.keylen k = PROV_ECX_CTX.keylen c
    /\ ossl_ecx_key_up_ref (keys w) key = Some (1, ks).
Proof. unfold ecx_init. ecx_success_path w vecxctx vkey. Qed.

Lemma ecx_set_peer_success w vecxctx vkey w' :
  ecx_set_peer w vecxctx vkey = Some (1, w') ->
  exists ecxctx key c k ks,
    vecxctx = Some ecxctx /\ vkey = Some key
    /\ ctxs w !! ecxctx = Some c /\ keys w !! key = Some k
    /\ ECX_KEY.keylen k = PROV_ECX_CTX.keylen c
    /\ ossl_ecx_key_up_ref (keys w) key = Some (1, ks).
Proof. unfold ecx_set_peer. ecx_success_path w vecxctx vkey. Qed.

(** C9.  A key whose length differs from the length the exchange context
    was made for is refused by [ecx_init] and by [ecx_set_peer] at once:
    they return 0 (raising [ERR_R_INTERNAL_ERROR] when the provider is
    running), no reference is taken, and the context, with its key and its
    peer key, and every key are as before.  Conversely, either function
    returns 1 only for a context and a key of equal lengths on which
    [ossl_ecx_key_up_ref] succeeded. *)
Theorem ecx_key_length_checked (w : ecx_world) (vecxctx vkey : option positive)
    (params : option (list OSSL_PARAM)) :
  (forall ecxctx key c k,
     vecxctx = Some ecxctx -> vkey = Some key ->
     ctxs w !! ecxctx = Some c -> keys w !! key = Some k ->
     ECX_KEY.keylen k <> PROV_ECX_CTX.keylen c ->
     let w' :=
       if ossl_prov_is_running (prov w)
       then ecx_set_prov w (ERR_raise (prov w) ERR_LIB_PROV ERR_R_INTERNAL_ERROR)
       else w in
     ecx_init w vecxctx vkey params = Some (0, w')
     /\ ecx_set_peer w vecxctx vkey = Some (0, w')
     /\ ctxs w' = ctxs w /\ keys w' = keys w
     /\ ctxs w' !! ecxctx = Some c)
  /\ (forall w',
        ecx_init w vecxctx vkey params = Some (1, w')
        \/ ecx_set_peer w vecxctx vkey = Some (1, w') ->
        exists ecxctx key c k ks,
          vecxctx = Some ecxctx /\ vkey = Some key
          /\ ctxs w !! ecxctx = Some c /\ keys w !! key = Some k
          /\ ECX_KEY.keylen k = PROV_ECX_CTX.keylen c
          /\ ossl_ecx_key_up_ref (keys w) key = Some (1, ks)).
Proof.
  split.
  - intros ecxctx key c k -> -> Hc Hk Hne w'.
    unfold ecx_init, ecx_set_peer, ecx_fail. subst w'.
    destruct (ossl_prov_is_running (prov w)); simpl.
    + rewrite Hc, Hk. simpl.
      destruct (Z.eqb_spec (ECX_KEY.keylen k) (PROV_ECX_CTX.keylen c));
        [contradiction|].
      simpl. repeat split; auto.
    + repeat split; auto.
  - intros w' [H|H].
    + eapply ecx_init_success; eauto.
    + eapply ecx_set_peer_success; eauto.
Qed.

(** ** The digest over its whole lifecycle *)

Lemma pad_block_length b num bsz p r :
  pad_block b num bsz p = Some r -> length r = length b.
Proof.
  unfold pad_block, memset, store.
  destruct (0 <=? size_t_sub bsz num); [|discriminate].
  destruct (memcpy b num _) as [b1|] eqn:E1; simpl; [|discriminate].
  destruct (memcpy b1 num _) as [b2|] eqn:E2; simpl; [|discriminate].
  destruct (load b2 _) as [v|]; simpl; [|discriminate].
  intros E3.
  apply memcpy_length in E1, E2, E3. congruence.
Qed.

Section LifecycleFacts.

Variable F : list Z -> list Z.

(** An absorb function writes the permutation state and nothing else. *)
Lemma call_absorb_only_A f c inp c' rem :
  call_absorb F f c inp = Some (c', rem) -> c' = set_A c (A c').
Proof.
  destruct f as [[| |]|]; simpl; try discriminate.
  - unfold generic_sha3_absorb.
    destruct (SHA3_absorb F _ _ _) as [[st r]|]; simpl; [|discriminate].
    intros [= <- <-]. reflexivity.
  - unfold s390x_sha3_absorb.
    destruct (block_size c =? 0); [discriminate|].
    destruct (s390x_kimd F _ _ _) as [st|]; simpl; [|discriminate].
    intros [= <- <-]. reflexivity.
  - unfold armsha3_sha3_absorb.
    destruct (SHA3_absorb_cext F _ _ _) as [[st r]|]; simpl; [|discriminate].
    intros [= <- <-]. reflexivity.
Qed.

Lemma keccak_update_rest_frame c inp ret c' :
  keccak_update_rest F c inp = Some (ret, c') ->
  ret = 1 /\ ctx_config c' = ctx_config c
  /\ length (buf c') = length (buf c).
Proof.
  unfold keccak_update_rest.
  destruct (call_absorb F _ c inp) as [[c1 rem]|] eqn:E; simpl; [|discriminate].
  apply call_absorb_only_A in E. rewrite E.
  destruct (negb _).
  - destruct (memread _ _ _); simpl; [|discriminate].
    destruct (memcpy _ _ _) as [b|] eqn:Eb; simpl; [|discriminate].
    intros [= <- <-]. apply memcpy_length in Eb. simpl in *. auto.
  - intros [= <- <-]. auto.
Qed.

Lemma keccak_update_frame c inp ret c' :
  keccak_update F c inp = Some (ret, c') ->
  ret = 1 /\ ctx_config c' = ctx_config c
  /\ length (buf c') = length (buf c).
Proof.
  unfold keccak_update.
  destruct (_ =? 0); [intros [= <- <-]; auto|].
  destruct (negb _); [|apply keccak_update_rest_frame].
  destruct (_ <? _).
  - destruct (memcpy _ _ _) as [b|] eqn:Eb; simpl; [|discriminate].
    intros [= <- <-]. apply memcpy_length in Eb. simpl. auto.
  - destruct (memread inp _ _); simpl; [|discriminate].
    destruct (memcpy _ _ _) as [b|] eqn:Eb; simpl; [|discriminate].
    destruct (memread _ _ _); simpl; [|discriminate].
    destruct (call_absorb F _ _ _) as [[c1 rem]|] eqn:E; simpl; [|discriminate].
    apply call_absorb_only_A in E. intros Hrest.
    apply keccak_update_rest_frame in Hrest as (-> & Hcfg & Hlen).
    rewrite E in Hcfg, Hlen. apply memcpy_length in Eb. simpl in *.
    split; [reflexivity|]. split; [exact Hcfg|congruence].
Qed.

Lemma call_final_frame f ps md c ret md' c' :
  call_final F f ps md c = Some (ret, md', c') ->
  (ret = 0 \/ ret = 1) /\ ctx_config c' = ctx_config c
  /\ bufsz c' = bufsz c /\ length (buf c') = length (buf c)
  /\ length md' = length md.
Proof.
  assert (Hk : forall padding,
            s390x_keccakc_final F ps md c padding = Some (ret, md', c') ->
            (ret = 0 \/ ret = 1) /\ ctx_config c' = ctx_config c
            /\ bufsz c' = bufsz c /\ length (buf c') = length (buf c)
            /\ length md' = length md).
  { intros padding. unfold s390x_keccakc_final.
    destruct (negb _); [intros [= <- <- <-]; auto 6|].
    destruct (md_size c =? 0); [intros [= <- <- <-]; auto 6|].
    destruct (pad_block _ _ _ _) as [b|] eqn:Eb; simpl; [|discriminate].
    apply pad_block_length in Eb.
    destruct (memread b _ _); simpl; [|discriminate].
    destruct (s390x_kimd F _ _ _); simpl; [|discriminate].
    destruct (memread _ _ _); simpl; [|discriminate].
    destruct (memcpy md _ _) as [md1|] eqn:E1; simpl; [|discriminate].
    apply memcpy_length in E1.
    destruct (_ >? 0).
    - destruct (s390x_klmd F _ _ _ _) as [[st2 out]|]; simpl; [|discriminate].
      destruct (memcpy md1 _ _) as [md2|] eqn:E2; simpl; [|discriminate].
      apply memcpy_length in E2.
      intros [= <- <- <-]. simpl. repeat split; auto; congruence.
    - intros [= <- <- <-]. simpl. repeat split; auto. }
  destruct f as [[| | | |]|]; simpl; try discriminate; try apply Hk.
  - unfold generic_sha3_final, ossl_sha3_final.
    destruct (md_size c =? 0); [intros [= <- <- <-]; auto 6|].
    destruct (pad_block _ _ _ _) as [b|] eqn:Eb; simpl; [|discriminate].
    apply pad_block_length in Eb.
    destruct (memread b _ _); simpl; [|discriminate].
    destruct (SHA3_absorb F _ _ _) as [[st1 r]|]; simpl; [|discriminate].
    destruct (SHA3_squeeze F _ _ _) as [[st2 out]|]; simpl; [|discriminate].
    destruct (memcpy md _ _) as [md1|] eqn:E1; simpl; [|discriminate].
    apply memcpy_length in E1.
    intros [= <- <- <-]. simpl. repeat split; auto.
  - unfold s390x_sha3_final.
    destruct (negb _); [intros [= <- <- <-]; auto 6|].
    destruct (memread _ _ _); simpl; [|discriminate].
    destruct (s390x_klmd F _ _ _ _) as [[st out]|]; simpl; [|discriminate].
    destruct (memread _ _ _); simpl; [|discriminate].
    destruct (memcpy md _ _) as [md1|] eqn:E1; simpl; [|discriminate].
    apply memcpy_length in E1.
    intros [= <- <- <-]. simpl. repeat split; auto.
  - unfold s390x_shake_final.
    destruct (negb _); [intros [= <- <- <-]; auto 6|].
    destruct (memread _ _ _); simpl; [|discriminate].
    destruct (s390x_klmd F _ _ _ _) as [[st out]|]; simpl; [|discriminate].
    destruct (memcpy md _ _) as [md1|] eqn:E1; simpl; [|discriminate].
    apply memcpy_length in E1.
    intros [= <- <- <-]. simpl. repeat split; auto.
Qed.

Lemma keccak_final_frame ps c out outl outsz ret out' outl' c' :
  keccak_final F ps c out outl outsz = Some (ret, out', outl', c') ->
  (ret = 0 \/ ret = 1) /\ ctx_config c' = ctx_config c
  /\ bufsz c' = bufsz c /\ length (buf c') = length (buf c)
  /\ length out' = length out
  /\ (outl' = outl \/ outl' = md_size c).
Proof.
  unfold keccak_final.
  destruct (negb _); [intros [= <- <- <- <-]; auto 8|].
  destruct (outsz >? 0).
  - destruct (call_final F _ ps out c) as [[[r o] c1]|] eqn:E; simpl;
      [|discriminate].
    apply call_final_frame in E as (Hr & Hcfg & Hn & Hl & Ho).
    intros [= <- <- <- <-]. repeat split; auto.
    right. unfold ctx_config in Hcfg. congruence.
  - simpl. intros [= <- <- <- <-]. auto 8.
Qed.

(** X1.  The configuration of a context never changes behind the
    caller's back.  On a well-formed context ([ctx_ok], so that every copy
    into the staging buffer stays inside it) and with any backend bound,
    [keccak_update] returns 1 on every input whose length fits [size_t],
    and after it, as after whatever [keccak_final] returns, the block
    size, the digest size, the padding byte and the method pair are as
    before and the staging buffer has kept its length; [keccak_final]
    returns nothing but 0 or 1, leaves [bufsz] alone and does not resize
    the caller's buffer.  On any context, [keccak_init] keeps
    the configuration and the staging buffer, and [shake_set_ctx_params]
    changes at most the digest size. *)
Theorem keccak_configuration_is_kept (ps : prov_state) (c : KECCAK1600_CTX) :
  (forall params ret c',
     keccak_init ps (Some c) params = Some (ret, Some c') ->
     ctx_config c' = ctx_config c /\ buf c' = buf c)
  /\ (ctx_ok c ->
      forall inp, Z.of_nat (length inp) < 2 ^ 64 ->
        exists c',
          keccak_update F c inp = Some (1, c')
          /\ ctx_config c' = ctx_config c
          /\ length (buf c') = length (buf c))
  /\ (ctx_ok c ->
      forall out outl outsz ret out' outl' c',
        keccak_final F ps c out outl outsz = Some (ret, out', outl', c') ->
        (ret = 0 \/ ret = 1) /\ ctx_config c' = ctx_config c
        /\ bufsz c' = bufsz c /\ length (buf c') = length (buf c)
        /\ length out' = length out)
  /\ (forall params ret c' ps',
        shake_set_ctx_params ps (Some c) params = (ret, Some c', ps') ->
        c' = set_md_size c (md_size c')).
Proof.
  split; [|split; [|split]].
  - intros params ret c'. unfold keccak_init.
    destruct (negb _); intros [= <- <-]; split; reflexivity.
  - intros Hok inp Hlen.
    destruct (keccak_update_total F c inp Hok Hlen) as (c' & Hrun & _).
    exists c'. split; [exact Hrun|].
    apply keccak_update_frame in Hrun as (_ & Hcfg & Hl). auto.
  - intros _ out outl outsz ret out' outl' c' H.
    apply keccak_final_frame in H as (? & ? & ? & ? & ? & _). auto.
  - intros params ret c' ps'. unfold shake_set_ctx_params.
    destruct params as [params|]; [|intros [= <- <- <-]; destruct c; reflexivity].
    destruct (OSSL_PARAM_locate_const _ _) as [p|];
      [|intros [= <- <- <-]; destruct c; reflexivity].
    destruct (OSSL_PARAM_get_size_t p);
      intros [= <- <- <-]; destruct c; reflexivity.
Qed.

End LifecycleFacts.


Lemma ctx_ok_frame c c' :
  ctx_ok c -> ctx_config c' = ctx_config c ->
  length (buf c') = length (buf c) -> 0 <= bufsz c' < block_size c' ->
  ctx_ok c'.
Proof.
  intros Hok Hcfg Hlen Hn. unfold ctx_config in Hcfg.
  injection Hcfg as Hb Hm Hp Ht.
  apply ctx_ok_unfold in Hok as (Hbuf & Hbs & _ & Hbk).
  apply ctx_ok_unfold. rewrite Hlen, Hb, Ht.
  rewrite (backend_okb_frame _ c c') by assumption.
  repeat split; try assumption; try lia.
Qed.

Lemma ossl_sha3_reset_ok c : ctx_ok c -> ctx_ok (ossl_sha3_reset c).
Proof.
  intros Hok. apply (ctx_ok_frame c); [exact Hok|reflexivity|reflexivity|].
  apply ctx_ok_unfold in Hok. simpl. lia.
Qed.

Section StreamFacts.

Variable F : list Z -> list Z.

(** X2.  A well-formed context stays well formed through its whole life.
    From a context that is well formed ([ctx_ok]: a staging buffer of the
    declared size, a positive block size that fits it, fewer than
    [block_size] bytes buffered, an absorb function bound that matches the
    block size), [keccak_init], [keccak_final] with any backend and
    [shake_set_ctx_params] leave a well-formed context whenever they
    return, and [keccak_update] returns 1 and leaves one on every input
    whose length fits [size_t]: no call sequence can make a later
    [keccak_update] overrun the staging buffer. *)
Theorem keccak_context_stays_well_formed (ps : prov_state)
    (c : KECCAK1600_CTX) :
  ctx_ok c ->
  (forall params ret c',
     keccak_init ps (Some c) params = Some (ret, Some c') -> ctx_ok c')
  /\ (forall inp, Z.of_nat (length inp) < 2 ^ 64 ->
        exists c', keccak_update F c inp = Some (1, c') /\ ctx_ok c')
  /\ (forall out outl outsz ret out' outl' c',
        keccak_final F ps c out outl outsz = Some (ret, out', outl', c') ->
        ctx_ok c')
  /\ (forall params ret c' ps',
        shake_set_ctx_params ps (Some c) params = (ret, Some c', ps') ->
        ctx_ok c').
Proof.
  intros Hok. pose proof Hok as Hok'.
  apply ctx_ok_unfold in Hok' as (Hbuf & Hbs & Hnum & Hbk).
  split; [|split; [|split]].
  - intros params ret c'. unfold keccak_init.
    destruct (negb _); intros [= <- <-];
      [exact Hok|apply ossl_sha3_reset_ok, Hok].
  - intros inp Hlen. apply keccak_update_total; assumption.
  - intros out outl outsz ret out' outl' c' H.
    apply keccak_final_frame in H as (_ & Hcfg & Hn & Hl & _).
    apply (ctx_ok_frame c); auto.
    unfold ctx_config in Hcfg. injection Hcfg as Hb _ _ _. lia.
  - intros params ret c' ps' H.
    assert (Hc : c' = set_md_size c (md_size c')).
    { revert H. unfold shake_set_ctx_params.
      destruct params as [params|];
        [|intros [= <- <- <-]; destruct c; reflexivity].
      destruct (OSSL_PARAM_locate_const _ _) as [p|];
        [|intros [= <- <- <-]; destruct c; reflexivity].
      destruct (OSSL_PARAM_get_size_t p);
        intros [= <- <- <-]; destruct c; reflexivity. }
    rewrite Hc. apply ctx_ok_unfold. simpl. auto.
Qed.

(** X3.  What a stream of [keccak_update] calls computes.  On a
    well-formed context that holds [bufsz] pending bytes, after any
    sequence of chunks the permutation state is the old one with every
    whole block of pending-then-new bytes absorbed, in order, one
    permutation per block; the staging buffer holds exactly the bytes after
    the last whole block; and [bufsz] is the number of those bytes,
    [(bufsz + len) mod block_size].  This holds for every backend. *)
Theorem keccak_update_absorbs_stream (c : KECCAK1600_CTX)
    (chunks : list (list Z)) :
  ctx_ok c -> Z.of_nat (length (concat chunks)) < 2 ^ 64 ->
  let r := Z.to_nat (block_size c) in
  let data := pending c ++ concat chunks in
  let n := (length data / r)%nat in
  exists c',
    keccak_update_chunks F c chunks = Some c'
    /\ A c' = absorb_blocks F n (A c) data r
    /\ pending c' = drop (n * r) data
    /\ bufsz c'
       = (bufsz c + Z.of_nat (length (concat chunks))) mod block_size c.
Proof.
  intros Hok Hlen r data n.
  destruct (keccak_update_chunks_spec F chunks c Hok Hlen)
    as (c' & Hrun & Hsp & Hb & _ & _ & _ & Hok').
  exists c'. split; [exact Hrun|].
  unfold sponge_of, sponge_step in Hsp. simpl in Hsp.
  injection Hsp as HA Hpend. fold r in HA, Hpend. fold data in HA, Hpend.
  fold n in HA, Hpend.
  split; [exact HA|]. split; [exact Hpend|].
  apply ctx_ok_unfold in Hok as (Hbuf & Hbs & Hnum & _).
  apply ctx_ok_unfold in Hok' as (Hbuf' & Hbs' & Hnum' & _).
  rewrite <- (pending_length c') by lia. rewrite Hpend, length_drop.
  assert (Hd : Z.of_nat (length data)
               = bufsz c + Z.of_nat (length (concat chunks))).
  { unfold data. rewrite length_app, Nat2Z.inj_add, pending_length by lia.
    reflexivity. }
  rewrite <- Hd.
  destruct (div_split (length data) r ltac:(lia)) as [Hdiv Hmod]. fold n in Hdiv.
  rewrite mod_of_nat by lia. fold r. lia.
Qed.

(** Two well-formed contexts with the same abstract state and the same
    configuration are taken by [keccak_update] to two contexts that differ
    at most in the stale bytes of their staging buffers. *)
Lemma update_post_from_equal_states c1 c2 inp d1 d2 :
  update_post F c1 inp d1 -> update_post F c2 inp d2 ->
  sponge_of c1 = sponge_of c2 -> ctx_config c1 = ctx_config c2 ->
  ctx_equiv d1 d2.
Proof.
  intros (Hs1 & Hb1 & Hm1 & Hp1 & Ht1 & Hok1)
         (Hs2 & Hb2 & Hm2 & Hp2 & Ht2 & Hok2) Hsp Hcfg.
  unfold ctx_config in Hcfg. injection Hcfg as Hb Hm Hp Ht.
  apply ctx_ok_unfold in Hok1 as (Hl1 & Hbs1 & Hn1 & _).
  apply ctx_ok_unfold in Hok2 as (Hl2 & Hbs2 & Hn2 & _).
  rewrite Hsp, Hb, <- Hs2 in Hs1. unfold sponge_of in Hs1.
  injection Hs1 as HA Hpend.
  unfold ctx_equiv. repeat split; try congruence.
  rewrite <- (pending_length d1), <- (pending_length d2) by lia.
  rewrite Hpend. reflexivity.
Qed.

(** X4.  [keccak_init] makes a context as good as new.  On a running
    provider, take two well-formed contexts of one configuration, in
    whatever state their earlier use left them (one of them may be fresh
    from [newctx]): after [keccak_init] on each, the same input through
    [keccak_update] leaves them with the same permutation state and the
    same buffered bytes, and [keccak_final] reports the same status, digest
    and length on both.  Nothing absorbed or squeezed before the
    [keccak_init] shows. *)
Theorem keccak_init_makes_context_reusable (ps : prov_state)
    (c1 c2 : KECCAK1600_CTX) (params1 params2 : option (list OSSL_PARAM))
    (inp : list Z) :
  ossl_prov_is_running ps = true ->
  ctx_ok c1 -> ctx_ok c2 -> ctx_config c1 = ctx_config c2 ->
  Z.of_nat (length inp) < 2 ^ 64 ->
  exists i1 i2 d1 d2,
    keccak_init ps (Some c1) params1 = Some (1, Some i1)
    /\ keccak_init ps (Some c2) params2 = Some (1, Some i2)
    /\ keccak_update F i1 inp = Some (1, d1)
    /\ keccak_update F i2 inp = Some (1, d2)
    /\ ctx_equiv d1 d2
    /\ forall ps' out outl outsz,
         keccak_final_output (keccak_final F ps' d1 out outl outsz)
         = keccak_final_output (keccak_final F ps' d2 out outl outsz).
Proof.
  intros Hrun Hok1 Hok2 Hcfg Hlen.
  pose proof (ossl_sha3_reset_ok _ Hok1) as Hr1.
  pose proof (ossl_sha3_reset_ok _ Hok2) as Hr2.
  destruct (keccak_update_spec F _ inp Hr1 Hlen) as (d1 & Hu1 & P1).
  destruct (keccak_update_spec F _ inp Hr2 Hlen) as (d2 & Hu2 & P2).
  exists (ossl_sha3_reset c1), (ossl_sha3_reset c2), d1, d2.
  unfold keccak_init. rewrite Hrun. simpl.
  split; [reflexivity|]. split; [reflexivity|].
  split; [exact Hu1|]. split; [exact Hu2|].
  assert (Heq : ctx_equiv d1 d2).
  { apply (update_post_from_equal_states _ _ _ _ _ P1 P2); [reflexivity|].
    unfold ctx_config in *. simpl. exact Hcfg. }
  split; [exact Heq|].
  intros. apply keccak_final_equiv; [apply P1|exact Heq].
Qed.

End StreamFacts.


(** ** What [keccak_final] writes *)

Lemma xor_block_length st : forall blk, length (xor_block st blk) = length st.
Proof. induction st as [|a st IH]; intros; simpl; [|rewrite IH]; reflexivity. Qed.

Section FinalFacts.

Variable F : list Z -> list Z.

(** The permutation takes 25 lanes to 25 lanes. *)
Hypothesis F_lanes : forall st, length st = 25%nat -> length (F st) = 25%nat.

Lemma squeeze_block_length st r :
  length st = 25%nat -> 0 <= r <= 200 ->
  length (take (Z.to_nat r) (state_bytes st)) = Z.to_nat r.
Proof.
  intros Hst Hr. rewrite length_take, state_bytes_length, Hst. lia.
Qed.

Lemma SHA3_squeeze_loop_length fuel : forall st len r st' out,
  length st = 25%nat -> 0 < r <= 200 ->
  SHA3_squeeze_loop F fuel st len r = Some (st', out) ->
  length out = Z.to_nat len.
Proof.
  induction fuel as [|fuel IH]; intros st len r st' out Hst Hr; simpl.
  - destruct (Z.leb_spec len 0); [intros [= <- <-]; simpl; lia|].
    destruct (Z.leb_spec len r); [|discriminate].
    intros [= <- <-]. apply squeeze_block_length; [exact Hst|lia].
  - destruct (Z.leb_spec len 0); [intros [= <- <-]; simpl; lia|].
    destruct (Z.leb_spec len r).
    { intros [= <- <-]. apply squeeze_block_length; [exact Hst|lia]. }
    destruct (SHA3_squeeze_loop F fuel (F st) (len - r) r) as [[s o]|] eqn:E;
      simpl; [|discriminate].
    intros [= <- <-].
    apply IH in E; [|apply F_lanes, Hst|exact Hr].
    rewrite length_app, squeeze_block_length, E by (try exact Hst; lia). lia.
Qed.

(** A shorter squeeze is the head of a longer one. *)
Lemma SHA3_squeeze_loop_prefix fuel1 : forall fuel2 st len1 len2 r s1 o1 s2 o2,
  length st = 25%nat -> 0 < r <= 200 -> len1 <= len2 ->
  SHA3_squeeze_loop F fuel1 st len1 r = Some (s1, o1) ->
  SHA3_squeeze_loop F fuel2 st len2 r = Some (s2, o2) ->
  o1 = take (Z.to_nat len1) o2.
Proof.
  induction fuel1 as [|fuel1 IH];
    intros fuel2 st len1 len2 r s1 o1 s2 o2 Hst Hr Hle H1 H2.
  - simpl in H1.
    destruct (Z.leb_spec len1 0).
    { injection H1 as <- <-. replace (Z.to_nat len1) with 0%nat by lia.
      reflexivity. }
    destruct (Z.leb_spec len1 r); [|discriminate].
    injection H1 as <- <-.
    destruct fuel2 as [|fuel2]; simpl in H2;
      (destruct (Z.leb_spec len2 0); [lia|]);
      destruct (Z.leb_spec len2 r).
    + injection H2 as <- <-. rewrite take_take. f_equal. lia.
    + discriminate.
    + injection H2 as <- <-. rewrite take_take. f_equal. lia.
    + destruct (SHA3_squeeze_loop F fuel2 _ _ _) as [[s o]|]; simpl in H2;
        [|discriminate].
      injection H2 as <- <-.
      rewrite take_app_le
        by (rewrite squeeze_block_length by (try exact Hst; lia); lia).
      rewrite take_take. f_equal. lia.
  - simpl in H1.
    destruct (Z.leb_spec len1 0).
    { injection H1 as <- <-. replace (Z.to_nat len1) with 0%nat by lia.
      reflexivity. }
    destruct (Z.leb_spec len1 r).
    { injection H1 as <- <-.
      destruct fuel2 as [|fuel2]; simpl in H2;
        (destruct (Z.leb_spec len2 0); [lia|]);
        destruct (Z.leb_spec len2 r).
      + injection H2 as <- <-. rewrite take_take. f_equal. lia.
      + discriminate.
      + injection H2 as <- <-. rewrite take_take. f_equal. lia.
      + destruct (SHA3_squeeze_loop F fuel2 _ _ _) as [[s o]|]; simpl in H2;
          [|discriminate].
        injection H2 as <- <-.
        rewrite take_app_le
          by (rewrite squeeze_block_length by (try exact Hst; lia); lia).
        rewrite take_take. f_equal. lia. }
    destruct (SHA3_squeeze_loop F fuel1 (F st) (len1 - r) r) as [[s o]|] eqn:E1;
      simpl in H1; [|discriminate].
    injection H1 as <- <-.
    destruct fuel2 as [|fuel2]; simpl in H2;
      (destruct (Z.leb_spec len2 0); [lia|]);
      (destruct (Z.leb_spec len2 r); [lia|]); [discriminate|].
    destruct (SHA3_squeeze_loop F fuel2 (F st) (len2 - r) r) as [[s' o']|] eqn:E2;
      simpl in H2; [|discriminate].
    injection H2 as <- <-.
    rewrite (IH fuel2 (F st) (len1 - r) (len2 - r) r s o s' o')
      by (try apply F_lanes; try assumption; lia).
    rewrite take_app_ge
      by (rewrite squeeze_block_length by (try exact Hst; lia); lia).
    rewrite squeeze_block_length by (try exact Hst; lia).
    do 2 f_equal. lia.
Qed.

(** The state [ossl_sha3_final] squeezes from: the buffered bytes padded
    to a block and absorbed. *)
Lemma final_state_exists c :
  ctx_ok c ->
  exists b,
    pad_block (buf c) (bufsz c) (block_size c) (pad c) = Some b
    /\ length b = length (buf c)
    /\ forall md,
         ossl_sha3_final F md c
         = if md_size c =? 0 then Some (1, md, c)
           else
             '(st2, out) ← SHA3_squeeze F
                  (F (xor_block (A c) (take (Z.to_nat (block_size c)) b)))
                  (md_size c) (block_size c);
             md' ← memcpy md 0 out;
             Some (1, md', set_A (set_buf c b) st2).
Proof.
  intros Hok. apply ctx_ok_unfold in Hok as (Hbuf & Hbs & Hnum & Hbk).
  destruct (pad_block_Some (buf c) (bufsz c) (block_size c) (pad c))
    as (b & Hb & Hl); try lia.
  exists b. split; [exact Hb|]. split; [exact Hl|].
  intros md. unfold ossl_sha3_final. rewrite Hb. simpl.
  destruct (md_size c =? 0); [reflexivity|].
  rewrite memread_Some by lia. simpl. rewrite drop_0.
  rewrite SHA3_absorb_spec by lia. simpl.
  rewrite length_take.
  replace (Z.to_nat (block_size c) `min` length b)%nat
    with (Z.to_nat (block_size c)) by lia.
  rewrite Nat.div_same by lia. simpl.
  rewrite take_take, Nat.min_id. reflexivity.
Qed.

(** What [keccak_final] gives with the generic final function bound: a
    digest of exactly [md_size] bytes that depends on the context alone,
    written at the head of the caller's buffer. *)
Lemma keccak_final_generic_digest ps c :
  ctx_ok c -> length (A c) = 25%nat ->
  final (meth c) = Some fn_generic_sha3_final ->
  ossl_prov_is_running ps = true -> 0 <= md_size c ->
  exists digest c',
    length digest = Z.to_nat (md_size c)
    /\ (forall out outl outsz,
          0 < outsz -> md_size c <= Z.of_nat (length out) ->
          keccak_final F ps c out outl outsz
          = Some (1, digest ++ drop (Z.to_nat (md_size c)) out, md_size c, c'))
    /\ (forall out outl outsz,
          0 < outsz -> Z.of_nat (length out) < md_size c ->
          keccak_final F ps c out outl outsz = None)
    /\ (md_size c = 0
        \/ exists b st,
             pad_block (buf c) (bufsz c) (block_size c) (pad c) = Some b
             /\ SHA3_squeeze F
                  (F (xor_block (A c) (take (Z.to_nat (block_size c)) b)))
                  (md_size c) (block_size c) = Some (st, digest)).
Proof.
  intros Hok HA Hfin Hrun Hmd.
  destruct (final_state_exists c Hok) as (b & Hb & Hbl & Hfinal).
  apply ctx_ok_unfold in Hok as (Hbuf & Hbs & Hnum & Hbk).
  destruct (Z.eqb_spec (md_size c) 0) as [Hz|Hnz].
  - exists [], c. split; [rewrite Hz; reflexivity|].
    split; [|split; [|left; exact Hz]].
    + intros out outl outsz Ho _. unfold keccak_final.
      rewrite Hrun, Hfin. simpl.
      destruct (Z.gtb_spec outsz 0); [|lia].
      unfold generic_sha3_final. rewrite Hfinal.
      destruct (Z.eqb_spec (md_size c) 0); [|contradiction].
      simpl. rewrite Hz. reflexivity.
    + intros out outl outsz _ Hshort. lia.
  - set (s := F (xor_block (A c) (take (Z.to_nat (block_size c)) b))).
    assert (Hs : length s = 25%nat).
    { unfold s. apply F_lanes. rewrite xor_block_length. exact HA. }
    destruct (SHA3_squeeze_loop_total F (Z.to_nat (md_size c)) s (md_size c)
                (block_size c)) as (st2 & digest & Hsq & _); try lia.
    assert (Hr200 : 0 < block_size c <= 200) by lia.
    pose proof (SHA3_squeeze_loop_length _ _ _ _ _ _ Hs Hr200 Hsq) as Hdl.
    exists digest, (set_A (set_buf c b) st2).
    split; [exact Hdl|].
    assert (Hcall : forall out outl outsz, 0 < outsz ->
              keccak_final F ps c out outl outsz
              = (md' ← memcpy out 0 digest;
                 Some (1, md', md_size c, set_A (set_buf c b) st2))).
    { intros out outl outsz Ho. unfold keccak_final.
      rewrite Hrun, Hfin. simpl.
      destruct (Z.gtb_spec outsz 0); [|lia].
      unfold generic_sha3_final. rewrite Hfinal.
      destruct (Z.eqb_spec (md_size c) 0); [contradiction|].
      fold s. unfold SHA3_squeeze. rewrite Hsq. simpl.
      destruct (memcpy out 0 digest); reflexivity. }
    split; [|split].
    + intros out outl outsz Ho Hfit. rewrite Hcall by exact Ho.
      rewrite memcpy_Some by lia. simpl. rewrite Hdl. reflexivity.
    + intros out outl outsz Ho Hshort. rewrite Hcall by exact Ho.
      unfold memcpy.
      destruct (Z.leb_spec (0 + Z.of_nat (length digest))
                  (Z.of_nat (length out))); [lia|reflexivity].
    + right. exists b, st2. split; [exact Hb|exact Hsq].
Qed.

(** X5.  [keccak_final] writes [md_size] bytes, whatever [outsz] says.
    On a well-formed context of 25 lanes with the generic final function
    bound, while the provider is running, there is one digest of exactly
    [md_size] bytes, fixed by the context, such that every call with a
    positive [outsz] and a buffer of at least [md_size] bytes returns 1,
    sets [*outl] to [md_size] and puts the digest at the head of the
    buffer, leaving the bytes behind it as they were.  [outsz] is only
    compared with 0: when the buffer is shorter than [md_size] the write
    runs past its end (a fault), however small [outsz] is. *)
Theorem keccak_final_writes_md_size_bytes (ps : prov_state)
    (c : KECCAK1600_CTX) :
  ctx_ok c -> length (A c) = 25%nat ->
  final (meth c) = Some fn_generic_sha3_final ->
  ossl_prov_is_running ps = true -> 0 <= md_size c ->
  exists digest c',
    length digest = Z.to_nat (md_size c)
    /\ (forall out outl outsz,
          0 < outsz -> md_size c <= Z.of_nat (length out) ->
          keccak_final F ps c out outl outsz
          = Some (1, digest ++ drop (Z.to_nat (md_size c)) out, md_size c, c'))
    /\ (forall out outl outsz,
          0 < outsz -> Z.of_nat (length out) < md_size c ->
          keccak_final F ps c out outl outsz = None).
Proof.
  intros Hok HA Hfin Hrun Hmd.
  destruct (keccak_final_generic_digest ps c Hok HA Hfin Hrun Hmd)
    as (digest & c' & Hl & Hfit & Hshort & _).
  exists digest, c'. auto.
Qed.

(** X6.  A shorter output is the head of a longer one.  For an
    extendable-output context with the generic final function, two output
    lengths [n1 <= n2] set through [shake_set_ctx_params] give digests of
    exactly [n1] and [n2] bytes, and the first is the first [n1] bytes of
    the second: asking for more output never changes the bytes already
    obtained. *)
Theorem shake_shorter_output_is_prefix (ps : prov_state) (c : KECCAK1600_CTX)
    (params1 params2 : list OSSL_PARAM) (p1 p2 : OSSL_PARAM) (n1 n2 : Z)
    (out : list Z) (outl outsz : Z) :
  ctx_ok c -> length (A c) = 25%nat ->
  final (meth c) = Some fn_generic_sha3_final ->
  ossl_prov_is_running ps = true ->
  OSSL_PARAM_locate_const params1 OSSL_DIGEST_PARAM_XOFLEN = Some p1 ->
  OSSL_PARAM_get_size_t p1 = Some n1 ->
  OSSL_PARAM_locate_const params2 OSSL_DIGEST_PARAM_XOFLEN = Some p2 ->
  OSSL_PARAM_get_size_t p2 = Some n2 ->
  0 <= n1 <= n2 -> n2 <= Z.of_nat (length out) -> 0 < outsz ->
  exists c1 c2 d1 d2 e1 e2,
    shake_set_ctx_params ps (Some c) (Some params1) = (1, Some c1, ps)
    /\ shake_set_ctx_params ps (Some c) (Some params2) = (1, Some c2, ps)
    /\ keccak_final F ps c1 out outl outsz
       = Some (1, d1 ++ drop (Z.to_nat n1) out, n1, e1)
    /\ keccak_final F ps c2 out outl outsz
       = Some (1, d2 ++ drop (Z.to_nat n2) out, n2, e2)
    /\ length d1 = Z.to_nat n1 /\ length d2 = Z.to_nat n2
    /\ d1 = take (Z.to_nat n1) d2.
Proof.
  intros Hok HA Hfin Hrun Hp1 Hv1 Hp2 Hv2 Hn Hout Hsz.
  assert (Hok' : forall n, ctx_ok (set_md_size c n)).
  { intros n. apply ctx_ok_unfold. apply ctx_ok_unfold in Hok. exact Hok. }
  assert (Hn1 : 0 <= md_size (set_md_size c n1)) by (simpl; lia).
  assert (Hn2 : 0 <= md_size (set_md_size c n2)) by (simpl; lia).
  destruct (keccak_final_generic_digest ps (set_md_size c n1) (Hok' n1) HA Hfin
              Hrun Hn1)
    as (d1 & e1 & Hl1 & Hf1 & _ & Hd1).
  destruct (keccak_final_generic_digest ps (set_md_size c n2) (Hok' n2) HA Hfin
              Hrun Hn2)
    as (d2 & e2 & Hl2 & Hf2 & _ & Hd2).
  simpl in *.
  exists (set_md_size c n1), (set_md_size c n2), d1, d2, e1, e2.
  unfold shake_set_ctx_params. rewrite Hp1, Hv1, Hp2, Hv2.
  split; [reflexivity|]. split; [reflexivity|].
  split; [apply Hf1; lia|]. split; [apply Hf2; lia|].
  split; [exact Hl1|]. split; [exact Hl2|].
  destruct Hd1 as [Hz|(b1 & s1 & Hb1 & Hs1)].
  { destruct d1; [|simpl in Hl1; lia]. rewrite Hz. reflexivity. }
  destruct Hd2 as [Hz|(b2 & s2 & Hb2 & Hs2)].
  { assert (n1 = 0) as -> by lia.
    destruct d1; [reflexivity|simpl in Hl1; lia]. }
  rewrite Hb1 in Hb2. injection Hb2 as <-.
  unfold SHA3_squeeze in Hs1, Hs2.
  eapply SHA3_squeeze_loop_prefix; [| | |exact Hs1|exact Hs2]; try lia.
  - apply F_lanes. rewrite xor_block_length. exact HA.
  - apply ctx_ok_unfold in Hok. lia.
Qed.

End FinalFacts.


(** ** Construction, advertised sizes, settable parameters *)

Lemma family_newctx_value_shape t caps f :
  ctx_shape (family_newctx_value t caps f)
  /\ A (family_newctx_value t caps f) = replicate 25 0
  /\ bufsz (family_newctx_value t caps f) = 0.
Proof.
  unfold ctx_shape.
  destruct f, t; unfold family_newctx_value, SHA3_newctx_value,
    KMAC_newctx_value, KMAC_SET_MD, SHA3_SET_MD; simpl;
    try (repeat split; reflexivity);
    match goal with
    | |- context [S390_SHA3_CAPABLE ?c ?fc] =>
        destruct (S390_SHA3_CAPABLE c fc); repeat split; reflexivity
    | |- context [armv8_sha3_worth_using ?c] =>
        destruct (armv8_sha3_worth_using c); repeat split; reflexivity
    end.
Qed.

Lemma family_newctx_unfold t caps f ps m :
  family_newctx t caps f ps m
  = let '(ctx, m) :=
      if ossl_prov_is_running ps then zalloc_zero m sizeof_KECCAK1600_CTX 1
      else (None, m) in
    match ctx with
    | None => Some (None, m)
    | Some _ =>
        m ← mem_store m ctx (KECCAK1600_CTX_image (family_newctx_value t caps f));
        Some (ctx, m)
    end.
Proof. destruct f; reflexivity. Qed.

(** X7.  What [newctx] hands out.  For each of the twelve families, on
    every target and with any CPU capabilities: the constructor returns
    [NULL], and leaves the memory alone, exactly when the provider is not
    running or the allocation fails; otherwise it returns a fresh block
    that holds the context of the family (zero state, nothing buffered) and
    that context is well formed; no other block changes; and
    [keccak_freectx] on the new context leaves the block released and all
    zeros and gives the memory back. *)
Theorem family_newctx_contract (t : target) (caps : cpu_caps) (f : family)
    (ps : prov_state) (m : mem) :
  (ossl_prov_is_running ps = false \/ avail m < sizeof_KECCAK1600_CTX ->
   family_newctx t caps f ps m = Some (None, m))
  /\ (ossl_prov_is_running ps = true -> sizeof_KECCAK1600_CTX <= avail m ->
      let c := family_newctx_value t caps f in
      exists p m',
        family_newctx t caps f ps m = Some (Some p, m')
        /\ blocks m !! p = None
        /\ blocks m' !! p = Some (mk_block (KECCAK1600_CTX_image c) true)
        /\ (forall q, q <> p -> blocks m' !! q = blocks m !! q)
        /\ ctx_ok c /\ A c = replicate 25 0 /\ bufsz c = 0
        /\ exists m'',
             keccak_freectx m' (Some p) = Some m''
             /\ blocks m'' !! p
                = Some (mk_block
                          (replicate (Z.to_nat sizeof_KECCAK1600_CTX) 0) false)
             /\ avail m'' = avail m).
Proof.
  rewrite family_newctx_unfold.
  destruct (family_newctx_value_shape t caps f) as (Hshape & HA & Hn).
  pose proof (KECCAK1600_CTX_image_length _ Hshape) as Hlen.
  split.
  - intros [Hrun|Havail].
    + rewrite Hrun. reflexivity.
    + destruct (ossl_prov_is_running ps); [|reflexivity].
      unfold zalloc_zero. rewrite mem_alloc_fail by lia. reflexivity.
  - intros Hrun Havail c. subst c. rewrite Hrun. unfold zalloc_zero.
    destruct (mem_alloc_ok m (sizeof_KECCAK1600_CTX * 1)) as [Hal Hfresh].
    { rewrite sizeof_KECCAK1600_CTX_eq in *. lia. }
    rewrite Hal. clear Hal.
    set (p := fresh (dom (blocks m))) in *.
    pose proof (family_newctx_value_ok t caps f) as Hok.
    remember (family_newctx_value t caps f) as c eqn:Hc.
    remember (KECCAK1600_CTX_image c) as img eqn:Himg.
    remember (replicate (Z.to_nat (sizeof_KECCAK1600_CTX * 1)) 0) as zeros
      eqn:Hz.
    assert (Hzl : length zeros = length img).
    { subst zeros. rewrite length_replicate. lia. }
    replace (replicate (Z.to_nat sizeof_KECCAK1600_CTX) 0)
      with (replicate (length img) 0) by (f_equal; lia).
    clear Hz Himg Hc.
    unfold mem_store. simpl. rewrite lookup_insert_eq. simpl.
    rewrite memcpy_whole by congruence.
    simpl. rewrite insert_insert_eq.
    eexists _, _. split; [reflexivity|]. simpl.
    split; [exact Hfresh|]. split; [apply lookup_insert_eq|].
    split; [intros q Hq; apply lookup_insert_ne; congruence|].
    split; [exact Hok|]. split; [exact HA|]. split; [exact Hn|].
    unfold keccak_freectx, OPENSSL_clear_free.
    destruct (Z.eqb_spec sizeof_KECCAK1600_CTX 0) as [E|_];
      [rewrite sizeof_KECCAK1600_CTX_eq in E; lia|].
    unfold OPENSSL_cleanse, mem_free. simpl. rewrite lookup_insert_eq. simpl.
    rewrite memset_whole by lia. simpl.
    rewrite lookup_insert_eq. simpl. rewrite !insert_insert_eq.
    eexists. split; [reflexivity|]. simpl. split.
    + apply lookup_insert_eq.
    + rewrite length_replicate. lia.
Qed.

Lemma family_newctx_value_sizes t caps f :
  let '(blksize, dgstsize, flags) := family_get_param f in
  let c := family_newctx_value t caps f in
  block_size c = blksize /\ md_size c = dgstsize
  /\ 0 < dgstsize /\ 0 < blksize <= sizeof_buf.
Proof.
  destruct f, t; unfold family_newctx_value, SHA3_newctx_value,
    KMAC_newctx_value, KMAC_SET_MD, SHA3_SET_MD; simpl;
    try (destruct (S390_SHA3_CAPABLE caps _));
    try (destruct (armv8_sha3_worth_using caps));
    repeat split; first [reflexivity | discriminate].
Qed.

(** X8.  A new context has the sizes its family advertises.  The block
    size and the digest size that the dispatch table of a family reports
    through [get_params] are the block size and the digest size of the
    context its [newctx] makes, on every target and with any CPU
    capabilities (KMAC's doubled digest size included); both are positive
    and the block size fits the staging buffer. *)
Theorem family_sizes_as_advertised (t : target) (caps : cpu_caps)
    (f : family) :
  let '(blksize, dgstsize, flags) := family_get_param f in
  let c := family_newctx_value t caps f in
  block_size c = blksize /\ md_size c = dgstsize
  /\ 0 < dgstsize /\ 0 < blksize <= sizeof_buf.
Proof.
  destruct f; cbn [family_get_param];
    (destruct t; unfold family_newctx_value, SHA3_newctx_value,
       KMAC_newctx_value, KMAC_SET_MD, SHA3_SET_MD; simpl;
     [ destruct (S390_SHA3_CAPABLE caps _)
     | destruct (armv8_sha3_worth_using caps)
     | ]);
    (split; [reflexivity|]); (split; [reflexivity|]);
    vm_compute; repeat split; discriminate.
Qed.

Lemma le_unsigned_bound bs :
  Forall (fun b => 0 <= b < 256) bs ->
  0 <= le_unsigned bs < 256 ^ Z.of_nat (length bs).
Proof.
  induction 1 as [|b bs Hb _ IH]; simpl length; [simpl; lia|].
  rewrite Nat2Z.inj_succ, Z.pow_succ_r by lia.
  change (le_unsigned (b :: bs)) with (b + 256 * le_unsigned bs). lia.
Qed.

(** X9.  The parameter that is advertised is the parameter that is
    taken.  For every descriptor that [shake_settable_ctx_params] returns,
    an entry with the descriptor's key and type and a payload of at most
    eight bytes is accepted by [shake_set_ctx_params] and sets the digest
    size to the little-endian value of the payload; and a parameter list
    in which no entry carries an advertised key is accepted and changes
    nothing. *)
Theorem shake_settable_params_are_accepted (ps : prov_state)
    (c : KECCAK1600_CTX) (provctx : unit) :
  (forall d bs,
     d ∈ shake_settable_ctx_params (Some c) provctx ->
     Forall (fun b => 0 <= b < 256) bs -> (length bs <= 8)%nat ->
     shake_set_ctx_params ps (Some c)
       (Some [mk_param (key d) (data_type d) bs])
     = (1, Some (set_md_size c (le_unsigned bs)), ps)
     /\ 0 <= le_unsigned bs < 2 ^ 64)
  /\ (forall params,
        (forall p d, p ∈ params ->
                     d ∈ shake_settable_ctx_params (Some c) provctx ->
                     key p <> key d) ->
        shake_set_ctx_params ps (Some c) (Some params) = (1, Some c, ps)).
Proof.
  split.
  - intros d bs Hd Hbytes Hlen.
    apply list_elem_of_singleton in Hd. subst d. simpl.
    pose proof (le_unsigned_bound bs Hbytes) as Hb.
    assert (Hpow : 256 ^ Z.of_nat (length bs) <= 2 ^ 64).
    { change (2 ^ 64) with (256 ^ 8). apply Z.pow_le_mono_r; lia. }
    split; [|lia].
    unfold shake_set_ctx_params, OSSL_PARAM_locate_const. simpl.
    unfold OSSL_PARAM_get_size_t. simpl.
    destruct (Z.leb_spec 0 (le_unsigned bs)); [|lia].
    destruct (Z.ltb_spec (le_unsigned bs) (2 ^ 64)); [|lia].
    reflexivity.
  - intros params Hnone.
    unfold shake_set_ctx_params, OSSL_PARAM_locate_const.
    destruct (find _ params) as [p|] eqn:E; [|reflexivity].
    apply find_some in E as [Hin Hkey].
    apply String.eqb_eq in Hkey. exfalso.
    apply (Hnone p (mk_param OSSL_DIGEST_PARAM_XOFLEN
                      OSSL_PARAM_UNSIGNED_INTEGER [])).
    + apply list_elem_of_In, Hin.
    + apply list_elem_of_singleton. reflexivity.
    + exact Hkey.
Qed.


Section FamilyFacts.

Variable F : list Z -> list Z.
Hypothesis F_lanes : forall st, length st = 25%nat -> length (F st) = 25%nat.

Lemma absorb_blocks_length n : forall st inp r,
  length st = 25%nat -> length (absorb_blocks F n st inp r) = 25%nat.
Proof.
  induction n as [|n IH]; intros st inp r Hst; simpl; [exact Hst|].
  apply IH, F_lanes. rewrite xor_block_length. exact Hst.
Qed.

(** One [keccak_update] and one [keccak_final] on a well-formed context of
    25 lanes with the generic final function: a digest of [md_size]
    bytes. *)
Lemma update_then_final_length ps c inp out outl outsz :
  ctx_ok c -> length (A c) = 25%nat ->
  final (meth c) = Some fn_generic_sha3_final ->
  ossl_prov_is_running ps = true ->
  Z.of_nat (length inp) < 2 ^ 64 -> 0 < outsz ->
  0 <= md_size c <= Z.of_nat (length out) ->
  exists c2 c3 digest,
    keccak_update F c inp = Some (1, c2)
    /\ keccak_final F ps c2 out outl outsz
       = Some (1, digest ++ drop (Z.to_nat (md_size c)) out, md_size c, c3)
    /\ length digest = Z.to_nat (md_size c).
Proof.
  intros Hok HA Hfin Hrun Hlen Hsz Hmd.
  destruct (keccak_update_spec F c inp Hok Hlen)
    as (c2 & Hupd & Hsp & Hb & Hm & Hp & Ht & Hok2).
  assert (HA2 : length (A c2) = 25%nat).
  { unfold sponge_of, sponge_step in Hsp. simpl in Hsp.
    injection Hsp as -> _. apply absorb_blocks_length, HA. }
  assert (Hfin2 : final (meth c2) = Some fn_generic_sha3_final)
    by (rewrite Ht; exact Hfin).
  assert (Hmd2 : 0 <= md_size c2) by lia.
  destruct (keccak_final_generic_digest F F_lanes ps c2 Hok2 HA2 Hfin2 Hrun Hmd2)
    as (digest & c3 & Hl & Hfit & _).
  exists c2, c3, digest. split; [exact Hupd|].
  rewrite <- Hm. split; [apply Hfit; lia|exact Hl].
Qed.

(** X10.  A digest has the length its family advertises.  Take the new
    context of a family whose final function is the generic one, on a
    running provider.  Through the table's init function, one
    [keccak_update] and one [keccak_final] into a buffer that can take it,
    the digest has exactly the advertised size, [*outl] reports it and the
    bytes of the buffer behind it are untouched: for a fixed-length family
    whatever parameters init is given (an output length passed there is
    ignored), for an extendable-output family when init is given no output
    length. *)
Theorem family_digest_has_advertised_length (t : target) (caps : cpu_caps)
    (f : family) (ps : prov_state) (params : option (list OSSL_PARAM))
    (inp out : list Z) (outl outsz : Z) (blksize dgstsize : Z)
    (flags : digest_flag) :
  family_get_param f = (blksize, dgstsize, flags) ->
  final (meth (family_newctx_value t caps f)) = Some fn_generic_sha3_final ->
  ossl_prov_is_running ps = true ->
  Z.of_nat (length inp) < 2 ^ 64 -> 0 < outsz ->
  dgstsize <= Z.of_nat (length out) ->
  flags = PROV_DIGEST_FLAG_ALGID_ABSENT
  \/ params = None
  \/ (exists l, params = Some l
                /\ OSSL_PARAM_locate_const l OSSL_DIGEST_PARAM_XOFLEN = None) ->
  exists c1 c2 c3 digest,
    family_digest_init f ps (Some (family_newctx_value t caps f)) params
    = Some (1, Some c1, ps)
    /\ keccak_update F c1 inp = Some (1, c2)
    /\ keccak_final F ps c2 out outl outsz
       = Some (1, digest ++ drop (Z.to_nat dgstsize) out, dgstsize, c3)
    /\ length digest = Z.to_nat dgstsize.
Proof.
  intros Hgp.
  set (c0 := family_newctx_value t caps f).
  pose proof (family_newctx_value_sizes t caps f) as Hsizes.
  pose proof (family_newctx_value_ok t caps f) as Hok.
  destruct (family_newctx_value_shape t caps f) as ((HA & _) & _ & _).
  fold c0 in Hok, HA. rewrite Hgp in Hsizes.
  fold c0 in Hsizes. destruct Hsizes as (_ & Hmd & Hpos & _).
  intros Hfin Hrun Hlen Hsz Hout Hparams.
  assert (Hinit : family_digest_init f ps (Some c0) params
                  = Some (1, Some (ossl_sha3_reset c0), ps)).
  { unfold family_digest_init, keccak_init_params, keccak_init,
      shake_set_ctx_params.
    rewrite Hrun. simpl.
    destruct Hparams as [Hfl|[->|(l & -> & Hloc)]].
    - destruct f; simpl in Hgp; injection Hgp as _ _ <-;
        first [reflexivity | discriminate].
    - destruct f; reflexivity.
    - rewrite Hloc. destruct f; reflexivity. }
  destruct (update_then_final_length ps (ossl_sha3_reset c0) inp out outl outsz)
    as (c2 & c3 & digest & Hupd & Hfinal & Hl); auto.
  { apply ossl_sha3_reset_ok, Hok. }
  { simpl. lia. }
  exists (ossl_sha3_reset c0), c2, c3, digest.
  simpl in Hfinal, Hl. rewrite Hmd in Hfinal, Hl. auto.
Qed.

End FamilyFacts.


(** What [keccak_dupctx] leaves in memory when it has its block. *)
Lemma keccak_dupctx_result ps m src img :
  blocks m !! src = Some (mk_block img true) ->
  Z.of_nat (length img) = sizeof_KECCAK1600_CTX ->
  ossl_prov_is_running ps = true -> sizeof_KECCAK1600_CTX <= avail m ->
  let ret := fresh (dom (blocks m)) in
  blocks m !! ret = None
  /\ keccak_dupctx ps m (Some src)
     = Some (Some ret,
             mk_mem (<[ret := mk_block img true]> (blocks m))
                    (avail m - sizeof_KECCAK1600_CTX * 1)).
Proof.
  intros Hsrc Hlen Hrun Havail ret.
  unfold keccak_dupctx. rewrite Hrun. unfold zalloc.
  destruct (mem_alloc_ok m (sizeof_KECCAK1600_CTX * 1)) as [Hal Hfresh].
  { rewrite sizeof_KECCAK1600_CTX_eq in *. lia. }
  rewrite Hal. clear Hal. fold ret in Hfresh |- *.
  split; [exact Hfresh|].
  remember (replicate (Z.to_nat (sizeof_KECCAK1600_CTX * 1)) 0) as zeros
    eqn:Hz.
  assert (Hzl : length zeros = length img).
  { subst zeros. rewrite length_replicate. lia. }
  clear Hz.
  assert (Hne : ret <> src) by congruence.
  unfold mem_load. simpl.
  rewrite (lookup_insert_ne _ ret src) by exact Hne. rewrite Hsrc. simpl.
  rewrite memread_whole by lia. simpl.
  unfold mem_store. simpl. rewrite lookup_insert_eq. simpl.
  rewrite memcpy_whole by congruence.
  simpl. rewrite insert_insert_eq. reflexivity.
Qed.

(** X11.  Duplicating a context and freeing the duplicate.  On a running
    provider with memory left, [keccak_freectx] on what [keccak_dupctx]
    returned leaves the source context and every other block exactly as
    they were before the duplication, the block of the duplicate released
    and all zeros, and as much memory available as before. *)
Theorem keccak_dupctx_freectx_roundtrip (ps : prov_state) (m : mem)
    (src : positive) (c : KECCAK1600_CTX) :
  blocks m !! src = Some (mk_block (KECCAK1600_CTX_image c) true) ->
  ctx_shape c ->
  ossl_prov_is_running ps = true -> sizeof_KECCAK1600_CTX <= avail m ->
  exists ret m' m'',
    keccak_dupctx ps m (Some src) = Some (Some ret, m')
    /\ keccak_freectx m' (Some ret) = Some m''
    /\ blocks m !! ret = None
    /\ blocks m'' !! ret
       = Some (mk_block (replicate (Z.to_nat sizeof_KECCAK1600_CTX) 0) false)
    /\ (forall q, q <> ret -> blocks m'' !! q = blocks m !! q)
    /\ avail m'' = avail m.
Proof.
  intros Hsrc Hshape Hrun Havail.
  pose proof (KECCAK1600_CTX_image_length c Hshape) as Hlen.
  remember (KECCAK1600_CTX_image c) as img eqn:Himg. clear Himg.
  destruct (keccak_dupctx_result ps m src img Hsrc Hlen Hrun Havail)
    as [Hfresh Hdup].
  set (ret := fresh (dom (blocks m))) in *.
  replace (replicate (Z.to_nat sizeof_KECCAK1600_CTX) 0)
    with (replicate (length img) 0) by (f_equal; lia).
  eexists ret, _, _. split; [exact Hdup|].
  unfold keccak_freectx, OPENSSL_clear_free.
  destruct (Z.eqb_spec sizeof_KECCAK1600_CTX 0) as [E|_];
    [rewrite sizeof_KECCAK1600_CTX_eq in E; lia|].
  unfold OPENSSL_cleanse, mem_free. cbn [blocks avail].
  rewrite lookup_insert_eq. cbn [mbind option_bind live bytes].
  rewrite memset_whole by lia. cbn [mbind option_bind blocks avail].
  rewrite lookup_insert_eq. cbn [mbind option_bind live bytes].
  split; [reflexivity|]. cbn [blocks avail].
  split; [exact Hfresh|]. split; [|split].
  - rewrite lookup_insert_eq. reflexivity.
  - intros q Hq. rewrite !lookup_insert_ne by congruence. reflexivity.
  - rewrite length_replicate. lia.
Qed.


(** ** Every target computes the same digest *)

Lemma memcpy_prefix (n m : nat) b1 b2 off src r1 r2 :
  take n b1 = take n b2 ->
  memcpy b1 off src = Some r1 -> memcpy b2 off src = Some r2 ->
  (forall i, (n <= i < m)%nat ->
             (Z.to_nat off <= i < Z.to_nat off + length src)%nat) ->
  take m r1 = take m r2.
Proof.
  intros Ht H1 H2 Hcov. apply list_eq. intros i. rewrite !lookup_take.
  destruct (decide (i < m)%nat); [|reflexivity].
  rewrite (memcpy_lookup _ _ _ _ i H1), (memcpy_lookup _ _ _ _ i H2).
  destruct (decide _) as [|Hn]; [reflexivity|].
  assert (Hi : (i < n)%nat).
  { destruct (decide (i < n)%nat); [assumption|]. exfalso. apply Hn, Hcov. lia. }
  rewrite <- (lookup_take_lt b1 n i), <- (lookup_take_lt b2 n i) by lia.
  rewrite Ht. reflexivity.
Qed.

Lemma load_prefix n b1 b2 i :
  take n b1 = take n b2 -> 0 <= i < Z.of_nat n -> load b1 i = load b2 i.
Proof.
  intros Ht Hi. unfold load. destruct (Z.leb_spec 0 i); [|reflexivity].
  rewrite <- (lookup_take_lt b1 n), <- (lookup_take_lt b2 n) by lia.
  rewrite Ht. reflexivity.
Qed.

(** Padding two buffers that hold the same pending bytes gives the same
    final block, whatever lies beyond the block in either. *)
Lemma pad_block_prefix b1 b2 num bsz p r1 r2 :
  0 <= num < bsz -> bsz < 2 ^ 64 ->
  take (Z.to_nat num) b1 = take (Z.to_nat num) b2 ->
  pad_block b1 num bsz p = Some r1 -> pad_block b2 num bsz p = Some r2 ->
  take (Z.to_nat bsz) r1 = take (Z.to_nat bsz) r2.
Proof.
  intros Hnum Hb Ht. unfold pad_block, memset, store.
  rewrite !size_t_sub_small by lia.
  destruct (Z.leb_spec 0 (bsz - num)); [|lia].
  destruct (memcpy b1 num _) as [x1|] eqn:E1; [|discriminate].
  destruct (memcpy b2 num _) as [x2|] eqn:E2; [|discriminate]. simpl.
  assert (Hx : take (Z.to_nat bsz) x1 = take (Z.to_nat bsz) x2).
  { apply (memcpy_prefix _ _ _ _ _ _ _ _ Ht E1 E2).
    intros i Hi. rewrite length_replicate. lia. }
  destruct (memcpy x1 num _) as [y1|] eqn:F1; [|discriminate].
  destruct (memcpy x2 num _) as [y2|] eqn:F2; [|discriminate]. simpl.
  assert (Hy : take (Z.to_nat bsz) y1 = take (Z.to_nat bsz) y2).
  { apply (memcpy_prefix _ _ _ _ _ _ _ _ Hx F1 F2). intros i Hi. lia. }
  rewrite (load_prefix _ _ _ _ Hy) by lia.
  destruct (load y2 (bsz - 1)) as [v|]; [|discriminate]. simpl.
  intros G1 G2.
  apply (memcpy_prefix _ _ _ _ _ _ _ _ Hy G1 G2). intros i Hi. lia.
Qed.

Lemma memcpy_None dst off src :
  Z.of_nat (length dst) < off + Z.of_nat (length src) ->
  memcpy dst off src = None.
Proof.
  intros H. unfold memcpy.
  destruct (Z.leb_spec (off + Z.of_nat (length src)) (Z.of_nat (length dst)));
    [lia|].
  rewrite andb_false_r. reflexivity.
Qed.

Lemma memcpy_app md X Y :
  memcpy md 0 (X ++ Y)
  = md1 ← memcpy md 0 X; memcpy md1 (Z.of_nat (length X)) Y.
Proof.
  destruct (Z_le_gt_dec (Z.of_nat (length X) + Z.of_nat (length Y))
              (Z.of_nat (length md))) as [Hfit|Hno].
  - rewrite (memcpy_Some md 0 (X ++ Y)) by (rewrite ?length_app; lia).
    rewrite (memcpy_Some md 0 X) by lia. simpl.
    rewrite memcpy_Some by (rewrite ?length_app, ?length_drop; lia).
    f_equal. rewrite Nat2Z.id, take_app_length, length_app.
    rewrite <- app_assoc. do 2 f_equal.
    rewrite drop_app_ge by lia. rewrite drop_drop. f_equal. lia.
  - rewrite (memcpy_None md 0 (X ++ Y)) by (rewrite length_app; lia).
    destruct (memcpy md 0 X) as [md1|] eqn:E; simpl; [|reflexivity].
    apply memcpy_length in E. symmetry. apply memcpy_None. lia.
Qed.

(** The function codes that select a rate. *)
Lemma s390x_rate_codes fc r :
  s390x_rate fc = Some r ->
  Z.land fc S390X_KLMD_PS = 0
  /\ Z.land (Z.lor fc S390X_KLMD_PS) S390X_KLMD_PS <> 0
  /\ Z.lxor (Z.lor fc S390X_KLMD_PS) S390X_KLMD_PS = fc
  /\ s390x_padbyte fc mod 256 = s390x_padbyte fc.
Proof.
  unfold s390x_rate.
  repeat match goal with
         | |- context [fc =? ?c] =>
             destruct (Z.eqb_spec fc c) as [->|_];
             [intros _; repeat split; try reflexivity; discriminate|]
         end.
  discriminate.
Qed.


Lemma memcpy_nil md : memcpy md 0 [] = Some md.
Proof.
  rewrite memcpy_Some by (simpl; lia). simpl. rewrite drop_0. reflexivity.
Qed.

Section TwinFacts.

Variable F : list Z -> list Z.
Hypothesis F_lanes : forall st, length st = 25%nat -> length (F st) = 25%nat.

(** The result of a squeeze does not depend on the fuel that was enough. *)
Lemma SHA3_squeeze_loop_fuel fuel1 : forall fuel2 st len r x y,
  SHA3_squeeze_loop F fuel1 st len r = Some x ->
  SHA3_squeeze_loop F fuel2 st len r = Some y -> x = y.
Proof.
  induction fuel1 as [|fuel1 IH]; intros fuel2 st len r x y;
    destruct fuel2 as [|fuel2]; simpl;
    destruct (len <=? 0); try congruence;
    destruct (len <=? r); try congruence; try discriminate.
  destruct (SHA3_squeeze_loop F fuel1 _ _ _) as [[s1 o1]|] eqn:E1; simpl;
    [|discriminate].
  destruct (SHA3_squeeze_loop F fuel2 _ _ _) as [[s2 o2]|] eqn:E2; simpl;
    [|discriminate].
  pose proof (IH _ _ _ _ _ _ E1 E2) as [= -> ->]. congruence.
Qed.

Lemma SHA3_squeeze_short st len r fuel :
  0 < len <= r ->
  SHA3_squeeze_loop F fuel st len r
  = Some (st, take (Z.to_nat len) (state_bytes st)).
Proof.
  intros H. destruct fuel; simpl;
    (destruct (Z.leb_spec len 0); [lia|]);
    (destruct (Z.leb_spec len r); [reflexivity|lia]).
Qed.

Lemma SHA3_squeeze_zero st r fuel :
  SHA3_squeeze_loop F fuel st 0 r = Some (st, []).
Proof. destruct fuel; reflexivity. Qed.

(** KIMD on exactly one block. *)
Lemma s390x_kimd_block blk fc st r :
  s390x_rate fc = Some r -> 0 < r -> Z.of_nat (length blk) = r ->
  s390x_kimd F blk fc st = Some (F (xor_block st blk)).
Proof.
  intros Hr Hpos Hl. unfold s390x_kimd. rewrite Hr. simpl.
  rewrite SHA3_absorb_spec by exact Hpos. simpl.
  rewrite Hl, Z.mod_same by lia. simpl.
  replace (length blk) with (Z.to_nat r) by lia.
  rewrite Nat.div_same by lia. simpl.
  rewrite take_ge by lia. reflexivity.
Qed.

(** KLMD on the pending bytes of a stream: the pad, one permutation and
    the squeeze of the portable code. *)
Lemma s390x_klmd_pending st pend fc r n b num bg :
  s390x_rate fc = Some r -> 0 < r < 2 ^ 64 ->
  Z.of_nat (length pend) = num -> num < r ->
  take (Z.to_nat num) b = pend ->
  pad_block b num r (s390x_padbyte fc) = Some bg ->
  s390x_klmd F pend n fc st
  = SHA3_squeeze F (F (xor_block st (take (Z.to_nat r) bg))) n r.
Proof.
  intros Hr Hpos Hl Hnum Hpend Hbg.
  destruct (s390x_rate_codes fc r Hr) as (Hps & _).
  unfold s390x_klmd. rewrite Hps, Hr. simpl.
  rewrite SHA3_absorb_spec by lia. simpl.
  rewrite Hl, Z.mod_small by lia.
  rewrite Nat.div_small by lia. simpl.
  replace (Z.to_nat (num - num)) with 0%nat by lia. rewrite drop_0.
  destruct (pad_block_Some (pend ++ replicate (Z.to_nat (r - num)) 0) num r
              (s390x_padbyte fc)) as (b1 & Hb1 & Hl1); try lia.
  { rewrite length_app, length_replicate. lia. }
  rewrite Hb1. simpl.
  assert (Hb1r : length b1 = Z.to_nat r).
  { rewrite Hl1, length_app, length_replicate. lia. }
  assert (Heq : take (Z.to_nat r) b1 = take (Z.to_nat r) bg).
  { assert (Ht : take (Z.to_nat num) (pend ++ replicate (Z.to_nat (r - num)) 0)
                 = take (Z.to_nat num) b).
    { rewrite take_app_length' by lia. symmetry. exact Hpend. }
    apply (pad_block_prefix _ _ num r _ _ _ ltac:(lia) ltac:(lia) Ht Hb1 Hbg). }
  rewrite <- Heq, take_ge by lia. reflexivity.
Qed.

(** The state the generic final function squeezes from, for a context
    of 25 lanes. *)
Lemma final_state_lanes (c : KECCAK1600_CTX) b :
  length (A c) = 25%nat ->
  length (F (xor_block (A c) (take (Z.to_nat (block_size c)) b))) = 25%nat.
Proof. intros HA. apply F_lanes. rewrite xor_block_length. exact HA. Qed.

Lemma twin_generic_final md c g :
  ctx_ok c -> ctx_ok g ->
  A c = A g -> block_size c = block_size g -> md_size c = md_size g ->
  bufsz c = bufsz g -> pending c = pending g -> pad c = pad g ->
  final_agree (ossl_sha3_final F md c) (ossl_sha3_final F md g).
Proof.
  intros Hc Hg HA Hbs Hmd Hnum Hpend Hpad.
  destruct (final_state_exists F c Hc) as (bc & Hbc & _ & ->).
  destruct (final_state_exists F g Hg) as (bg & Hbg & _ & ->).
  apply ctx_ok_unfold in Hc as (Hbuf & Hr & Hn & _).
  rewrite <- Hmd. destruct (md_size c =? 0); [simpl; auto|].
  rewrite <- HA, <- Hbs.
  rewrite <- Hbs, <- Hnum, <- Hpad in Hbg.
  unfold pending in Hpend. rewrite <- Hnum in Hpend.
  assert (Hn' : 0 <= bufsz c < block_size c) by lia.
  assert (Hr' : block_size c < 2 ^ 64) by lia.
  rewrite (pad_block_prefix _ _ _ _ _ _ _ Hn' Hr' Hpend Hbc Hbg).
  destruct (SHA3_squeeze F _ _ _) as [[s o]|]; simpl; [|exact I].
  destruct (memcpy md 0 o); simpl; auto.
Qed.

Lemma twin_s390x_sha3_final ps md c g :
  ctx_ok g -> length (A c) = 25%nat ->
  A c = A g -> block_size c = block_size g -> md_size c = md_size g ->
  bufsz c = bufsz g -> length (buf c) = length (buf g) ->
  pending c = pending g ->
  s390x_rate (pad c) = Some (block_size c) ->
  pad g = s390x_padbyte (pad c) -> 0 <= md_size c <= block_size c ->
  ossl_prov_is_running ps = true ->
  final_agree (s390x_sha3_final F ps md c) (ossl_sha3_final F md g).
Proof.
  intros Hg HA25 HA Hbs Hmd Hnum Hlen Hpend Hrate Hpad Hfit Hrun.
  destruct (final_state_exists F g Hg) as (bg & Hbg & _ & ->).
  apply ctx_ok_unfold in Hg as (Hbuf & Hr & Hn & _).
  unfold s390x_sha3_final. rewrite Hrun. simpl.
  rewrite memread_Some by lia. simpl. rewrite drop_0.
  rewrite Hpad, <- Hbs, <- Hnum in Hbg.
  rewrite (s390x_klmd_pending (A c) _ (pad c) (block_size c) 0 (buf g)
             (bufsz c) bg Hrate); try lia; try exact Hbg.
  2:{ rewrite length_take. lia. }
  2:{ unfold pending in Hpend. rewrite <- Hnum in Hpend. symmetry.
      exact Hpend. }
  unfold SHA3_squeeze. rewrite SHA3_squeeze_zero. simpl.
  pose proof (final_state_lanes c bg HA25) as Hst.
  rewrite memread_Some by (rewrite ?state_bytes_length, ?Hst; lia).
  simpl. rewrite drop_0. rewrite <- Hmd, <- HA, <- Hbs.
  destruct (Z.eqb_spec (md_size c) 0) as [Hz|Hnz].
  - rewrite Hz. simpl. rewrite memcpy_nil. simpl. auto.
  - rewrite SHA3_squeeze_short by lia. simpl.
    destruct (memcpy md 0 _); simpl; auto.
Qed.

Lemma twin_s390x_shake_final ps md c g :
  ctx_ok g ->
  A c = A g -> block_size c = block_size g -> md_size c = md_size g ->
  bufsz c = bufsz g -> length (buf c) = length (buf g) ->
  pending c = pending g ->
  s390x_rate (pad c) = Some (block_size c) ->
  pad g = s390x_padbyte (pad c) ->
  ossl_prov_is_running ps = true ->
  final_agree (s390x_shake_final F ps md c) (ossl_sha3_final F md g).
Proof.
  intros Hg HA Hbs Hmd Hnum Hlen Hpend Hrate Hpad Hrun.
  destruct (final_state_exists F g Hg) as (bg & Hbg & _ & ->).
  apply ctx_ok_unfold in Hg as (Hbuf & Hr & Hn & _).
  unfold s390x_shake_final. rewrite Hrun. simpl.
  rewrite memread_Some by lia. simpl. rewrite drop_0.
  rewrite Hpad, <- Hbs, <- Hnum in Hbg.
  rewrite (s390x_klmd_pending (A c) _ (pad c) (block_size c) (md_size c)
             (buf g) (bufsz c) bg Hrate); try lia; try exact Hbg.
  2:{ rewrite length_take. lia. }
  2:{ unfold pending in Hpend. rewrite <- Hnum in Hpend. symmetry.
      exact Hpend. }
  rewrite <- Hmd, <- HA, <- Hbs.
  destruct (Z.eqb_spec (md_size c) 0) as [Hz|Hnz].
  - rewrite Hz. unfold SHA3_squeeze. rewrite SHA3_squeeze_zero. simpl.
    rewrite memcpy_nil. simpl. auto.
  - destruct (SHA3_squeeze F _ _ _) as [[s o]|]; simpl; [|exact I].
    destruct (memcpy md 0 o); simpl; auto.
Qed.

Lemma twin_s390x_keccakc_final ps md c g padding :
  ctx_ok g -> length (A c) = 25%nat ->
  A c = A g -> block_size c = block_size g -> md_size c = md_size g ->
  bufsz c = bufsz g -> length (buf c) = length (buf g) ->
  pending c = pending g ->
  s390x_rate (pad c) = Some (block_size c) ->
  pad g = padding -> 0 <= md_size c < 2 ^ 64 ->
  ossl_prov_is_running ps = true ->
  final_agree (s390x_keccakc_final F ps md c padding)
              (ossl_sha3_final F md g).
Proof.
  intros Hg HA25 HA Hbs Hmd Hnum Hlen Hpend Hrate Hpad Hfit Hrun.
  destruct (final_state_exists F g Hg) as (bg & Hbg & _ & ->).
  apply ctx_ok_unfold in Hg as (Hbuf & Hr & Hn & _).
  unfold s390x_keccakc_final. rewrite Hrun. simpl.
  rewrite <- Hmd, <- HA, <- Hbs.
  destruct (Z.eqb_spec (md_size c) 0) as [Hz|Hnz]; [simpl; auto|].
  destruct (pad_block_Some (buf c) (bufsz c) (block_size c) padding)
    as (bc & Hbc & Hlc); try lia.
  rewrite Hbc. simpl.
  rewrite Hpad, <- Hbs, <- Hnum in Hbg.
  unfold pending in Hpend. rewrite <- Hnum in Hpend.
  assert (Hn' : 0 <= bufsz c < block_size c) by lia.
  assert (Hr' : block_size c < 2 ^ 64) by lia.
  pose proof (pad_block_prefix _ _ _ _ _ _ _ Hn' Hr' Hpend Hbc Hbg) as Hblk.
  rewrite memread_Some by lia. simpl. rewrite drop_0.
  rewrite (s390x_kimd_block _ (pad c) (A c) (block_size c) Hrate)
    by (rewrite ?length_take; lia).
  simpl. rewrite Hblk.
  set (st := F (xor_block (A c) (take (Z.to_nat (block_size c)) bg))).
  assert (Hst : length st = 25%nat) by (apply final_state_lanes, HA25).
  destruct (s390x_rate_codes _ _ Hrate) as (_ & Hps & Hfc & _).
  destruct (Z.gtb_spec (md_size c) (block_size c)) as [Hlong|Hshort].
  - rewrite memread_Some by (rewrite ?state_bytes_length, ?Hst; lia).
    simpl. rewrite drop_0.
    rewrite size_t_sub_small by lia.
    destruct (Z.gtb_spec (md_size c - block_size c) 0); [|lia].
    unfold s390x_klmd.
    destruct (Z.eqb_spec (Z.land (Z.lor (pad c) S390X_KLMD_PS) S390X_KLMD_PS) 0);
      [contradiction|].
    rewrite Hfc, Hrate. simpl.
    unfold SHA3_squeeze.
    destruct (Z.to_nat (md_size c)) as [|fuel] eqn:Hfuel; [lia|].
    simpl SHA3_squeeze_loop at 2.
    destruct (Z.leb_spec (md_size c) 0); [lia|].
    destruct (Z.leb_spec (md_size c) (block_size c)); [lia|].
    destruct (SHA3_squeeze_loop_total F fuel (F st)
                (md_size c - block_size c) (block_size c))
      as (s2 & o2 & Hsq2 & _); try lia.
    destruct (SHA3_squeeze_loop_total F
                (Z.to_nat (md_size c - block_size c)) (F st)
                (md_size c - block_size c) (block_size c))
      as (s1 & o1 & Hsq1 & _); try lia.
    pose proof (SHA3_squeeze_loop_fuel _ _ _ _ _ _ _ Hsq1 Hsq2) as [= -> ->].
    rewrite Hsq1, Hsq2. simpl.
    rewrite memcpy_app.
    destruct (memcpy md 0 _) as [md1|]; simpl; [|exact I].
    rewrite squeeze_block_length by (try exact Hst; lia).
    rewrite Z2Nat.id by lia.
    destruct (memcpy md1 _ o2); simpl; auto.
  - rewrite memread_Some by (rewrite ?state_bytes_length, ?Hst; lia).
    simpl. rewrite drop_0.
    rewrite size_t_sub_small by lia. rewrite Z.sub_diag. simpl.
    unfold SHA3_squeeze. rewrite SHA3_squeeze_short by lia. simpl.
    destruct (memcpy md 0 _); simpl; auto.
Qed.

(** Whatever final function a target bound, it writes the digest the
    generic one does. *)
Lemma call_final_twin ps md c g :
  ctx_ok c -> ctx_ok g -> backend_twin c g -> length (A c) = 25%nat ->
  0 <= md_size c < 2 ^ 64 -> ossl_prov_is_running ps = true ->
  final_agree (call_final F (final (meth c)) ps md c)
              (call_final F (final (meth g)) ps md g).
Proof.
  intros Hc Hg (HA & Hbs & Hmd & Hnum & Hlen & Hpend & Hmeth & Hcase)
    HA25 Hfit Hrun.
  rewrite Hmeth. simpl. unfold generic_sha3_final.
  pose proof Hc as Hc'.
  apply ctx_ok_unfold in Hc' as (_ & _ & _ & Hbk).
  destruct (absorb (meth c)) as [[| |]|], (final (meth c)) as [[| | | |]|];
    try contradiction; simpl in *.
  - apply twin_generic_final; assumption.
  - destruct (s390x_rate (pad c)) as [r|] eqn:Hr; [|discriminate].
    apply Z.eqb_eq in Hbk. subst r. destruct Hcase as [Hpad Hle].
    apply twin_s390x_sha3_final; try assumption. lia.
  - destruct (s390x_rate (pad c)) as [r|] eqn:Hr; [|discriminate].
    apply Z.eqb_eq in Hbk. subst r.
    apply twin_s390x_shake_final; assumption.
  - destruct (s390x_rate (pad c)) as [r|] eqn:Hr; [|discriminate].
    apply Z.eqb_eq in Hbk. subst r.
    apply twin_s390x_keccakc_final; assumption.
  - destruct (s390x_rate (pad c)) as [r|] eqn:Hr; [|discriminate].
    apply Z.eqb_eq in Hbk. subst r.
    apply twin_s390x_keccakc_final; assumption.
  - apply twin_generic_final; assumption.
Qed.

End TwinFacts.


Lemma OSSL_PARAM_get_size_t_range p v :
  OSSL_PARAM_get_size_t p = Some v -> 0 <= v < 2 ^ 64.
Proof.
  unfold OSSL_PARAM_get_size_t.
  destruct (data_type p); try discriminate;
    match goal with
    | |- context [(0 <=? ?x) && (?x <? 2 ^ 64)] =>
        destruct (Z.leb_spec 0 x); [|discriminate];
        destruct (Z.ltb_spec x (2 ^ 64)); [|discriminate]
    end; simpl; intros [= <-]; lia.
Qed.

Lemma family_newctx_value_other caps1 caps2 f :
  family_newctx_value TARGET_OTHER caps1 f
  = family_newctx_value TARGET_OTHER caps2 f.
Proof. destruct f; reflexivity. Qed.

(** The new context of a family on any target, beside the one of the
    portable build. *)
Lemma family_newctx_value_twin t caps f :
  backend_twin (family_newctx_value t caps f)
               (family_newctx_value TARGET_OTHER caps f).
Proof.
  unfold backend_twin.
  destruct f, t; unfold family_newctx_value, SHA3_newctx_value,
    KMAC_newctx_value, KMAC_SET_MD, SHA3_SET_MD;
    try match goal with
        | |- context [S390_SHA3_CAPABLE ?c ?fc] =>
            destruct (S390_SHA3_CAPABLE c fc)
        | |- context [armv8_sha3_worth_using ?c] =>
            destruct (armv8_sha3_worth_using c)
        end;
    vm_compute; repeat split; first [reflexivity | discriminate].
Qed.

(** The final function of an extendable-output family is never the one
    that copies the digest out of the state. *)
Lemma family_xof_final t caps f blksize dgstsize :
  family_get_param f = (blksize, dgstsize, PROV_DIGEST_FLAG_XOF) ->
  final (meth (family_newctx_value t caps f)) <> Some fn_s390x_sha3_final.
Proof.
  destruct f; intros [= _ _]; try discriminate;
    destruct t; unfold family_newctx_value, SHA3_newctx_value,
      KMAC_newctx_value, KMAC_SET_MD, SHA3_SET_MD; simpl; try discriminate;
    match goal with
    | |- context [S390_SHA3_CAPABLE ?c ?fc] =>
        destruct (S390_SHA3_CAPABLE c fc)
    | |- context [armv8_sha3_worth_using ?c] =>
        destruct (armv8_sha3_worth_using c)
    end; discriminate.
Qed.

Lemma backend_twin_reset c g :
  backend_twin c g -> backend_twin (ossl_sha3_reset c) (ossl_sha3_reset g).
Proof.
  unfold backend_twin, pending. simpl.
  intros (HA & Hbs & Hmd & Hnum & Hlen & Hpend & Hmeth & Hcase).
  repeat split; auto.
Qed.

Lemma backend_twin_set_md_size c g v :
  backend_twin c g -> final (meth c) <> Some fn_s390x_sha3_final ->
  backend_twin (set_md_size c v) (set_md_size g v).
Proof.
  unfold backend_twin, pending. simpl.
  intros (HA & Hbs & Hmd & Hnum & Hlen & Hpend & Hmeth & Hcase) Hfin.
  repeat split; auto.
  destruct (absorb (meth c)) as [[| |]|], (final (meth c)) as [[| | | |]|];
    try contradiction; auto.
Qed.

Section TwinStream.

Variable F : list Z -> list Z.
Hypothesis F_lanes : forall st, length st = 25%nat -> length (F st) = 25%nat.

Lemma backend_twin_update c g inp c' g' :
  backend_twin c g -> ctx_ok c -> ctx_ok g ->
  update_post F c inp c' -> update_post F g inp g' ->
  backend_twin c' g'.
Proof.
  intros (HA & Hbs & Hmd & Hnum & Hlen & Hpend & Hmeth & Hcase) Hc Hg
    (Hsc & Hbc & Hmc & Hpc & Htc & Hokc) (Hsg & Hbg & Hmg & Hpg & Htg & Hokg).
  assert (Hs : sponge_of c' = sponge_of g').
  { rewrite Hsc, Hsg. unfold sponge_of. rewrite HA, Hpend, Hbs. reflexivity. }
  unfold sponge_of in Hs. injection Hs as HA' Hpend'.
  apply ctx_ok_unfold in Hokc as (Hlc & Hrc & Hnc & _).
  apply ctx_ok_unfold in Hokg as (Hlg & Hrg & Hng & _).
  assert (Hnum' : bufsz c' = bufsz g').
  { rewrite <- (pending_length c'), <- (pending_length g') by lia.
    rewrite Hpend'. reflexivity. }
  unfold backend_twin.
  rewrite Htc, Htg, Hpc, Hpg, Hmc, Hmg, Hbc, Hbg.
  repeat split; auto; congruence.
Qed.

Lemma backend_twin_chunks chunks : forall c g,
  backend_twin c g -> ctx_ok c -> ctx_ok g -> length (A c) = 25%nat ->
  Forall (fun inp => Z.of_nat (length inp) < 2 ^ 64) chunks ->
  exists c' g',
    keccak_update_chunks F c chunks = Some c'
    /\ keccak_update_chunks F g chunks = Some g'
    /\ backend_twin c' g' /\ ctx_ok c' /\ ctx_ok g'
    /\ length (A c') = 25%nat /\ md_size c' = md_size c.
Proof.
  induction chunks as [|inp chunks IH]; intros c g Ht Hc Hg HA Hall.
  - exists c, g. simpl.
    split; [reflexivity|]. split; [reflexivity|]. split; [exact Ht|]. auto.
  - apply Forall_cons in Hall as [Hlen Hall].
    destruct (keccak_update_spec F c inp Hc Hlen) as (c1 & Hu1 & Hp1).
    destruct (keccak_update_spec F g inp Hg Hlen) as (g1 & Hu2 & Hp2).
    pose proof (backend_twin_update _ _ _ _ _ Ht Hc Hg Hp1 Hp2) as Ht1.
    destruct Hp1 as (Hsc & _ & Hmc & _ & _ & Hokc).
    destruct Hp2 as (_ & _ & _ & _ & _ & Hokg).
    assert (HA1 : length (A c1) = 25%nat).
    { unfold sponge_of, sponge_step in Hsc. simpl in Hsc.
      injection Hsc as -> _. apply absorb_blocks_length; assumption. }
    destruct (IH c1 g1 Ht1 Hokc Hokg HA1 Hall)
      as (c' & g' & Hr1 & Hr2 & Ht' & Hc' & Hg' & HA' & Hmd').
    exists c', g'. simpl. rewrite Hu1, Hu2. simpl.
    split; [exact Hr1|]. split; [exact Hr2|]. split; [exact Ht'|].
    split; [exact Hc'|]. split; [exact Hg'|]. split; [exact HA'|].
    congruence.
Qed.

Lemma keccak_final_twin ps c g out outl outsz :
  backend_twin c g -> ctx_ok c -> ctx_ok g -> length (A c) = 25%nat ->
  0 <= md_size c < 2 ^ 64 ->
  keccak_final_output (keccak_final F ps c out outl outsz)
  = keccak_final_output (keccak_final F ps g out outl outsz).
Proof.
  intros Ht Hc Hg HA Hmd. unfold keccak_final.
  destruct (ossl_prov_is_running ps) eqn:Hrun; simpl; [|reflexivity].
  destruct (outsz >? 0).
  - pose proof (call_final_twin F F_lanes ps out c g Hc Hg Ht HA Hmd Hrun)
      as Hag.
    destruct (call_final F (final (meth c)) ps out c) as [[[r1 o1] c1]|],
      (call_final F (final (meth g)) ps out g) as [[[r2 o2] g1]|];
      simpl in *; try contradiction; [|reflexivity].
    destruct Hag as (-> & -> & ->). reflexivity.
  - simpl. destruct Ht as (_ & _ & -> & _). reflexivity.
Qed.

(** From the new context of a family through the init function of its
    table, on any target and on the portable one. *)
Lemma family_digest_init_twin t caps f ps params :
  ossl_prov_is_running ps = true ->
  exists r ps' c0 g0,
    family_digest_init f ps (Some (family_newctx_value t caps f)) params
    = Some (r, Some c0, ps')
    /\ family_digest_init f ps
         (Some (family_newctx_value TARGET_OTHER caps f)) params
       = Some (r, Some g0, ps')
    /\ ossl_prov_is_running ps' = true
    /\ backend_twin c0 g0 /\ ctx_ok c0 /\ ctx_ok g0
    /\ length (A c0) = 25%nat /\ 0 <= md_size c0 < 2 ^ 64.
Proof.
  intros Hrun.
  set (c := family_newctx_value t caps f).
  set (g := family_newctx_value TARGET_OTHER caps f).
  pose proof (family_newctx_value_twin t caps f) as Ht.
  pose proof (family_newctx_value_ok t caps f) as Hc.
  pose proof (family_newctx_value_ok TARGET_OTHER caps f) as Hg.
  pose proof (family_newctx_value_sizes t caps f) as Hsz.
  fold c g in Ht, Hc, Hg, Hsz.
  assert (Hmd : 0 <= md_size c < 2 ^ 64).
  { destruct f; simpl in Hsz; destruct Hsz as (_ & -> & _); vm_compute;
      split; congruence. }
  pose proof (family_xof_final t caps f) as Hxf. fold c in Hxf.
  clearbody c g.
  pose proof (backend_twin_reset _ _ Ht) as Htr.
  pose proof (ossl_sha3_reset_ok _ Hc) as Hcr.
  pose proof (ossl_sha3_reset_ok _ Hg) as Hgr.
  assert (Hfixed : exists r ps' c0 g0,
            (cg ← keccak_init ps (Some c) params;
             let '(r, vctx) := cg in Some (r, vctx, ps))
            = Some (r, Some c0, ps')
            /\ (cg ← keccak_init ps (Some g) params;
                let '(r, vctx) := cg in Some (r, vctx, ps))
               = Some (r, Some g0, ps')
            /\ ossl_prov_is_running ps' = true
            /\ backend_twin c0 g0 /\ ctx_ok c0 /\ ctx_ok g0
            /\ length (A c0) = 25%nat /\ 0 <= md_size c0 < 2 ^ 64).
  { exists 1, ps, (ossl_sha3_reset c), (ossl_sha3_reset g).
    unfold keccak_init. rewrite Hrun. simpl.
    split; [reflexivity|]. split; [reflexivity|].
        split; [first [exact Hrun | reflexivity]|]. split; [exact Htr|]. split; [exact Hcr|].
        split; [exact Hgr|]. split; [reflexivity|exact Hmd]. }
  assert (Hxof : final (meth c) <> Some fn_s390x_sha3_final ->
          exists r ps' c0 g0,
            keccak_init_params ps (Some c) params = Some (r, Some c0, ps')
            /\ keccak_init_params ps (Some g) params = Some (r, Some g0, ps')
            /\ ossl_prov_is_running ps' = true
            /\ backend_twin c0 g0 /\ ctx_ok c0 /\ ctx_ok g0
            /\ length (A c0) = 25%nat /\ 0 <= md_size c0 < 2 ^ 64).
  { intros Hfin.
    unfold keccak_init_params, keccak_init, shake_set_ctx_params.
    rewrite Hrun. simpl.
    destruct params as [l|].
    2:{ exists 1, ps, (ossl_sha3_reset c), (ossl_sha3_reset g).
        simpl. split; [reflexivity|]. split; [reflexivity|].
        split; [first [exact Hrun | reflexivity]|]. split; [exact Htr|]. split; [exact Hcr|].
        split; [exact Hgr|]. split; [reflexivity|exact Hmd]. }
    destruct (OSSL_PARAM_locate_const l OSSL_DIGEST_PARAM_XOFLEN) as [p|].
    2:{ exists 1, ps, (ossl_sha3_reset c), (ossl_sha3_reset g).
        simpl. split; [reflexivity|]. split; [reflexivity|].
        split; [first [exact Hrun | reflexivity]|]. split; [exact Htr|]. split; [exact Hcr|].
        split; [exact Hgr|]. split; [reflexivity|exact Hmd]. }
    destruct (OSSL_PARAM_get_size_t p) as [v|] eqn:Hv.
    - apply OSSL_PARAM_get_size_t_range in Hv.
      exists 1, ps, (set_md_size (ossl_sha3_reset c) v),
        (set_md_size (ossl_sha3_reset g) v).
      simpl. split; [reflexivity|]. split; [reflexivity|].
      split; [exact Hrun|].
      split; [apply backend_twin_set_md_size; [exact Htr|exact Hfin]|].
      split; [apply ctx_ok_unfold; apply ctx_ok_unfold in Hcr; exact Hcr|].
      split; [apply ctx_ok_unfold; apply ctx_ok_unfold in Hgr; exact Hgr|].
      split; [reflexivity|lia].
    - exists 0, (ERR_raise ps ERR_LIB_PROV PROV_R_FAILED_TO_GET_PARAMETER),
        (ossl_sha3_reset c), (ossl_sha3_reset g).
      simpl. split; [reflexivity|]. split; [reflexivity|].
        split; [first [exact Hrun | reflexivity]|]. split; [exact Htr|]. split; [exact Hcr|].
        split; [exact Hgr|]. split; [reflexivity|exact Hmd]. }
  destruct f; unfold family_digest_init;
    first [ exact Hfixed | apply Hxof; eapply Hxf; reflexivity ].
Qed.

(** X12.  Every target computes the digest of the portable code.  For
    each of the twelve families and any two builds (target and CPU
    capabilities), on a running provider: the init function of the
    family's table, given the same parameters, returns the same status on
    both; the same chunks, each of a length that fits [size_t], are taken
    by [keccak_update] on both; and [keccak_final] then reports the same
    status, the same bytes in the caller's buffer and the same [*outl] on
    both, or faults on both.  So the S390X final functions, which pad and
    squeeze through KIMD and KLMD with their own padding bytes, and the
    ARMv8 absorb function give what [generic_sha3_final] gives, for every
    message, chunking and output length. *)
Theorem every_target_computes_the_same_digest (t1 t2 : target)
    (caps1 caps2 : cpu_caps) (f : family) (ps : prov_state)
    (params : option (list OSSL_PARAM)) (chunks : list (list Z))
    (out : list Z) (outl outsz : Z) :
  ossl_prov_is_running ps = true ->
  Forall (fun inp => Z.of_nat (length inp) < 2 ^ 64) chunks ->
  exists r ps' c0 d0 c d,
    family_digest_init f ps (Some (family_newctx_value t1 caps1 f)) params
    = Some (r, Some c0, ps')
    /\ family_digest_init f ps (Some (family_newctx_value t2 caps2 f)) params
       = Some (r, Some d0, ps')
    /\ keccak_update_chunks F c0 chunks = Some c
    /\ keccak_update_chunks F d0 chunks = Some d
    /\ keccak_final_output (keccak_final F ps' c out outl outsz)
       = keccak_final_output (keccak_final F ps' d out outl outsz).
Proof.
  intros Hrun Hall.
  destruct (family_digest_init_twin t1 caps1 f ps params Hrun)
    as (r & ps' & c0 & g0 & Hi1 & Hg1 & Hrun' & Ht1 & Hc1 & Hgo1 & HA1 & Hmd1).
  destruct (family_digest_init_twin t2 caps2 f ps params Hrun)
    as (r2 & ps2 & d0 & g2 & Hi2 & Hg2 & _ & Ht2 & Hc2 & Hgo2 & HA2 & Hmd2).
  rewrite (family_newctx_value_other caps2 caps1), Hg1 in Hg2.
  injection Hg2 as <- <- <-.
  destruct (backend_twin_chunks chunks c0 g0 Ht1 Hc1 Hgo1 HA1 Hall)
    as (c & g & Hr1 & Hrg & Htc & Hcc & Hgc & HAc & Hmc).
  destruct (backend_twin_chunks chunks d0 g0 Ht2 Hc2 Hgo2 HA2 Hall)
    as (d & g' & Hr2 & Hrg' & Htd & Hcd & Hgd & HAd & Hmdd).
  rewrite Hrg in Hrg'. injection Hrg' as <-.
  exists r, ps', c0, d0, c, d.
  split; [exact Hi1|]. split; [exact Hi2|].
  split; [exact Hr1|]. split; [exact Hr2|].
  rewrite (keccak_final_twin ps' c g) by (try assumption; lia).
  rewrite (keccak_final_twin ps' d g) by (try assumption; lia).
  reflexivity.
Qed.

End TwinStream.


(** ** The secure heap *)

Lemma secure_heap_calls_app flag calls1 calls2 :
  secure_heap_calls flag (calls1 ++ calls2)
  = let '(rets1, flag1) := secure_heap_calls flag calls1 in
    let '(rets2, flag2) := secure_heap_calls flag1 calls2 in
    (rets1 ++ rets2, flag2).
Proof.
  revert flag. induction calls1 as [|c calls1 IH]; intros flag; simpl.
  - destruct (secure_heap_calls flag calls2); reflexivity.
  - destruct c; simpl; rewrite IH;
      destruct (secure_heap_calls _ calls1) as [r1 f1];
      destruct (secure_heap_calls f1 calls2); reflexivity.
Qed.

(** X13.  The initialized flag of the secure heap follows the last call.
    After any sequence of [CRYPTO_secure_malloc_init] and
    [CRYPTO_secure_malloc_done], from any value of the flag: every call has
    returned 0, whatever sizes were passed, and
    [CRYPTO_secure_malloc_initialized] reports 1 when the last call was an
    init, 0 when it was a done, and the starting value when there was no
    call. *)
Theorem secure_heap_flag_follows_last_call (secure_mem_initialized : Z)
    (calls : list secure_heap_call) :
  let '(rets, flag) := secure_heap_calls secure_mem_initialized calls in
  rets = replicate (length calls) 0
  /\ CRYPTO_secure_malloc_initialized flag
     = match last calls with
       | Some (call_secure_malloc_init _ _) => 1
       | Some call_secure_malloc_done => 0
       | None => secure_mem_initialized
       end.
Proof.
  induction calls as [|c calls IH] using rev_ind; simpl; [auto|].
  rewrite secure_heap_calls_app, last_snoc, length_app.
  destruct (secure_heap_calls secure_mem_initialized calls) as [rets flag].
  destruct IH as [-> _].
  rewrite replicate_add. destruct c; simpl; auto.
Qed.

(** X14.  [CRYPTO_secure_allocated] tells the blocks of the secure heap
    apart.  For a block of positive size that [CRYPTO_secure_malloc] has
    just returned: the pointer was not reported as allocated before, it is
    afterwards, and after [CRYPTO_secure_free] it is not any more and the
    memory is back; [NULL] is never reported as allocated; and
    [CRYPTO_secure_used] and [CRYPTO_secure_actual_size] report 0 all
    along, for the live block too. *)
Theorem secure_allocated_tracks_blocks (m m' : mem) (num : Z)
    (p : positive) (file : string) (line : Z) :
  0 < num ->
  CRYPTO_secure_malloc m num file line = (Some p, m') ->
  CRYPTO_secure_allocated m (Some p) = 0
  /\ CRYPTO_secure_allocated m' (Some p) = 1
  /\ CRYPTO_secure_allocated m' None = 0
  /\ CRYPTO_secure_actual_size (Some p) = 0
  /\ CRYPTO_secure_used = 0
  /\ exists m'',
       CRYPTO_secure_free m' (Some p) file line = Some m''
       /\ CRYPTO_secure_allocated m'' (Some p) = 0
       /\ avail m'' = avail m
       /\ forall q, q <> p -> blocks m'' !! q = blocks m !! q.
Proof.
  intros Hnum. unfold CRYPTO_secure_malloc, zhard_alloc, mem_alloc.
  destruct (Z.leb_spec 0 num); [|lia].
  destruct (Z.leb_spec num (avail m)); cbn [andb]; [|discriminate].
  intros [= <- <-].
  assert (Hfresh : blocks m !! fresh (dom (blocks m)) = None)
    by apply not_elem_of_dom, is_fresh.
  set (p := fresh (dom (blocks m))) in *.
  set (b := mk_block (replicate (Z.to_nat num) 0) true).
  assert (Hb : <[p := b]> (blocks m) !! p = Some b) by apply lookup_insert_eq.
  split; [|split; [|split; [|split; [|split]]]]; try reflexivity.
  - unfold CRYPTO_secure_allocated, zhard_getallocsize. rewrite Hfresh.
    reflexivity.
  - unfold CRYPTO_secure_allocated, zhard_getallocsize. cbn [blocks].
    rewrite Hb. simpl. rewrite length_replicate.
    destruct (Z.eqb_spec (Z.of_nat (Z.to_nat num)) 0); [lia|reflexivity].
  - unfold CRYPTO_secure_free.
    rewrite (zhard_free_wipes
               (mk_mem (<[p := b]> (blocks m)) (avail m - num)) p b Hb eq_refl).
    eexists. split; [reflexivity|].
    unfold CRYPTO_secure_allocated, zhard_getallocsize. cbn [blocks avail].
    rewrite lookup_insert_eq. cbn [live bytes b].
    rewrite length_replicate.
    split; [reflexivity|]. split; [lia|].
    intros q Hq. rewrite insert_insert_eq. apply lookup_insert_ne. congruence.
Qed.

(** ** Key exchange: contexts, references *)

Lemma ecx_holders_comm (k : positive) (j1 j2 : positive)
    (z1 z2 : PROV_ECX_CTX.t) (y : Z) :
  y + ecx_ctx_uses z2 k + ecx_ctx_uses z1 k
  = y + ecx_ctx_uses z1 k + ecx_ctx_uses z2 k.
Proof. lia. Qed.

Lemma ecx_holders_insert_fresh cs p c k :
  cs !! p = None ->
  ecx_holders (<[p := c]> cs) k = ecx_holders cs k + ecx_ctx_uses c k.
Proof.
  intros Hp. unfold ecx_holders.
  rewrite map_fold_insert_L; [reflexivity| |exact Hp].
  intros. lia.
Qed.

Lemma ecx_holders_delete cs p c k :
  cs !! p = Some c ->
  ecx_holders cs k = ecx_holders (delete p cs) k + ecx_ctx_uses c k.
Proof.
  intros Hp. unfold ecx_holders.
  rewrite (map_fold_delete_L _ _ p c cs); [reflexivity| |exact Hp].
  intros. lia.
Qed.

Lemma ecx_holders_insert cs p c0 c k :
  cs !! p = Some c0 ->
  ecx_holders (<[p := c]> cs) k
  = ecx_holders cs k - ecx_ctx_uses c0 k + ecx_ctx_uses c k.
Proof.
  intros Hp. rewrite <- insert_delete_eq.
  rewrite ecx_holders_insert_fresh by apply lookup_delete_eq.
  rewrite (ecx_holders_delete cs p c0 k Hp). lia.
Qed.

Lemma ecx_ctx_uses_bounds c k : 0 <= ecx_ctx_uses c k <= 2.
Proof. unfold ecx_ctx_uses, ecx_points_to. repeat destruct (decide _); lia. Qed.

Lemma ecx_holders_nonneg cs k : 0 <= ecx_holders cs k.
Proof.
  unfold ecx_holders.
  apply (map_fold_weak_ind (fun n _ => 0 <= n)); [lia|].
  intros i c m n _ Hn. pose proof (ecx_ctx_uses_bounds c k). lia.
Qed.

Lemma ecx_holders_lookup cs p c k :
  cs !! p = Some c -> ecx_ctx_uses c k <= ecx_holders cs k.
Proof.
  intros Hp. rewrite (ecx_holders_delete cs p c k Hp).
  pose proof (ecx_holders_nonneg (delete p cs) k). lia.
Qed.


Lemma ecx_holders_unused cs k :
  (forall p c, cs !! p = Some c -> ecx_ctx_uses c k = 0) ->
  ecx_holders cs k = 0.
Proof.
  unfold ecx_holders.
  apply (map_fold_weak_ind
           (fun n m => (forall p c, m !! p = Some c -> ecx_ctx_uses c k = 0)
                       -> n = 0)); [reflexivity|].
  intros i c m n Hi IH Hall.
  rewrite IH.
  - rewrite (Hall i c); [reflexivity|apply lookup_insert_eq].
  - intros p c' Hp. apply (Hall p).
    rewrite lookup_insert_ne; [exact Hp|congruence].
Qed.

Lemma ecx_refs_lookup ks k key :
  ks !! k = Some key -> ecx_refs ks k = ECX_KEY.references key.
Proof. intros H. unfold ecx_refs. rewrite H. reflexivity. Qed.

(** The invariant, key by key. *)
Lemma ecx_refs_ok_alt w :
  ecx_refs_ok w <->
  (forall k, ecx_holders (ctxs w) k <= ecx_refs (keys w) k)
  /\ (forall k key, keys w !! k = Some key -> 1 <= ECX_KEY.references key).
Proof.
  unfold ecx_refs_ok. rewrite !map_Forall_lookup. split.
  - intros [Hk Hc]. split.
    + intros k. unfold ecx_refs.
      destruct (keys w !! k) as [key|] eqn:E; [apply (Hk k key E)|].
      rewrite ecx_holders_unused; [lia|].
      intros p c Hp. destruct (Hc p c Hp) as [H1 H2].
      unfold ecx_ctx_uses, ecx_points_to, ecx_ptr_ok in *.
      repeat destruct (decide _); try lia;
        match goal with
        | H : _ = Some k |- _ => rewrite H in *
        end;
        match goal with
        | H : is_Some (keys w !! k) |- _ => rewrite E in H; destruct H; discriminate
        end.
    + intros k key E. apply (Hk k key E).
  - intros [Hh Hr]. split.
    + intros k key E. split; [apply (Hr k key E)|].
      rewrite <- (ecx_refs_lookup _ _ _ E). apply Hh.
    + intros p c Hp.
      assert (Hptr : forall k, 1 <= ecx_ctx_uses c k -> is_Some (keys w !! k)).
      { intros k Hu. pose proof (ecx_holders_lookup _ _ _ k Hp) as Hl.
        pose proof (Hh k) as Hk. unfold ecx_refs in Hk.
        destruct (keys w !! k); [eauto|lia]. }
      unfold ecx_ptr_ok. split.
      * destruct (PROV_ECX_CTX.key c) as [k|] eqn:E; [|exact I].
        apply Hptr. unfold ecx_ctx_uses, ecx_points_to. rewrite E.
        destruct (decide (Some k = Some k)); [|congruence].
        destruct (decide _); lia.
      * destruct (PROV_ECX_CTX.peerkey c) as [k|] eqn:E; [|exact I].
        apply Hptr. unfold ecx_ctx_uses, ecx_points_to. rewrite E.
        destruct (decide (Some k = Some k)); [|congruence].
        destruct (decide _); lia.
Qed.

(** One more reference: [ossl_ecx_key_up_ref] on a key that is alive. *)
Lemma ossl_ecx_key_up_ref_alive ks k key :
  ks !! k = Some key -> 1 <= ECX_KEY.references key ->
  ossl_ecx_key_up_ref ks k
  = Some (1, <[k := ECX_KEY.mk (ECX_KEY.keylen key)
                               (ECX_KEY.references key + 1)]> ks).
Proof.
  intros Hk Hr. unfold ossl_ecx_key_up_ref. rewrite Hk. simpl.
  destruct (Z.gtb_spec (ECX_KEY.references key + 1) 1); [reflexivity|lia].
Qed.

(** One reference less: [ossl_ecx_key_free] on a key that has another. *)
Lemma ossl_ecx_key_free_shared ks k key :
  ks !! k = Some key -> 2 <= ECX_KEY.references key ->
  ossl_ecx_key_free ks (Some k)
  = Some (<[k := ECX_KEY.mk (ECX_KEY.keylen key)
                            (ECX_KEY.references key - 1)]> ks).
Proof.
  intros Hk Hr. unfold ossl_ecx_key_free. rewrite Hk. simpl.
  destruct (Z.gtb_spec (ECX_KEY.references key - 1) 0); [reflexivity|lia].
Qed.

Lemma ecx_refs_insert ks k key k' :
  ecx_refs (<[k := key]> ks) k'
  = if decide (k = k') then ECX_KEY.references key else ecx_refs ks k'.
Proof.
  unfold ecx_refs. destruct (decide (k = k')) as [->|Hne].
  - rewrite lookup_insert_eq. reflexivity.
  - rewrite lookup_insert_ne by exact Hne. reflexivity.
Qed.

Lemma ecx_refs_delete ks k k' :
  ecx_refs (delete k ks) k' = if decide (k = k') then 0 else ecx_refs ks k'.
Proof.
  unfold ecx_refs. destruct (decide (k = k')) as [->|Hne].
  - rewrite lookup_delete_eq. reflexivity.
  - rewrite lookup_delete_ne by exact Hne. reflexivity.
Qed.

Lemma up_ref_counts ks k0 :
  ecx_alive ks -> is_Some (ks !! k0) ->
  exists ks1,
    ossl_ecx_key_up_ref ks k0 = Some (1, ks1)
    /\ ecx_alive ks1
    /\ forall k, ecx_refs ks1 k = ecx_refs ks k + ecx_points_to (Some k0) k.
Proof.
  intros Hal [key Hk]. pose proof (Hal _ _ Hk) as Hr.
  rewrite (ossl_ecx_key_up_ref_alive _ _ _ Hk Hr).
  eexists. split; [reflexivity|]. split.
  - intros k key'. destruct (decide (k0 = k)) as [->|Hne].
    + rewrite lookup_insert_eq. intros [= <-]. simpl. lia.
    + rewrite lookup_insert_ne by exact Hne. apply Hal.
  - intros k. rewrite ecx_refs_insert. unfold ecx_points_to.
    destruct (decide (k0 = k)) as [->|Hne].
    + rewrite (ecx_refs_lookup _ _ _ Hk).
      destruct (decide (Some k = Some k)); [simpl; lia|congruence].
    + destruct (decide (Some k0 = Some k)); [congruence|lia].
Qed.

Lemma key_free_counts ks ptr :
  ecx_alive ks -> (forall k, ptr = Some k -> 1 <= ecx_refs ks k) ->
  exists ks1,
    ossl_ecx_key_free ks ptr = Some ks1
    /\ ecx_alive ks1
    /\ forall k, ecx_refs ks1 k = ecx_refs ks k - ecx_points_to ptr k.
Proof.
  intros Hal Hptr. destruct ptr as [k0|]; simpl.
  2:{ exists ks. split; [reflexivity|]. split; [exact Hal|].
      intros k. unfold ecx_points_to. destruct (decide _); [discriminate|lia]. }
  pose proof (Hptr k0 eq_refl) as H1. unfold ecx_refs in H1.
  destruct (ks !! k0) as [key|] eqn:Hk; [|lia]. simpl.
  destruct (Z.gtb_spec (ECX_KEY.references key - 1) 0) as [Hgt|Hle].
  - eexists. split; [reflexivity|]. split.
    + intros k key'. destruct (decide (k0 = k)) as [->|Hne].
      * rewrite lookup_insert_eq. intros [= <-]. simpl. lia.
      * rewrite lookup_insert_ne by exact Hne. apply Hal.
    + intros k. rewrite ecx_refs_insert. unfold ecx_points_to.
      destruct (decide (k0 = k)) as [->|Hne].
      * rewrite (ecx_refs_lookup _ _ _ Hk).
        destruct (decide (Some k = Some k)); [simpl; lia|congruence].
      * destruct (decide (Some k0 = Some k)); [congruence|lia].
  - eexists. split; [reflexivity|]. split.
    + intros k key'. rewrite lookup_delete_Some. intros [_ H]. eapply Hal, H.
    + intros k. rewrite ecx_refs_delete. unfold ecx_points_to.
      destruct (decide (k0 = k)) as [->|Hne].
      * rewrite (ecx_refs_lookup _ _ _ Hk).
        destruct (decide (Some k = Some k)); [lia|congruence].
      * destruct (decide (Some k0 = Some k)); [congruence|lia].
Qed.

Lemma ecx_ctx_uses_points c k :
  ecx_ctx_uses c k
  = ecx_points_to (PROV_ECX_CTX.key c) k + ecx_points_to (PROV_ECX_CTX.peerkey c) k.
Proof. reflexivity. Qed.

Lemma ecx_points_to_self k : ecx_points_to (Some k) k = 1.
Proof. unfold ecx_points_to. destruct (decide _); [reflexivity|congruence]. Qed.

Lemma ecx_points_to_bounds ptr k : 0 <= ecx_points_to ptr k <= 1.
Proof. unfold ecx_points_to. destruct (decide _); lia. Qed.


(** Installing [key] in a field of the context at [ecxctx] that held [old]:
    the reference taken and the reference given back keep the counts in
    step with the pointers. *)
Lemma ecx_install_counts w ecxctx key c c' old (rest : positive -> Z) :
  ecx_refs_ok w ->
  ctxs w !! ecxctx = Some c -> is_Some (keys w !! key) ->
  (forall k, 0 <= rest k) ->
  (forall k, ecx_ctx_uses c k = ecx_points_to old k + rest k) ->
  (forall k, ecx_ctx_uses c' k = ecx_points_to (Some key) k + rest k) ->
  exists ks1 ks2,
    ossl_ecx_key_up_ref (keys w) key = Some (1, ks1)
    /\ ossl_ecx_key_free ks1 old = Some ks2
    /\ ecx_refs_ok (mk_ecx_world (prov w) ks2 (<[ecxctx := c']> (ctxs w))
                                 (heap_left w)).
Proof.
  intros Hok Hc Hkey Hrest Hu Hu'.
  apply ecx_refs_ok_alt in Hok as [Hh Hal].
  destruct (up_ref_counts _ _ Hal Hkey) as (ks1 & Hup & Hal1 & Hr1).
  destruct (key_free_counts ks1 old Hal1) as (ks2 & Hfree & Hal2 & Hr2).
  { intros k ->. rewrite Hr1.
    pose proof (Hh k). pose proof (ecx_holders_lookup _ _ _ k Hc).
    pose proof (Hu k). pose proof (Hrest k).
    pose proof (ecx_points_to_bounds (Some key) k).
    rewrite ecx_points_to_self in *. lia. }
  exists ks1, ks2. split; [exact Hup|]. split; [exact Hfree|].
  apply ecx_refs_ok_alt. simpl. split; [|exact Hal2].
  intros k. rewrite (ecx_holders_insert _ _ c) by exact Hc.
  rewrite Hr2, Hr1, Hu, Hu'. pose proof (Hh k). lia.
Qed.

Lemma ecx_refs_ok_err w lib r :
  ecx_refs_ok w -> ecx_refs_ok (ecx_set_prov w (ERR_raise (prov w) lib r)).
Proof. intros H. exact H. Qed.

Lemma ecx_init_refs_ok w vecxctx vkey params r w' :
  ecx_refs_ok w -> ecx_init w vecxctx vkey params = Some (r, w') ->
  ecx_refs_ok w'.
Proof.
  intros Hok. unfold ecx_init, ecx_fail.
  destruct (negb _); [intros [= <- <-]; exact Hok|].
  destruct vecxctx as [ecxctx|], vkey as [key|];
    try (intros [= <- <-]; exact Hok).
  destruct (ctxs w !! ecxctx) as [c|] eqn:Hc; simpl; [|discriminate].
  destruct (keys w !! key) as [k|] eqn:Hk; simpl; [|discriminate].
  destruct (negb _); [intros [= <- <-]; exact Hok|].
  destruct (ecx_install_counts w ecxctx key c
              (PROV_ECX_CTX.mk (PROV_ECX_CTX.keylen c) (Some key)
                 (PROV_ECX_CTX.peerkey c))
              (PROV_ECX_CTX.key c)
              (ecx_points_to (PROV_ECX_CTX.peerkey c)) Hok Hc)
    as (ks1 & ks2 & -> & Hfree & Hok'); eauto.
  { intros. apply ecx_points_to_bounds. }
  simpl. rewrite Hfree. simpl. intros [= <- <-]. exact Hok'.
Qed.

Lemma ecx_set_peer_refs_ok w vecxctx vkey r w' :
  ecx_refs_ok w -> ecx_set_peer w vecxctx vkey = Some (r, w') ->
  ecx_refs_ok w'.
Proof.
  intros Hok. unfold ecx_set_peer, ecx_fail.
  destruct (negb _); [intros [= <- <-]; exact Hok|].
  destruct vecxctx as [ecxctx|], vkey as [key|];
    try (intros [= <- <-]; exact Hok).
  destruct (ctxs w !! ecxctx) as [c|] eqn:Hc; simpl; [|discriminate].
  destruct (keys w !! key) as [k|] eqn:Hk; simpl; [|discriminate].
  destruct (negb _); [intros [= <- <-]; exact Hok|].
  destruct (ecx_install_counts w ecxctx key c
              (PROV_ECX_CTX.mk (PROV_ECX_CTX.keylen c) (PROV_ECX_CTX.key c)
                 (Some key))
              (PROV_ECX_CTX.peerkey c)
              (ecx_points_to (PROV_ECX_CTX.key c)) Hok Hc)
    as (ks1 & ks2 & -> & Hfree & Hok'); eauto.
  { intros. apply ecx_points_to_bounds. }
  { intros. unfold ecx_ctx_uses. lia. }
  { intros. unfold ecx_ctx_uses. simpl. lia. }
  simpl. rewrite Hfree. simpl. intros [= <- <-]. exact Hok'.
Qed.

Lemma ecx_newctx_refs_ok w keylen p w' :
  ecx_refs_ok w -> ecx_newctx w keylen = (p, w') -> ecx_refs_ok w'.
Proof.
  intros Hok. unfold ecx_newctx.
  destruct (negb _); [intros [= <- <-]; exact Hok|].
  destruct (_ <=? _); [|intros [= <- <-]; exact Hok].
  intros [= <- <-].
  apply ecx_refs_ok_alt in Hok as [Hh Hal].
  apply ecx_refs_ok_alt. simpl. split; [|exact Hal].
  intros k. rewrite ecx_holders_insert_fresh by apply not_elem_of_dom, is_fresh.
  pose proof (Hh k). unfold ecx_ctx_uses, ecx_points_to. simpl.
  repeat destruct (decide _); try discriminate. lia.
Qed.

(** Releasing the two references of a context and the context itself. *)
Lemma ecx_freectx_counts w ecxctx c :
  ecx_refs_ok w -> ctxs w !! ecxctx = Some c ->
  exists ks1 ks2,
    ossl_ecx_key_free (keys w) (PROV_ECX_CTX.key c) = Some ks1
    /\ ossl_ecx_key_free ks1 (PROV_ECX_CTX.peerkey c) = Some ks2
    /\ ecx_freectx w (Some ecxctx)
       = Some (mk_ecx_world (prov w) ks2 (delete ecxctx (ctxs w))
                            (heap_left w + sizeof_PROV_ECX_CTX))
    /\ (forall k, ecx_refs ks2 k = ecx_refs (keys w) k - ecx_ctx_uses c k)
    /\ ecx_alive ks2.
Proof.
  intros Hok Hc. apply ecx_refs_ok_alt in Hok as [Hh Hal].
  assert (Hge : forall k, ecx_ctx_uses c k <= ecx_refs (keys w) k).
  { intros k. pose proof (Hh k). pose proof (ecx_holders_lookup _ _ _ k Hc). lia. }
  destruct (key_free_counts (keys w) (PROV_ECX_CTX.key c) Hal)
    as (ks1 & Hf1 & Hal1 & Hr1).
  { intros k E. pose proof (Hge k) as H. unfold ecx_ctx_uses in H.
    rewrite E, ecx_points_to_self in H.
    pose proof (ecx_points_to_bounds (PROV_ECX_CTX.peerkey c) k). lia. }
  destruct (key_free_counts ks1 (PROV_ECX_CTX.peerkey c) Hal1)
    as (ks2 & Hf2 & Hal2 & Hr2).
  { intros k E. rewrite Hr1. pose proof (Hge k) as H. unfold ecx_ctx_uses in H.
    rewrite E, ecx_points_to_self in H. lia. }
  exists ks1, ks2. split; [exact Hf1|]. split; [exact Hf2|].
  split; [|split; [|exact Hal2]].
  - unfold ecx_freectx. simpl. rewrite Hc. simpl. rewrite Hf1. simpl.
    rewrite Hf2. reflexivity.
  - intros k. rewrite Hr2, Hr1. unfold ecx_ctx_uses. lia.
Qed.

Lemma ecx_freectx_refs_ok w vecxctx w' :
  ecx_refs_ok w -> ecx_freectx w vecxctx = Some w' -> ecx_refs_ok w'.
Proof.
  intros Hok Hrun.
  destruct vecxctx as [ecxctx|]; [|discriminate].
  destruct (ctxs w !! ecxctx) as [c|] eqn:Hc;
    [|unfold ecx_freectx in Hrun; simpl in Hrun; rewrite Hc in Hrun;
      discriminate].
  destruct (ecx_freectx_counts w ecxctx c Hok Hc)
    as (ks1 & ks2 & _ & _ & Hrun' & Hr & Hal).
  rewrite Hrun' in Hrun. injection Hrun as <-.
  apply ecx_refs_ok_alt in Hok as [Hh _].
  apply ecx_refs_ok_alt. simpl. split; [|exact Hal].
  intros k. rewrite Hr. pose proof (Hh k).
  rewrite (ecx_holders_delete _ _ _ k Hc) in *. lia.
Qed.

(** Copying a context and taking one reference per key field. *)
Lemma ecx_dupctx_counts w srcctx c :
  ecx_refs_ok w -> ossl_prov_is_running (prov w) = true ->
  sizeof_PROV_ECX_CTX <= heap_left w ->
  ctxs w !! srcctx = Some c ->
  let dstctx := fresh (dom (ctxs w)) in
  exists ks,
    ecx_dupctx w (Some srcctx)
    = Some (Some dstctx,
            mk_ecx_world (prov w) ks (<[dstctx := c]> (ctxs w))
                         (heap_left w - sizeof_PROV_ECX_CTX))
    /\ ctxs w !! dstctx = None
    /\ (forall k, ecx_refs ks k = ecx_refs (keys w) k + ecx_ctx_uses c k)
    /\ ecx_alive ks
    /\ (forall k key, keys w !! k = Some key ->
          ks !! k = Some (ECX_KEY.mk (ECX_KEY.keylen key)
                            (ECX_KEY.references key + ecx_ctx_uses c k)))
    /\ dom ks = dom (keys w).
Proof.
  intros Hok Hrun Hheap Hc dstctx.
  assert (Hfresh : ctxs w !! dstctx = None) by apply not_elem_of_dom, is_fresh.
  assert (Hne : dstctx <> srcctx) by congruence.
  pose proof Hok as [_ Hptr]. apply ecx_refs_ok_alt in Hok as [Hh Hal].
  destruct (Hptr srcctx c Hc) as [Hp1 Hp2].
  unfold ecx_dupctx. rewrite Hrun. simpl.
  destruct (Z.leb_spec sizeof_PROV_ECX_CTX (heap_left w)); [|lia].
  fold dstctx. simpl.
  rewrite lookup_insert_ne by exact Hne. rewrite Hc. simpl.
  rewrite insert_insert_eq.
  unfold ecx_up_ref_fails at 1. simpl.
  assert (Hstep : forall ks0 ptr, ecx_alive ks0 -> ecx_ptr_ok ks0 ptr ->
            dom ks0 = dom (keys w) ->
            exists ks1,
              (match ptr with
               | Some k => '(ok, ks') ← ossl_ecx_key_up_ref ks0 k;
                           Some (ok =? 0, ks')
               | None => Some (false, ks0)
               end) = Some (false, ks1)
              /\ ecx_alive ks1
              /\ (forall k, ecx_refs ks1 k = ecx_refs ks0 k + ecx_points_to ptr k)
              /\ (forall k key, ks0 !! k = Some key ->
                    ks1 !! k = Some (ECX_KEY.mk (ECX_KEY.keylen key)
                                 (ECX_KEY.references key + ecx_points_to ptr k)))
              /\ dom ks1 = dom (keys w)).
  { intros ks0 [k0|] Hal0 Hp0 Hdom; simpl in *.
    - destruct Hp0 as [key0 Hk0]. pose proof (Hal0 _ _ Hk0) as Hr0.
      rewrite (ossl_ecx_key_up_ref_alive _ _ _ Hk0 Hr0). simpl.
      eexists. split; [reflexivity|].
      destruct (up_ref_counts ks0 k0 Hal0 (ex_intro _ key0 Hk0))
        as (ks1 & Hup & Hal1 & Hr1).
      rewrite (ossl_ecx_key_up_ref_alive _ _ _ Hk0 Hr0) in Hup.
      injection Hup as <-.
      split; [exact Hal1|]. split; [exact Hr1|]. split.
      + intros k key Hk. unfold ecx_points_to.
        destruct (decide (Some k0 = Some k)) as [[= ->]|Hn].
        * rewrite lookup_insert_eq. congruence.
        * rewrite lookup_insert_ne by congruence. rewrite Hk.
          destruct key; simpl. repeat f_equal. lia.
      + rewrite dom_insert_lookup_L by eauto. exact Hdom.
    - exists ks0. split; [reflexivity|]. split; [exact Hal0|].
      unfold ecx_points_to. split; [|split; [|exact Hdom]].
      + intros k. destruct (decide _); [discriminate|lia].
      + intros k key Hk. rewrite Hk. destruct (decide _); [discriminate|].
        destruct key; simpl. repeat f_equal. lia. }
  destruct (Hstep (keys w) (PROV_ECX_CTX.key c) Hal Hp1 eq_refl)
    as (ks1 & E1 & Hal1 & Hr1 & Hl1 & Hd1).
  assert (Hp2' : ecx_ptr_ok ks1 (PROV_ECX_CTX.peerkey c)).
  { unfold ecx_ptr_ok in *. destruct (PROV_ECX_CTX.peerkey c) as [k|]; [|exact I].
    apply elem_of_dom. rewrite Hd1. apply elem_of_dom. exact Hp2. }
  destruct (Hstep ks1 (PROV_ECX_CTX.peerkey c) Hal1 Hp2' Hd1)
    as (ks2 & E2 & Hal2 & Hr2 & Hl2 & Hd2).
  exists ks2.
  split.
  - unfold ecx_up_ref_fails. simpl.
    destruct (PROV_ECX_CTX.key c) as [k1|]; simpl in *.
    + destruct (ossl_ecx_key_up_ref (keys w) k1) as [[ok1 ks1']|]; simpl in *;
        [|discriminate].
      injection E1 as -> ->. simpl.
      destruct (PROV_ECX_CTX.peerkey c) as [k2|]; simpl in *.
      * destruct (ossl_ecx_key_up_ref ks1 k2) as [[ok2 ks2']|]; simpl in *;
          [|discriminate].
        injection E2 as -> ->. reflexivity.
      * injection E2 as ->. reflexivity.
    + injection E1 as ->.
      destruct (PROV_ECX_CTX.peerkey c) as [k2|]; simpl in *.
      * destruct (ossl_ecx_key_up_ref ks1 k2) as [[ok2 ks2']|]; simpl in *;
          [|discriminate].
        injection E2 as -> ->. reflexivity.
      * injection E2 as ->. reflexivity.
  - split; [exact Hfresh|]. split; [|split; [exact Hal2|split; [|exact Hd2]]].
    + intros k. rewrite Hr2, Hr1. unfold ecx_ctx_uses. lia.
    + intros k key Hk. rewrite (Hl2 k _ (Hl1 k key Hk)). simpl.
      unfold ecx_ctx_uses. do 2 f_equal. lia.
Qed.


Lemma ecx_dupctx_refs_ok w vecxctx p w' :
  ecx_refs_ok w -> ecx_dupctx w vecxctx = Some (p, w') -> ecx_refs_ok w'.
Proof.
  intros Hok Hrun.
  destruct (ossl_prov_is_running (prov w)) eqn:Hr;
    [|unfold ecx_dupctx in Hrun; rewrite Hr in Hrun; simpl in Hrun;
      injection Hrun as <- <-; exact Hok].
  destruct (Z.leb_spec sizeof_PROV_ECX_CTX (heap_left w)) as [Hh|Hh];
    [|unfold ecx_dupctx in Hrun; rewrite Hr in Hrun; simpl in Hrun;
      destruct (Z.leb_spec sizeof_PROV_ECX_CTX (heap_left w)); [lia|];
      injection Hrun as <- <-; exact Hok].
  destruct vecxctx as [srcctx|];
    [|unfold ecx_dupctx in Hrun; rewrite Hr in Hrun; simpl in Hrun;
      destruct (Z.leb_spec sizeof_PROV_ECX_CTX (heap_left w));
      [discriminate|lia]].
  destruct (ctxs w !! srcctx) as [c|] eqn:Hc.
  - destruct (ecx_dupctx_counts w srcctx c Hok Hr Hh Hc)
      as (ks & Hrun' & Hfresh & Hrefs & Hal & _).
    rewrite Hrun' in Hrun. injection Hrun as <- <-.
    apply ecx_refs_ok_alt in Hok as [Hhold _].
    apply ecx_refs_ok_alt. simpl. split; [|exact Hal].
    intros k. rewrite ecx_holders_insert_fresh by exact Hfresh.
    rewrite Hrefs. pose proof (Hhold k). lia.
  - unfold ecx_dupctx in Hrun. rewrite Hr in Hrun. simpl in Hrun.
    destruct (Z.leb_spec sizeof_PROV_ECX_CTX (heap_left w)); [|lia].
    simpl in Hrun.
    destruct (decide (fresh (dom (ctxs w)) = srcctx)) as [E|E].
    + rewrite E, lookup_insert_eq in Hrun. simpl in Hrun.
      injection Hrun as <- <-.
      apply ecx_refs_ok_alt in Hok as [Hhold Hal].
      apply ecx_refs_ok_alt. simpl. split; [|exact Hal].
      intros k. rewrite insert_insert_eq.
      rewrite ecx_holders_insert_fresh by exact Hc.
      pose proof (Hhold k). unfold ecx_ctx_uses, ecx_points_to. simpl.
      repeat destruct (decide _); try discriminate. lia.
    + rewrite lookup_insert_ne, Hc in Hrun by exact E. discriminate.
Qed.

(** X15.  The reference counts stay in step with the pointers.  In a world
    where every key has at least one reference and at least as many as
    there are context fields pointing to it, and no context points to a
    released key, whatever [ecx_newctx], [ecx_init], [ecx_set_peer],
    [ecx_dupctx] and [ecx_freectx] return leaves a world of that kind
    again. *)
Theorem ecx_refs_ok_preserved (w : ecx_world) :
  ecx_refs_ok w ->
  (forall keylen p w', ecx_newctx w keylen = (p, w') -> ecx_refs_ok w')
  /\ (forall vecxctx vkey params r w',
        ecx_init w vecxctx vkey params = Some (r, w') -> ecx_refs_ok w')
  /\ (forall vecxctx vkey r w',
        ecx_set_peer w vecxctx vkey = Some (r, w') -> ecx_refs_ok w')
  /\ (forall vecxctx p w',
        ecx_dupctx w vecxctx = Some (p, w') -> ecx_refs_ok w')
  /\ (forall vecxctx w',
        ecx_freectx w vecxctx = Some w' -> ecx_refs_ok w').
Proof.
  intros Hok. split; [|split; [|split; [|split]]]; intros.
  - eapply ecx_newctx_refs_ok; eauto.
  - eapply ecx_init_refs_ok; eauto.
  - eapply ecx_set_peer_refs_ok; eauto.
  - eapply ecx_dupctx_refs_ok; eauto.
  - eapply ecx_freectx_refs_ok; eauto.
Qed.

(** X16.  No released key is ever touched.  In such a world the entry
    points return on every live context and every live key: [ecx_init] and
    [ecx_set_peer] answer 0 or 1, [ecx_dupctx] and [ecx_freectx] complete;
    none of them reaches a key whose last reference is gone. *)
Theorem ecx_entry_points_return (w : ecx_world) (ecxctx key : positive)
    (params : option (list OSSL_PARAM)) :
  ecx_refs_ok w ->
  is_Some (ctxs w !! ecxctx) -> is_Some (keys w !! key) ->
  (exists r w', ecx_init w (Some ecxctx) (Some key) params = Some (r, w')
                /\ (r = 0 \/ r = 1))
  /\ (exists r w', ecx_set_peer w (Some ecxctx) (Some key) = Some (r, w')
                   /\ (r = 0 \/ r = 1))
  /\ (exists p w', ecx_dupctx w (Some ecxctx) = Some (p, w'))
  /\ (exists w', ecx_freectx w (Some ecxctx) = Some w').
Proof.
  intros Hok [c Hc] [k Hk]. split; [|split; [|split]].
  - unfold ecx_init, ecx_fail.
    destruct (negb _); [eauto|]. rewrite Hc, Hk. simpl.
    destruct (negb _); [eauto|].
    destruct (ecx_install_counts w ecxctx key c
                (PROV_ECX_CTX.mk (PROV_ECX_CTX.keylen c) (Some key)
                   (PROV_ECX_CTX.peerkey c))
                (PROV_ECX_CTX.key c)
                (ecx_points_to (PROV_ECX_CTX.peerkey c)) Hok Hc)
      as (ks1 & ks2 & -> & Hfree & _); eauto.
    { intros. apply ecx_points_to_bounds. }
    simpl. rewrite Hfree. simpl. eauto.
  - unfold ecx_set_peer, ecx_fail.
    destruct (negb _); [eauto|]. rewrite Hc, Hk. simpl.
    destruct (negb _); [eauto|].
    destruct (ecx_install_counts w ecxctx key c
                (PROV_ECX_CTX.mk (PROV_ECX_CTX.keylen c) (PROV_ECX_CTX.key c)
                   (Some key))
                (PROV_ECX_CTX.peerkey c)
                (ecx_points_to (PROV_ECX_CTX.key c)) Hok Hc)
      as (ks1 & ks2 & -> & Hfree & _); eauto.
    { intros. apply ecx_points_to_bounds. }
    { intros. unfold ecx_ctx_uses. lia. }
    { intros. unfold ecx_ctx_uses. simpl. lia. }
    simpl. rewrite Hfree. simpl. eauto.
  - destruct (ossl_prov_is_running (prov w)) eqn:Hr;
      [|unfold ecx_dupctx; rewrite Hr; eauto].
    destruct (Z.leb_spec sizeof_PROV_ECX_CTX (heap_left w)) as [Hh|Hh].
    + destruct (ecx_dupctx_counts w ecxctx c Hok Hr Hh Hc) as (ks & -> & _).
      eauto.
    + unfold ecx_dupctx. rewrite Hr. simpl.
      destruct (Z.leb_spec sizeof_PROV_ECX_CTX (heap_left w)); [lia|eauto].
  - destruct (ecx_freectx_counts w ecxctx c Hok Hc)
      as (ks1 & ks2 & _ & _ & -> & _). eauto.
Qed.


Lemma ecx_newctx_Some w n ctx w' :
  ecx_newctx w n = (Some ctx, w') ->
  ossl_prov_is_running (prov w) = true
  /\ ctxs w !! ctx = None
  /\ w' = mk_ecx_world (prov w) (keys w)
            (<[ctx := PROV_ECX_CTX.mk n None None]> (ctxs w))
            (heap_left w - sizeof_PROV_ECX_CTX).
Proof.
  unfold ecx_newctx.
  destruct (ossl_prov_is_running (prov w)); simpl; [|discriminate].
  destruct (_ <=? _); [|discriminate].
  intros [= <- <-]. split; [reflexivity|]. split; [|reflexivity].
  apply not_elem_of_dom, is_fresh.
Qed.

Lemma ecx_world_eta w :
  mk_ecx_world (prov w) (keys w) (ctxs w) (heap_left w) = w.
Proof. destruct w; reflexivity. Qed.

Lemma ECX_KEY_eta k : ECX_KEY.mk (ECX_KEY.keylen k) (ECX_KEY.references k) = k.
Proof. destruct k; reflexivity. Qed.

(** [ecx_init] on a context with no key yet and a key that is alive. *)
Lemma ecx_init_first w ecxctx key c k params :
  ossl_prov_is_running (prov w) = true ->
  ctxs w !! ecxctx = Some c -> PROV_ECX_CTX.key c = None ->
  keys w !! key = Some k -> 1 <= ECX_KEY.references k ->
  ecx_init w (Some ecxctx) (Some key) params
  = if ECX_KEY.keylen k =? PROV_ECX_CTX.keylen c then
      Some (1, mk_ecx_world (prov w)
                 (<[key := ECX_KEY.mk (ECX_KEY.keylen k)
                                      (ECX_KEY.references k + 1)]> (keys w))
                 (<[ecxctx := PROV_ECX_CTX.mk (PROV_ECX_CTX.keylen c)
                                (Some key) (PROV_ECX_CTX.peerkey c)]> (ctxs w))
                 (heap_left w))
    else Some (0, ecx_set_prov w
                    (ERR_raise (prov w) ERR_LIB_PROV ERR_R_INTERNAL_ERROR)).
Proof.
  intros Hrun Hc Hnone Hk Hr. unfold ecx_init, ecx_fail.
  rewrite Hrun, Hc, Hk. simpl.
  destruct (ECX_KEY.keylen k =? PROV_ECX_CTX.keylen c); simpl; [|reflexivity].
  rewrite (ossl_ecx_key_up_ref_alive _ _ _ Hk Hr). simpl.
  rewrite Hnone. reflexivity.
Qed.

Lemma ecx_set_peer_first w ecxctx key c k :
  ossl_prov_is_running (prov w) = true ->
  ctxs w !! ecxctx = Some c -> PROV_ECX_CTX.peerkey c = None ->
  keys w !! key = Some k -> 1 <= ECX_KEY.references k ->
  ecx_set_peer w (Some ecxctx) (Some key)
  = if ECX_KEY.keylen k =? PROV_ECX_CTX.keylen c then
      Some (1, mk_ecx_world (prov w)
                 (<[key := ECX_KEY.mk (ECX_KEY.keylen k)
                                      (ECX_KEY.references k + 1)]> (keys w))
                 (<[ecxctx := PROV_ECX_CTX.mk (PROV_ECX_CTX.keylen c)
                                (PROV_ECX_CTX.key c) (Some key)]> (ctxs w))
                 (heap_left w))
    else Some (0, ecx_set_prov w
                    (ERR_raise (prov w) ERR_LIB_PROV ERR_R_INTERNAL_ERROR)).
Proof.
  intros Hrun Hc Hnone Hk Hr. unfold ecx_set_peer, ecx_fail.
  rewrite Hrun, Hc, Hk. simpl.
  destruct (ECX_KEY.keylen k =? PROV_ECX_CTX.keylen c); simpl; [|reflexivity].
  rewrite (ossl_ecx_key_up_ref_alive _ _ _ Hk Hr). simpl.
  rewrite Hnone. reflexivity.
Qed.

(** X17.  A new X25519 context takes 32-byte keys and no others, a new X448
    context 56-byte keys and no others.  The context that [x25519_newctx]
    or [x448_newctx] returns holds that length and no key; on it [ecx_init]
    with a key that is alive succeeds exactly when the key has that length,
    installing the key and taking one reference, and otherwise fails with
    [ERR_R_INTERNAL_ERROR] and changes nothing else. *)
Theorem ecx_newctx_admits_its_keylen (w : ecx_world) (key : positive)
    (k : ECX_KEY.t) (params : option (list OSSL_PARAM))
    (n : Z) (ctx : positive) (w' : ecx_world) :
  keys w !! key = Some k -> 1 <= ECX_KEY.references k ->
  (n = X25519_KEYLEN /\ x25519_newctx w = (Some ctx, w'))
  \/ (n = X448_KEYLEN /\ x448_newctx w = (Some ctx, w')) ->
  ctxs w !! ctx = None
  /\ ctxs w' !! ctx = Some (PROV_ECX_CTX.mk n None None)
  /\ (ECX_KEY.keylen k = n ->
      exists w'',
        ecx_init w' (Some ctx) (Some key) params = Some (1, w'')
        /\ ctxs w'' !! ctx = Some (PROV_ECX_CTX.mk n (Some key) None)
        /\ keys w'' !! key
           = Some (ECX_KEY.mk n (ECX_KEY.references k + 1)))
  /\ (ECX_KEY.keylen k <> n ->
      ecx_init w' (Some ctx) (Some key) params
      = Some (0, ecx_set_prov w'
                   (ERR_raise (prov w') ERR_LIB_PROV ERR_R_INTERNAL_ERROR))).
Proof.
  intros Hk Hr Hnew.
  assert (Hn : ecx_newctx w n = (Some ctx, w')).
  { destruct Hnew as [[-> H]|[-> H]]; exact H. }
  clear Hnew. apply ecx_newctx_Some in Hn as (Hrun & Hfresh & ->).
  split; [exact Hfresh|]. split; [apply lookup_insert_eq|].
  pose proof (ecx_init_first
                (mk_ecx_world (prov w) (keys w)
                   (<[ctx := PROV_ECX_CTX.mk n None None]> (ctxs w))
                   (heap_left w - sizeof_PROV_ECX_CTX))
                ctx key (PROV_ECX_CTX.mk n None None) k params Hrun
                (lookup_insert_eq _ _ _) eq_refl Hk Hr) as Hinit.
  simpl in Hinit. split.
  - intros He. rewrite Hinit. apply Z.eqb_eq in He as He'. rewrite He'.
    eexists. split; [reflexivity|]. simpl.
    rewrite !lookup_insert_eq, He. split; reflexivity.
  - intros Hne. rewrite Hinit. apply Z.eqb_neq in Hne. rewrite Hne.
    reflexivity.
Qed.

(** X18.  Installing the key that is installed already changes nothing.
    On a running provider, [ecx_init] with the key the context holds, and
    [ecx_set_peer] with the peer key it holds, return 1 and leave the world
    as it was: the reference taken for the new pointer is the one given
    back for the old, and because it is taken first the key is never
    released in between, even when the context held its only reference. *)
Theorem ecx_install_same_key_is_noop (w : ecx_world) (ecxctx key : positive)
    (c : PROV_ECX_CTX.t) (k : ECX_KEY.t) (params : option (list OSSL_PARAM)) :
  ossl_prov_is_running (prov w) = true ->
  ctxs w !! ecxctx = Some c -> keys w !! key = Some k ->
  1 <= ECX_KEY.references k ->
  ECX_KEY.keylen k = PROV_ECX_CTX.keylen c ->
  (PROV_ECX_CTX.key c = Some key ->
   ecx_init w (Some ecxctx) (Some key) params = Some (1, w))
  /\ (PROV_ECX_CTX.peerkey c = Some key ->
      ecx_set_peer w (Some ecxctx) (Some key) = Some (1, w)).
Proof.
  intros Hrun Hc Hk Hr Hlen.
  assert (Hks : <[key := ECX_KEY.mk (ECX_KEY.keylen k)
                           (ECX_KEY.references k + 1 - 1)]>
                  (<[key := ECX_KEY.mk (ECX_KEY.keylen k)
                              (ECX_KEY.references k + 1)]> (keys w))
                = keys w).
  { rewrite insert_insert_eq.
    replace (ECX_KEY.references k + 1 - 1) with (ECX_KEY.references k) by lia.
    rewrite ECX_KEY_eta. apply insert_id, Hk. }
  apply Z.eqb_eq in Hlen.
  split; intros Hheld.
  - unfold ecx_init. rewrite Hrun, Hc, Hk. simpl. rewrite Hlen. simpl.
    rewrite (ossl_ecx_key_up_ref_alive _ _ _ Hk Hr). simpl.
    rewrite Hheld. simpl. rewrite lookup_insert_eq. simpl.
    destruct (Z.gtb_spec (ECX_KEY.references k + 1 - 1) 0); [|lia].
    rewrite Hks. unfold ecx_set_ctxs, ecx_set_keys. simpl.
    rewrite <- Hheld. rewrite insert_id by (rewrite Hc; destruct c; reflexivity).
    rewrite ecx_world_eta. reflexivity.
  - unfold ecx_set_peer. rewrite Hrun, Hc, Hk. simpl. rewrite Hlen. simpl.
    rewrite (ossl_ecx_key_up_ref_alive _ _ _ Hk Hr). simpl.
    rewrite Hheld. simpl. rewrite lookup_insert_eq. simpl.
    destruct (Z.gtb_spec (ECX_KEY.references k + 1 - 1) 0); [|lia].
    rewrite Hks. unfold ecx_set_ctxs, ecx_set_keys. simpl.
    rewrite <- Hheld. rewrite insert_id by (rewrite Hc; destruct c; reflexivity).
    rewrite ecx_world_eta. reflexivity.
Qed.


(** X19.  [ecx_dupctx] on a live context, in a world whose reference
    counts are in step: it returns [NULL], and changes nothing, exactly
    when the provider is not running or the allocation fails; otherwise it
    returns a new context with the length, key and peer key of the source,
    every key has gained one reference per field of the copy that points
    to it, and no error is raised: the two error exits are never taken. *)
Theorem ecx_dupctx_copies (w : ecx_world) (srcctx : positive)
    (c : PROV_ECX_CTX.t) :
  ecx_refs_ok w -> ctxs w !! srcctx = Some c ->
  (ossl_prov_is_running (prov w) = false
   \/ heap_left w < sizeof_PROV_ECX_CTX ->
   ecx_dupctx w (Some srcctx) = Some (None, w))
  /\ (ossl_prov_is_running (prov w) = true ->
      sizeof_PROV_ECX_CTX <= heap_left w ->
      exists dstctx w',
        ecx_dupctx w (Some srcctx) = Some (Some dstctx, w')
        /\ dstctx <> srcctx
        /\ ctxs w !! dstctx = None
        /\ ctxs w' !! dstctx = Some c
        /\ (forall q, q <> dstctx -> ctxs w' !! q = ctxs w !! q)
        /\ (forall k key, keys w !! k = Some key ->
              keys w' !! k
              = Some (ECX_KEY.mk (ECX_KEY.keylen key)
                        (ECX_KEY.references key + ecx_ctx_uses c k)))
        /\ dom (keys w') = dom (keys w)
        /\ prov w' = prov w).
Proof.
  intros Hok Hc. split.
  - intros [Hrun|Hheap]; unfold ecx_dupctx.
    + rewrite Hrun. reflexivity.
    + destruct (negb _); [reflexivity|].
      destruct (Z.leb_spec sizeof_PROV_ECX_CTX (heap_left w)); [lia|].
      reflexivity.
  - intros Hrun Hheap.
    destruct (ecx_dupctx_counts w srcctx c Hok Hrun Hheap Hc)
      as (ks & Hdup & Hfresh & _ & _ & Hkeys & Hdom).
    eexists _, _. split; [exact Hdup|]. simpl.
    split; [congruence|]. split; [exact Hfresh|].
    split; [apply lookup_insert_eq|].
    split; [intros q Hq; apply lookup_insert_ne; congruence|].
    split; [exact Hkeys|]. split; [exact Hdom|reflexivity].
Qed.

(** Giving back a reference of a key that keeps another one. *)
Lemma key_free_lookup ks ptr :
  (forall k key, ptr = Some k -> ks !! k = Some key ->
                 2 <= ECX_KEY.references key) ->
  ecx_ptr_ok ks ptr ->
  exists ks1,
    ossl_ecx_key_free ks ptr = Some ks1
    /\ dom ks1 = dom ks
    /\ forall k key, ks !! k = Some key ->
         ks1 !! k = Some (ECX_KEY.mk (ECX_KEY.keylen key)
                            (ECX_KEY.references key - ecx_points_to ptr k)).
Proof.
  intros Hge Hp. destruct ptr as [k0|]; simpl in Hp.
  - destruct Hp as [key0 Hk0].
    rewrite (ossl_ecx_key_free_shared _ _ _ Hk0 (Hge _ _ eq_refl Hk0)).
    eexists. split; [reflexivity|]. split.
    + apply dom_insert_lookup_L. eauto.
    + intros k key Hk. unfold ecx_points_to.
      destruct (decide (Some k0 = Some k)) as [[= ->]|Hn].
      * rewrite lookup_insert_eq. congruence.
      * rewrite lookup_insert_ne by congruence. rewrite Hk.
        destruct key; simpl. do 2 f_equal. lia.
  - exists ks. split; [reflexivity|]. split; [reflexivity|].
    intros k key Hk. rewrite Hk. unfold ecx_points_to.
    destruct (decide _); [discriminate|]. destruct key; simpl.
    do 2 f_equal. lia.
Qed.

Lemma gmap_eq_by_lookup (ks ks' : gmap positive ECX_KEY.t) :
  dom ks' = dom ks ->
  (forall k key, ks !! k = Some key -> ks' !! k = Some key) ->
  ks' = ks.
Proof.
  intros Hdom Hl. apply map_eq. intros k.
  destruct (ks !! k) as [key|] eqn:E; [apply Hl, E|].
  apply not_elem_of_dom. rewrite Hdom. apply not_elem_of_dom, E.
Qed.

(** X20.  Duplicating a context and freeing the duplicate is a round trip.
    In a world whose reference counts are in step, on a running provider
    with memory left, [ecx_freectx] on what [ecx_dupctx] returned gives the
    world back as it was: the same contexts, the same reference counts,
    the same free memory. *)
Theorem ecx_dupctx_freectx_roundtrip (w : ecx_world) (srcctx : positive) :
  ecx_refs_ok w -> is_Some (ctxs w !! srcctx) ->
  ossl_prov_is_running (prov w) = true ->
  sizeof_PROV_ECX_CTX <= heap_left w ->
  exists dstctx w',
    ecx_dupctx w (Some srcctx) = Some (Some dstctx, w')
    /\ ecx_freectx w' (Some dstctx) = Some w.
Proof.
  intros Hok [c Hc] Hrun Hheap.
  destruct (ecx_dupctx_counts w srcctx c Hok Hrun Hheap Hc)
    as (ks & Hdup & Hfresh & Hrefs & Hal & Hkeys & Hdom).
  eexists _, _. split; [exact Hdup|].
  pose proof Hok as [_ Hptr]. destruct (Hptr srcctx c Hc) as [Hp1 Hp2].
  assert (Hal0 : ecx_alive (keys w)).
  { apply ecx_refs_ok_alt in Hok as [_ H]. exact H. }
  assert (Hpk : forall ks' ptr, dom ks' = dom (keys w) ->
                  ecx_ptr_ok (keys w) ptr -> ecx_ptr_ok ks' ptr).
  { intros ks' [k|] Hd H; [|exact I]. simpl in *.
    apply elem_of_dom. rewrite Hd. apply elem_of_dom, H. }
  destruct (key_free_lookup ks (PROV_ECX_CTX.key c)) as (ks1 & Hf1 & Hd1 & Hl1).
  { intros k key E Hk.
    assert (is_Some (keys w !! k)) as [key0 Hk0].
    { apply elem_of_dom. rewrite <- Hdom. apply elem_of_dom. eauto. }
    rewrite (Hkeys _ _ Hk0) in Hk. injection Hk as <-. simpl.
    assert (1 <= ECX_KEY.references key0) by exact (Hal0 _ _ Hk0).
    unfold ecx_ctx_uses.
    rewrite E, ecx_points_to_self.
    pose proof (ecx_points_to_bounds (PROV_ECX_CTX.peerkey c) k). lia. }
  { apply Hpk; assumption. }
  destruct (key_free_lookup ks1 (PROV_ECX_CTX.peerkey c))
    as (ks2 & Hf2 & Hd2 & Hl2).
  { intros k key E Hk.
    assert (is_Some (keys w !! k)) as [key0 Hk0].
    { apply elem_of_dom. rewrite <- Hdom, <- Hd1. apply elem_of_dom. eauto. }
    rewrite (Hl1 _ _ (Hkeys _ _ Hk0)) in Hk. injection Hk as <-. simpl.
    assert (1 <= ECX_KEY.references key0) by exact (Hal0 _ _ Hk0).
    unfold ecx_ctx_uses.
    rewrite E, ecx_points_to_self.
    pose proof (ecx_points_to_bounds (PROV_ECX_CTX.key c) k). lia. }
  { apply Hpk; [congruence|assumption]. }
  assert (Hback : ks2 = keys w).
  { apply gmap_eq_by_lookup; [congruence|].
    intros k key Hk. rewrite (Hl2 _ _ (Hl1 _ _ (Hkeys _ _ Hk))). simpl.
    unfold ecx_ctx_uses. destruct key; simpl. do 2 f_equal. lia. }
  unfold ecx_freectx. simpl. rewrite lookup_insert_eq. simpl.
  rewrite Hf1. simpl. rewrite Hf2. simpl.
  rewrite Hback, delete_insert_id by exact Hfresh.
  replace (heap_left w - sizeof_PROV_ECX_CTX + sizeof_PROV_ECX_CTX)
    with (heap_left w) by lia.
  rewrite ecx_world_eta. reflexivity.
Qed.

(** X21.  A whole exchange leaves nothing behind.  From any world, a new
    context of length [n], [ecx_init] with a key of that length that is
    alive, [ecx_set_peer] with a peer key of that length that is alive
    (the same key or another), then [ecx_freectx]: the two installs
    succeed and the world is again the one before the context was made,
    reference counts and free memory included. *)
Theorem ecx_lifecycle_is_balanced (w : ecx_world) (n : Z)
    (key peer : positive) (k kp : ECX_KEY.t)
    (params : option (list OSSL_PARAM)) (ctx : positive) (w1 : ecx_world) :
  keys w !! key = Some k -> keys w !! peer = Some kp ->
  1 <= ECX_KEY.references k -> 1 <= ECX_KEY.references kp ->
  ECX_KEY.keylen k = n -> ECX_KEY.keylen kp = n ->
  ecx_newctx w n = (Some ctx, w1) ->
  exists w2 w3,
    ecx_init w1 (Some ctx) (Some key) params = Some (1, w2)
    /\ ecx_set_peer w2 (Some ctx) (Some peer) = Some (1, w3)
    /\ ecx_freectx w3 (Some ctx) = Some w.
Proof.
  intros Hk Hkp Hr Hrp Hn Hnp Hnew.
  apply ecx_newctx_Some in Hnew as (Hrun & Hfresh & ->).
  apply Z.eqb_eq in Hn as Hn'.
  set (ks1 := <[key := ECX_KEY.mk (ECX_KEY.keylen k)
                         (ECX_KEY.references k + 1)]> (keys w)).
  assert (exists kp1, ks1 !! peer = Some kp1
            /\ ECX_KEY.keylen kp1 = n
            /\ ECX_KEY.references kp1
               = ECX_KEY.references kp + ecx_points_to (Some key) peer)
    as (kp1 & Hkp1 & Hlen1 & Hrefs1).
  { unfold ks1, ecx_points_to.
    destruct (decide (Some key = Some peer)) as [[= ->]|Hne].
    - rewrite lookup_insert_eq. eexists. split; [reflexivity|].
      simpl. split; [exact Hn|]. congruence.
    - rewrite lookup_insert_ne by congruence. exists kp.
      split; [exact Hkp|]. split; [exact Hnp|lia]. }
  pose proof (ecx_points_to_bounds (Some key) peer) as Hb.
  apply Z.eqb_eq in Hlen1 as Hlen1'.
  eexists _, _. split; [|split].
  - rewrite (ecx_init_first _ ctx key (PROV_ECX_CTX.mk n None None) k params);
      try assumption; try reflexivity; [|apply lookup_insert_eq].
    simpl. rewrite Hn'. reflexivity.
  - rewrite insert_insert_eq. fold ks1.
    rewrite (ecx_set_peer_first _ ctx peer
               (PROV_ECX_CTX.mk n (Some key) None) kp1);
      try assumption; try reflexivity; [|apply lookup_insert_eq|lia].
    simpl. rewrite Hlen1'. reflexivity.
  - rewrite insert_insert_eq.
    set (ks2 := <[peer := ECX_KEY.mk (ECX_KEY.keylen kp1)
                            (ECX_KEY.references kp1 + 1)]> ks1).
    assert (Hk2 : ks2 !! key
                  = Some (ECX_KEY.mk n (ECX_KEY.references k + 1
                                        + ecx_points_to (Some peer) key))).
    { unfold ks2, ecx_points_to.
      destruct (decide (Some peer = Some key)) as [[= ->]|Hne].
      - rewrite lookup_insert_eq. rewrite Hlen1. do 2 f_equal.
        rewrite Hrefs1, ecx_points_to_self.
        assert (kp = k) as -> by congruence. lia.
      - rewrite lookup_insert_ne by congruence. unfold ks1.
        rewrite lookup_insert_eq, Hn. do 2 f_equal. lia. }
    pose proof (ecx_points_to_bounds (Some peer) key) as Hb2.
    unfold ecx_freectx. cbn -[ossl_ecx_key_free].
    rewrite lookup_insert_eq. cbn -[ossl_ecx_key_free].
    rewrite (ossl_ecx_key_free_shared _ _ _ Hk2) by (simpl; lia).
    cbn -[ossl_ecx_key_free].
    set (ks3 := <[key := _]> ks2).
    assert (Hp3 : ks3 !! peer
                  = Some (ECX_KEY.mk n (ECX_KEY.references kp + 1))).
    { unfold ks3. destruct (decide (key = peer)) as [->|Hne].
      - rewrite lookup_insert_eq. simpl. rewrite ecx_points_to_self.
        assert (kp = k) as -> by congruence. do 2 f_equal. lia.
      - rewrite lookup_insert_ne by exact Hne. unfold ks2.
        rewrite lookup_insert_eq, Hlen1, Hrefs1. unfold ecx_points_to.
        destruct (decide (Some key = Some peer)); [congruence|].
        do 2 f_equal. lia. }
    rewrite (ossl_ecx_key_free_shared _ _ _ Hp3) by (simpl; lia). simpl.
    rewrite delete_insert_id by exact Hfresh.
    replace (heap_left w - sizeof_PROV_ECX_CTX + sizeof_PROV_ECX_CTX)
      with (heap_left w) by lia.
    set (ks4 := <[peer := _]> ks3).
    assert (ks4 = keys w) as ->.
    { apply map_eq. intros i. unfold ks4.
      destruct (decide (peer = i)) as [<-|Hpi].
      - rewrite lookup_insert_eq, Hkp. simpl. destruct kp; simpl in *.
        subst. do 2 f_equal. lia.
      - rewrite lookup_insert_ne by exact Hpi. unfold ks3.
        destruct (decide (key = i)) as [<-|Hki].
        + rewrite lookup_insert_eq, Hk. simpl. unfold ecx_points_to.
          destruct (decide (Some peer = Some key)); [congruence|].
          destruct k; simpl in *. subst. do 2 f_equal. lia.
        + rewrite lookup_insert_ne by exact Hki. unfold ks2, ks1.
          rewrite !lookup_insert_ne by assumption. reflexivity. }
    rewrite ecx_world_eta. reflexivity.
Qed.


(** What a successful [ecx_init] leaves in the context. *)
Lemma ecx_init_result w vecxctx vkey params w' :
  ecx_init w vecxctx vkey params = Some (1, w') ->
  exists ecxctx key c k,
    vecxctx = Some ecxctx /\ vkey = Some key
    /\ ctxs w !! ecxctx = Some c /\ keys w !! key = Some k
    /\ ECX_KEY.keylen k = PROV_ECX_CTX.keylen c
    /\ prov w' = prov w /\ ossl_prov_is_running (prov w) = true
    /\ ctxs w' = <[ecxctx := PROV_ECX_CTX.mk (PROV_ECX_CTX.keylen c)
                               (Some key) (PROV_ECX_CTX.peerkey c)]> (ctxs w).
Proof.
  unfold ecx_init, ecx_fail.
  destruct (ossl_prov_is_running (prov w)) eqn:Hrun; simpl; [|discriminate].
  destruct vecxctx as [ecxctx|], vkey as [key|]; try discriminate.
  destruct (ctxs w !! ecxctx) as [c|] eqn:Hc; simpl; [|discriminate].
  destruct (keys w !! key) as [k|] eqn:Hk; simpl; [|discriminate].
  destruct (Z.eqb_spec (ECX_KEY.keylen k) (PROV_ECX_CTX.keylen c)) as [He|];
    simpl; [|discriminate].
  destruct (ossl_ecx_key_up_ref (keys w) key) as [[ok ks]|]; simpl;
    [|discriminate].
  destruct (ok =? 0); [discriminate|].
  destruct (ossl_ecx_key_free ks (PROV_ECX_CTX.key c)); simpl; [|discriminate].
  intros [= <-]. exists ecxctx, key, c, k. simpl. repeat split; auto.
Qed.

Lemma ecx_set_peer_result w vecxctx vkey w' :
  ecx_set_peer w vecxctx vkey = Some (1, w') ->
  exists ecxctx key c k,
    vecxctx = Some ecxctx /\ vkey = Some key
    /\ ctxs w !! ecxctx = Some c /\ keys w !! key = Some k
    /\ ECX_KEY.keylen k = PROV_ECX_CTX.keylen c
    /\ prov w' = prov w /\ ossl_prov_is_running (prov w) = true
    /\ ctxs w' = <[ecxctx := PROV_ECX_CTX.mk (PROV_ECX_CTX.keylen c)
                               (PROV_ECX_CTX.key c) (Some key)]> (ctxs w).
Proof.
  unfold ecx_set_peer, ecx_fail.
  destruct (ossl_prov_is_running (prov w)) eqn:Hrun; simpl; [|discriminate].
  destruct vecxctx as [ecxctx|], vkey as [key|]; try discriminate.
  destruct (ctxs w !! ecxctx) as [c|] eqn:Hc; simpl; [|discriminate].
  destruct (keys w !! key) as [k|] eqn:Hk; simpl; [|discriminate].
  destruct (Z.eqb_spec (ECX_KEY.keylen k) (PROV_ECX_CTX.keylen c)) as [He|];
    simpl; [|discriminate].
  destruct (ossl_ecx_key_up_ref (keys w) key) as [[ok ks]|]; simpl;
    [|discriminate].
  destruct (ok =? 0); [discriminate|].
  destruct (ossl_ecx_key_free ks (PROV_ECX_CTX.peerkey c)); simpl;
    [|discriminate].
  intros [= <-]. exists ecxctx, key, c, k. simpl. repeat split; auto.
Qed.

Section DeriveFacts.

Variable compute :
  ecx_world -> option positive -> option positive -> Z ->
  option (list Z) -> Z -> Z ->
  option (Z * option (list Z) * Z * ecx_world).

(** X22.  [ecx_derive] works on the keys installed last.  After [ecx_init]
    with [key] and then [ecx_set_peer] with [peer] have both returned 1 on a
    context, [ecx_derive] on it is the call of [ossl_ecx_compute_key] with
    the peer key first, the own key second and the length of the context,
    which is the length of both keys; whatever the callee is. *)
Theorem ecx_derive_uses_installed_keys (w w1 w2 : ecx_world)
    (ecxctx key peer : positive) (params : option (list OSSL_PARAM))
    (secret : option (list Z)) (secretlen outlen : Z) :
  ecx_init w (Some ecxctx) (Some key) params = Some (1, w1) ->
  ecx_set_peer w1 (Some ecxctx) (Some peer) = Some (1, w2) ->
  exists c k kp,
    ctxs w !! ecxctx = Some c
    /\ keys w !! key = Some k /\ keys w1 !! peer = Some kp
    /\ ECX_KEY.keylen k = PROV_ECX_CTX.keylen c
    /\ ECX_KEY.keylen kp = PROV_ECX_CTX.keylen c
    /\ ecx_derive compute w2 (Some ecxctx) secret secretlen outlen
       = compute w2 (Some peer) (Some key) (PROV_ECX_CTX.keylen c)
           secret secretlen outlen.
Proof.
  intros Hinit Hpeer.
  apply ecx_init_result in Hinit
    as (e1 & k1 & c & k & [= <-] & [= <-] & Hc & Hk & Hlen & Hp1 & Hrun1 & Hcs1).
  apply ecx_set_peer_result in Hpeer
    as (e2 & k2 & c1 & kp & [= <-] & [= <-] & Hc1 & Hkp & Hlen1 & Hp2 & Hrun2
        & Hcs2).
  rewrite Hcs1, lookup_insert_eq in Hc1. injection Hc1 as <-. simpl in *.
  exists c, k, kp. repeat split; auto.
  unfold ecx_derive. rewrite Hp2, Hrun2, Hcs2. simpl.
  rewrite lookup_insert_eq. reflexivity.
Qed.

(** X23.  The guards of the entry points.  With the provider shut down,
    [ecx_newctx], [ecx_init], [ecx_set_peer], [ecx_derive] and [ecx_dupctx]
    fail at once, whatever their arguments, dangling or [NULL]: nothing is
    read, nothing changes and no error is raised.  On a running provider
    [ecx_init] and [ecx_set_peer] still refuse a [NULL] context or a [NULL]
    key, returning 0 and raising [ERR_R_INTERNAL_ERROR] with the contexts
    and keys untouched, while [ecx_derive], [ecx_dupctx] (once it has its
    memory) and [ecx_freectx] dereference the context unchecked: a [NULL]
    context is a fault there. *)
Theorem ecx_entry_point_guards (w : ecx_world)
    (vecxctx vkey : option positive) (params : option (list OSSL_PARAM))
    (keylen : Z) (secret : option (list Z)) (secretlen outlen : Z) :
  (ossl_prov_is_running (prov w) = false ->
   ecx_newctx w keylen = (None, w)
   /\ ecx_init w vecxctx vkey params = Some (0, w)
   /\ ecx_set_peer w vecxctx vkey = Some (0, w)
   /\ ecx_derive compute w vecxctx secret secretlen outlen
      = Some (0, secret, secretlen, w)
   /\ ecx_dupctx w vecxctx = Some (None, w))
  /\ (ossl_prov_is_running (prov w) = true ->
      let w' :=
        ecx_set_prov w (ERR_raise (prov w) ERR_LIB_PROV ERR_R_INTERNAL_ERROR) in
      ecx_init w None vkey params = Some (0, w')
      /\ ecx_init w vecxctx None params = Some (0, w')
      /\ ecx_set_peer w None vkey = Some (0, w')
      /\ ecx_set_peer w vecxctx None = Some (0, w')
      /\ ecx_derive compute w None secret secretlen outlen = None
      /\ ecx_freectx w None = None
      /\ (sizeof_PROV_ECX_CTX <= heap_left w -> ecx_dupctx w None = None)).
Proof.
  split; intros Hrun.
  - unfold ecx_newctx, ecx_init, ecx_set_peer, ecx_derive, ecx_dupctx.
    rewrite Hrun. repeat split; reflexivity.
  - intros w'. unfold ecx_init, ecx_set_peer, ecx_derive, ecx_dupctx, ecx_fail.
    rewrite Hrun. simpl.
    repeat split; try reflexivity.
    + destruct vecxctx; reflexivity.
    + destruct vecxctx; reflexivity.
    + intros Hheap.
      destruct (Z.leb_spec sizeof_PROV_ECX_CTX (heap_left w)); [reflexivity|lia].
Qed.

End DeriveFacts.


(** X24.  A refused install changes nothing.  In a world whose reference
    counts are in step, whenever [ecx_init] or [ecx_set_peer] returns 0 the
    contexts, the keys with their reference counts and the free memory are
    as before; the world is untouched when the provider is not running, and
    otherwise differs only by the [ERR_R_INTERNAL_ERROR] that was raised. *)
Theorem ecx_refused_install_changes_nothing (w : ecx_world)
    (vecxctx vkey : option positive) (params : option (list OSSL_PARAM))
    (w' : ecx_world) :
  ecx_refs_ok w ->
  ecx_init w vecxctx vkey params = Some (0, w')
  \/ ecx_set_peer w vecxctx vkey = Some (0, w') ->
  ctxs w' = ctxs w /\ keys w' = keys w /\ heap_left w' = heap_left w
  /\ (if ossl_prov_is_running (prov w)
      then w' = ecx_set_prov w
                  (ERR_raise (prov w) ERR_LIB_PROV ERR_R_INTERNAL_ERROR)
      else w' = w).
Proof.
  intros Hok Hrun.
  apply ecx_refs_ok_alt in Hok as [_ Hal].
  assert (Hup : forall key k, keys w !! key = Some k ->
            exists ks, ossl_ecx_key_up_ref (keys w) key = Some (1, ks)).
  { intros key k Hk. eexists.
    apply (ossl_ecx_key_up_ref_alive _ _ _ Hk (Hal _ _ Hk)). }
  destruct Hrun as [Hrun|Hrun]; revert Hrun;
    unfold ecx_init, ecx_set_peer, ecx_fail;
    (destruct (ossl_prov_is_running (prov w)); simpl;
     [|intros [= <-]; auto]);
    (destruct vecxctx as [ecxctx|], vkey as [key|];
     try (intros [= <-]; auto));
    (destruct (ctxs w !! ecxctx) as [c|]; simpl; [|discriminate]);
    (destruct (keys w !! key) as [k|] eqn:Hk; simpl; [|discriminate]);
    (destruct (negb _); [intros [= <-]; auto|]);
    destruct (Hup key k Hk) as [ks ->]; simpl.
  - destruct (ossl_ecx_key_free ks (PROV_ECX_CTX.key c)); simpl; discriminate.
  - destruct (ossl_ecx_key_free ks (PROV_ECX_CTX.peerkey c)); simpl;
      discriminate.
Qed.


(** * The engine on concrete inputs *)

(** The published SHA3-256 digests of the empty message and of "abc", and
    the first 32 bytes of SHAKE128 of the empty message, through
    [keccak_update] and [keccak_final] with the reference permutation. *)
Example sha3_256_empty_message :
  one_shot_digest TARGET_OTHER no_caps sha3_256 None [] 32 =
  Some (1, [0xa7; 0xff; 0xc6; 0xf8; 0xbf; 0x1e; 0xd7; 0x66;
            0x51; 0xc1; 0x47; 0x56; 0xa0; 0x61; 0xd6; 0x62;
            0xf5; 0x80; 0xff; 0x4d; 0xe4; 0x3b; 0x49; 0xfa;
            0x82; 0xd8; 0x0a; 0x4b; 0x80; 0xf8; 0x43; 0x4a], 32).
Proof. vm_compute. reflexivity. Qed.

Example sha3_256_abc :
  one_shot_digest TARGET_OTHER no_caps sha3_256 None [97; 98; 99] 32 =
  Some (1, [0x3a; 0x98; 0x5d; 0xa7; 0x4f; 0xe2; 0x25; 0xb2;
            0x04; 0x5c; 0x17; 0x2d; 0x6b; 0xd3; 0x90; 0xbd;
            0x85; 0x5f; 0x08; 0x6e; 0x3e; 0x9d; 0x52; 0x5b;
            0x46; 0xbf; 0xe2; 0x45; 0x11; 0x43; 0x15; 0x32], 32).
Proof. vm_compute. reflexivity. Qed.

Example shake_128_empty_message :
  one_shot_digest TARGET_OTHER no_caps shake_128 (Some 32) [] 32 =
  Some (1, [0x7f; 0x9c; 0x2b; 0xa4; 0xe8; 0x8f; 0x82; 0x7d;
            0x61; 0x60; 0x45; 0x50; 0x76; 0x05; 0x85; 0x3e;
            0xd7; 0x3b; 0x80; 0x93; 0xf6; 0xef; 0xbc; 0x88;
            0xeb; 0x1a; 0x6e; 0xac; 0xfa; 0x66; 0xef; 0x26], 32).
Proof. vm_compute. reflexivity. Qed.

(** The three backends give one digest: SHAKE256 of 300 bytes, 200 bytes of
    output (more than a block). *)
Example backends_give_one_digest :
  let msg := map Z.of_nat (seq 0 300) in
  one_shot_digest TARGET_S390X all_caps shake_256 (Some 200) msg 200
    = one_shot_digest TARGET_OTHER no_caps shake_256 (Some 200) msg 200
  /\ one_shot_digest TARGET_AARCH64 all_caps shake_256 (Some 200) msg 200
    = one_shot_digest TARGET_OTHER no_caps shake_256 (Some 200) msg 200
  /\ one_shot_digest TARGET_OTHER no_caps shake_256 (Some 200) msg 200 <> None.
Proof. vm_compute. repeat split; discriminate. Qed.

(** * Counterexamples to the claims as first stated *)

(** C1 as stated fails: 137 bytes given as 1 + 136 and given at once leave
    two different contexts.  The chunked run has staged the whole first
    block, and its bytes stay behind in the buffer past [bufsz]; the single
    call never touched them. *)
Lemma keccak_update_chunks_stale_bytes :
  exists c1 c2,
    keccak_update_chunks KeccakF1600_fips202 sha3_256_ctx
      [[1]; replicate 136 2] = Some c1
    /\ keccak_update KeccakF1600_fips202 sha3_256_ctx
         (concat [[1]; replicate 136 2]) = Some (1, c2)
    /\ c1 <> c2
    /\ bufsz c1 = 1 /\ bufsz c2 = 1
    /\ buf c1 !! 1%nat = Some 2 /\ buf c2 !! 1%nat = Some 0.
Proof.
  eexists _, _. split; [vm_compute; reflexivity|].
  split; [vm_compute; reflexivity|].
  split; [|vm_compute; repeat split; reflexivity].
  intros H. apply (f_equal (fun c => buf c !! 1%nat)) in H.
  vm_compute in H. discriminate.
Qed.

(** C3 as stated fails: with the provider shut down [keccak_dupctx] returns
    [NULL] although the allocation would have succeeded. *)
Lemma keccak_dupctx_null_when_not_running :
  keccak_dupctx prov_down sample_mem (Some 1%positive) = Some (None, sample_mem)
  /\ exists p m', zalloc sample_mem sizeof_KECCAK1600_CTX 1 = (Some p, m').
Proof.
  split; [reflexivity|].
  unfold zalloc.
  destruct (mem_alloc_ok sample_mem (sizeof_KECCAK1600_CTX * 1)) as [H _].
  { vm_compute. split; discriminate. }
  eexists _, _. exact H.
Qed.

(** C4 as stated fails: on a SHA3-256 context, output size 0, [*outl] comes
    back as 32 while the 32 bytes of the output buffer are as they were: no
    byte was produced. *)
Lemma keccak_final_zero_outsz_reports_md_size :
  exists outl,
    keccak_final KeccakF1600_fips202 prov_up sha3_256_ctx (replicate 32 170)
      0 0
    = Some (1, replicate 32 170, outl, sha3_256_ctx)
    /\ outl = 32 /\ outl <> 0.
Proof.
  exists 32. split; [vm_compute; reflexivity|]. split; [reflexivity|discriminate].
Qed.

(** C6 as stated fails: after three bytes have been absorbed the output
    length is set to 64, accepted, and then to 16, accepted again. *)
Lemma xoflen_accepted_after_absorb :
  exists c1,
    keccak_update KeccakF1600_fips202 shake_128_ctx [1; 2; 3] = Some (1, c1)
    /\ bufsz c1 = 3
    /\ shake_set_ctx_params prov_up (Some c1) (Some [xoflen_64])
       = (1, Some (set_md_size c1 64), prov_up)
    /\ shake_set_ctx_params prov_up (Some (set_md_size c1 64))
         (Some [xoflen_16])
       = (1, Some (set_md_size c1 16), prov_up).
Proof.
  eexists. split; [vm_compute; reflexivity|].
  repeat split; vm_compute; reflexivity.
Qed.

(** C7 as stated fails for initialization: a list with no output-length
    entry, given to [keccak_init_params] on a context that holds three
    bytes, does not leave the context unchanged (it is reset); and with the
    provider shut down the call does not succeed. *)
Lemma keccak_init_params_resets :
  exists c1,
    keccak_update KeccakF1600_fips202 shake_128_ctx [1; 2; 3] = Some (1, c1)
    /\ keccak_init_params prov_up (Some c1) (Some [other_param])
       = Some (1, Some (ossl_sha3_reset c1), prov_up)
    /\ bufsz c1 = 3 /\ bufsz (ossl_sha3_reset c1) = 0
    /\ keccak_init_params prov_down (Some c1) (Some [other_param])
       = Some (0, Some c1, prov_down).
Proof.
  eexists. split; [vm_compute; reflexivity|].
  repeat split; vm_compute; reflexivity.
Qed.


(** * The theorems at concrete inputs *)

Lemma keccak_update_chunking_witness :
  exists c1 c2,
    keccak_update_chunks KeccakF1600_fips202 sha3_256_ctx
      [[1]; replicate 136 2] = Some c1
    /\ keccak_update KeccakF1600_fips202 sha3_256_ctx
         (concat [[1]; replicate 136 2]) = Some (1, c2)
    /\ ctx_equiv c1 c2
    /\ forall ps out outl outsz,
         keccak_final_output
           (keccak_final KeccakF1600_fips202 ps c1 out outl outsz) =
         keccak_final_output
           (keccak_final KeccakF1600_fips202 ps c2 out outl outsz).
Proof.
  apply (keccak_update_chunking KeccakF1600_fips202 sha3_256_ctx
           [[1]; replicate 136 2]).
  - vm_compute. reflexivity.
  - vm_compute. reflexivity.
Defined.

Lemma keccak_update_bufsz_invariant_witness :
  (0 <= bufsz sha3_256_used_ctx < block_size sha3_256_used_ctx)
  /\ exists ctx',
       keccak_update KeccakF1600_fips202 sha3_256_used_ctx (replicate 200 5)
         = Some (1, ctx')
       /\ 0 <= bufsz ctx' < block_size ctx'
       /\ A ctx'
          = KeccakF1600_fips202
              (xor_block (A sha3_256_used_ctx)
                         (replicate 5 9 ++ replicate 131 5))
       /\ pending ctx' = replicate 69 5
       /\ bufsz ctx' = 69.
Proof.
  assert (Hinv : 0 <= bufsz sha3_256_used_ctx < block_size sha3_256_used_ctx).
  { vm_compute. split; [discriminate|reflexivity]. }
  split; [exact Hinv|].
  destruct (keccak_update_bufsz_invariant KeccakF1600_fips202
              sha3_256_used_ctx (replicate 200 5) Hinv) as [Hkeep Hret].
  assert (Hok : ctx_ok sha3_256_used_ctx) by (vm_compute; reflexivity).
  assert (Hlen : Z.of_nat (length (replicate 200 5)) < 2 ^ 64)
    by (vm_compute; reflexivity).
  destruct (Hret Hok Hlen) as (ctx' & Hrun & HA & Hpend & Hn & _).
  exists ctx'. split; [exact Hrun|].
  split; [exact (Hkeep 1 ctx' Hrun)|].
  split; [rewrite HA; reflexivity|].
  split; [rewrite Hpend; reflexivity|].
  rewrite Hn. reflexivity.
Defined.

Lemma backend_absorb_contract_witness :
  exists st,
    call_absorb KeccakF1600_fips202 (Some fn_s390x_sha3_absorb)
      (family_newctx_value TARGET_S390X all_caps sha3_256) (replicate 300 7)
    = Some (set_A (family_newctx_value TARGET_S390X all_caps sha3_256) st, 28)
    /\ 0 <= 28 < 136.
Proof.
  destruct (backend_absorb_contract KeccakF1600_fips202 fn_s390x_sha3_absorb
              (family_newctx_value TARGET_S390X all_caps sha3_256)
              (replicate 300 7)) as (Hrun & Hrem & _).
  - vm_compute. reflexivity.
  - vm_compute. reflexivity.
  - eexists. split; [exact Hrun|exact Hrem].
Defined.

Lemma keccak_final_zero_outsz_witness :
  keccak_final KeccakF1600_fips202 prov_up shake_128_ctx [] 7 0
  = Some (1, [], md_size shake_128_ctx, shake_128_ctx).
Proof.
  apply (keccak_final_zero_outsz KeccakF1600_fips202 prov_up shake_128_ctx [] 7).
  reflexivity.
Defined.

Lemma shake_set_ctx_params_any_time_witness :
  exists c1,
    keccak_update KeccakF1600_fips202 shake_128_ctx (replicate 200 9)
      = Some (1, c1)
    /\ shake_set_ctx_params prov_up (Some c1) (Some [other_param; xoflen_64])
       = (1, Some (set_md_size c1 64), prov_up)
    /\ shake_set_ctx_params prov_up (Some (set_md_size c1 64))
         (Some [xoflen_16])
       = (1, Some (set_md_size c1 16), prov_up).
Proof.
  destruct (keccak_update_total KeccakF1600_fips202 shake_128_ctx
              (replicate 200 9)) as (c1 & Hrun & _).
  - vm_compute. reflexivity.
  - vm_compute. reflexivity.
  - exists c1. split; [exact Hrun|].
    apply (shake_set_ctx_params_any_time KeccakF1600_fips202 prov_up
             shake_128_ctx c1 (replicate 200 9) 1
             [other_param; xoflen_64] [xoflen_16] xoflen_64 xoflen_16 64 16);
      [exact Hrun|reflexivity|reflexivity|reflexivity|reflexivity].
Defined.

Lemma xof_params_handling_witness :
  (shake_set_ctx_params prov_up (Some shake_128_ctx) (Some [other_param])
     = (1, Some shake_128_ctx, prov_up)
   /\ keccak_init_params prov_up (Some shake_128_ctx) (Some [other_param])
     = Some (1, Some (ossl_sha3_reset shake_128_ctx), prov_up))
  /\ shake_set_ctx_params prov_up (Some shake_128_ctx)
       (Some [other_param; xoflen_text; xoflen_64])
     = (0, Some shake_128_ctx,
        ERR_raise prov_up ERR_LIB_PROV PROV_R_FAILED_TO_GET_PARAMETER).
Proof.
  split.
  - destruct (xof_params_handling prov_up shake_128_ctx [other_param])
      as (_ & Hnone & _).
    destruct (Hnone eq_refl) as [Hset Hinit].
    split; [exact Hset|exact (Hinit eq_refl)].
  - destruct (xof_params_handling prov_up shake_128_ctx
                [other_param; xoflen_text; xoflen_64])
      as (_ & _ & Hbad & _).
    destruct (Hbad xoflen_text eq_refl eq_refl) as [Hset _].
    exact Hset.
Defined.

Lemma keccak_dupctx_copy_witness :
  exists ret m',
    keccak_dupctx prov_up sample_mem (Some 1%positive) = Some (Some ret, m')
    /\ ret <> 1%positive
    /\ blocks m' !! ret
       = Some (mk_block (KECCAK1600_CTX_image sha3_256_ctx) true)
    /\ blocks m' !! 1%positive
       = Some (mk_block (KECCAK1600_CTX_image sha3_256_ctx) true).
Proof.
  destruct (keccak_dupctx_copy prov_up sample_mem 1%positive sha3_256_ctx)
    as [_ Hcopy].
  - reflexivity.
  - split; reflexivity.
  - destruct Hcopy as (ret & m' & Hrun & _ & Hne & Hret & Hsrc & _).
    + reflexivity.
    + vm_compute. discriminate.
    + exists ret, m'. repeat split; assumption.
Defined.

Lemma destroy_wipes_before_release_witness :
  (exists m',
     keccak_freectx sample_mem (Some 1%positive) = Some m'
     /\ blocks m' !! 1%positive
        = Some (mk_block (replicate (Z.to_nat sizeof_KECCAK1600_CTX) 0) false))
  /\ (exists m',
        CRYPTO_secure_clear_free sample_mem (Some 1%positive) 8 "mem_sec.c"%string 0
          = Some m'
        /\ blocks m' !! 1%positive
           = Some (mk_block
                     (replicate (length (KECCAK1600_CTX_image sha3_256_ctx)) 0)
                     false)).
Proof.
  destruct (destroy_wipes_before_release sample_mem 1%positive
              (mk_block (KECCAK1600_CTX_image sha3_256_ctx) true))
    as [Hfree Hsec].
  - reflexivity.
  - reflexivity.
  - split.
    + destruct (Hfree sha3_256_ctx) as (m' & Hrun & Hzero & _);
        [split; reflexivity|reflexivity|].
      exists m'. split; assumption.
    + destruct (Hsec 8 "mem_sec.c"%string 0) as (m' & Hrun & Hzero & _).
      exists m'. split; assumption.
Defined.

Lemma ecx_key_length_checked_witness :
  ecx_init sample_ecx_world (Some 1%positive) (Some 1%positive) None
    = Some (0, ecx_set_prov sample_ecx_world
                 (ERR_raise prov_up ERR_LIB_PROV ERR_R_INTERNAL_ERROR))
  /\ ecx_set_peer sample_ecx_world (Some 1%positive) (Some 1%positive)
    = Some (0, ecx_set_prov sample_ecx_world
                 (ERR_raise prov_up ERR_LIB_PROV ERR_R_INTERNAL_ERROR))
  /\ exists w', ecx_init sample_ecx_world (Some 1%positive) (Some 2%positive)
                  None = Some (1, w').
Proof.
  destruct (ecx_key_length_checked sample_ecx_world (Some 1%positive)
              (Some 1%positive) None) as [Hrej _].
  destruct (Hrej 1%positive 1%positive
              (PROV_ECX_CTX.mk X25519_KEYLEN None None)
              (ECX_KEY.mk X448_KEYLEN 1) eq_refl eq_refl eq_refl eq_refl)
    as (Hinit & Hpeer & _).
  - vm_compute. discriminate.
  - split; [exact Hinit|]. split; [exact Hpeer|].
    eexists. vm_compute. reflexivity.
Defined.

Lemma secure_wrappers_coincide_witness :
  CRYPTO_secure_malloc sample_mem 16 "a.c"%string 1
    = CRYPTO_secure_zalloc sample_mem 16 "b.c"%string 2
  /\ CRYPTO_secure_clear_free sample_mem (Some 1%positive) 8 "a.c"%string 1
     = CRYPTO_secure_free sample_mem (Some 1%positive) "b.c"%string 2.
Proof.
  destruct (secure_wrappers_coincide sample_mem 16 (Some 1%positive) 8
              "a.c"%string "b.c"%string 1 2) as (Halloc & _ & Hfree & _).
  split; [exact Halloc|exact Hfree].
Defined.

(** * The further properties at concrete inputs *)

Lemma lanes_length f : length (lanes f) = 25%nat.
Proof. unfold lanes. rewrite length_map, length_seq. reflexivity. Qed.

Lemma Round_length st rc : length (Round st rc) = 25%nat.
Proof.
  unfold Round, Iota.
  pose proof (lanes_length
                (fun x y =>
                   Z.lxor (lane (RhoPi (Theta st)) x y)
                     (Z.land (Z.lxor (lane (RhoPi (Theta st)) (x + 1) y)
                                     (2 ^ 64 - 1))
                             (lane (RhoPi (Theta st)) (x + 2) y)))) as H.
  fold (Chi (RhoPi (Theta st))) in H.
  destruct (Chi (RhoPi (Theta st))); simpl in *; lia.
Qed.

Lemma KeccakF1600_fips202_lanes st :
  length st = 25%nat -> length (KeccakF1600_fips202 st) = 25%nat.
Proof.
  unfold KeccakF1600_fips202. generalize keccak_iotas. intros l. revert st.
  induction l as [|rc l IH]; intros st Hst; simpl; [exact Hst|].
  apply IH, Round_length.
Qed.

Lemma keccak_update_absorbs_stream_witness :
  exists c',
    keccak_update_chunks KeccakF1600_fips202 sha3_256_used_ctx
      [[1]; replicate 136 2] = Some c'
    /\ bufsz c' = (5 + 137) mod 136.
Proof.
  destruct (keccak_update_absorbs_stream KeccakF1600_fips202
              sha3_256_used_ctx [[1]; replicate 136 2])
    as (c' & Hrun & _ & _ & Hn).
  - vm_compute. reflexivity.
  - vm_compute. reflexivity.
  - exists c'. split; [exact Hrun|exact Hn].
Defined.

Lemma keccak_context_stays_well_formed_witness :
  exists c',
    keccak_update KeccakF1600_fips202 sha3_256_used_ctx (replicate 300 3)
    = Some (1, c')
    /\ ctx_ok c'.
Proof.
  destruct (keccak_context_stays_well_formed KeccakF1600_fips202 prov_up
              sha3_256_used_ctx) as (_ & Hupd & _).
  - vm_compute. reflexivity.
  - apply (Hupd (replicate 300 3)). vm_compute. reflexivity.
Defined.

Lemma keccak_configuration_is_kept_witness :
  exists c',
    keccak_update KeccakF1600_fips202 sha3_256_used_ctx (replicate 300 3)
    = Some (1, c')
    /\ ctx_config c' = ctx_config sha3_256_used_ctx.
Proof.
  destruct (keccak_configuration_is_kept KeccakF1600_fips202 prov_up
              sha3_256_used_ctx) as (_ & Hupd & _).
  assert (Hok : ctx_ok sha3_256_used_ctx) by (vm_compute; reflexivity).
  assert (Hlen : Z.of_nat (length (replicate 300 3)) < 2 ^ 64)
    by (vm_compute; reflexivity).
  destruct (Hupd Hok (replicate 300 3) Hlen) as (c' & Hrun & Hcfg & _).
  exists c'. split; [exact Hrun|exact Hcfg].
Defined.

Lemma keccak_init_makes_context_reusable_witness :
  exists d1 d2,
    keccak_update KeccakF1600_fips202 (ossl_sha3_reset sha3_256_used_ctx)
      [97; 98; 99] = Some (1, d1)
    /\ keccak_update KeccakF1600_fips202 (ossl_sha3_reset sha3_256_ctx)
         [97; 98; 99] = Some (1, d2)
    /\ keccak_final_output
         (keccak_final KeccakF1600_fips202 prov_up d1 (replicate 32 0) 0 32)
       = keccak_final_output
           (keccak_final KeccakF1600_fips202 prov_up d2 (replicate 32 0) 0 32).
Proof.
  destruct (keccak_init_makes_context_reusable KeccakF1600_fips202 prov_up
              sha3_256_used_ctx sha3_256_ctx None None [97; 98; 99])
    as (i1 & i2 & d1 & d2 & H1 & H2 & Hu1 & Hu2 & _ & Hfin).
  - reflexivity.
  - vm_compute. reflexivity.
  - vm_compute. reflexivity.
  - reflexivity.
  - vm_compute. reflexivity.
  - injection H1 as <-. injection H2 as <-.
    exists d1, d2. split; [exact Hu1|]. split; [exact Hu2|apply Hfin].
Defined.

Lemma keccak_final_writes_md_size_bytes_witness :
  exists digest c',
    length digest = 32%nat
    /\ keccak_final KeccakF1600_fips202 prov_up sha3_256_ctx
         (replicate 40 255) 0 1
       = Some (1, digest ++ replicate 8 255, 32, c')
    /\ keccak_final KeccakF1600_fips202 prov_up sha3_256_ctx
         (replicate 31 255) 0 1 = None.
Proof.
  destruct (keccak_final_writes_md_size_bytes KeccakF1600_fips202
              KeccakF1600_fips202_lanes prov_up sha3_256_ctx)
    as (digest & c' & Hl & Hfit & Hshort).
  - vm_compute. reflexivity.
  - reflexivity.
  - reflexivity.
  - reflexivity.
  - vm_compute. discriminate.
  - exists digest, c'. split; [exact Hl|]. split.
    + apply (Hfit (replicate 40 255) 0 1); vm_compute; [reflexivity|discriminate].
    + apply (Hshort (replicate 31 255) 0 1); vm_compute; reflexivity.
Defined.

Lemma shake_shorter_output_is_prefix_witness :
  exists c1 c2 d1 d2 e1 e2,
    shake_set_ctx_params prov_up (Some shake_128_ctx) (Some [xoflen_16])
    = (1, Some c1, prov_up)
    /\ shake_set_ctx_params prov_up (Some shake_128_ctx) (Some [xoflen_64])
       = (1, Some c2, prov_up)
    /\ keccak_final KeccakF1600_fips202 prov_up c1 (replicate 64 0) 0 64
       = Some (1, d1 ++ drop 16 (replicate 64 0), 16, e1)
    /\ keccak_final KeccakF1600_fips202 prov_up c2 (replicate 64 0) 0 64
       = Some (1, d2 ++ drop 64 (replicate 64 0), 64, e2)
    /\ d1 = take 16 d2.
Proof.
  destruct (shake_shorter_output_is_prefix KeccakF1600_fips202
              KeccakF1600_fips202_lanes prov_up shake_128_ctx
              [xoflen_16] [xoflen_64] xoflen_16 xoflen_64 16 64
              (replicate 64 0) 0 64)
    as (c1 & c2 & d1 & d2 & e1 & e2 & H1 & H2 & F1 & F2 & _ & _ & Hpre);
    try reflexivity.
  - vm_compute. split; discriminate.
  - exists c1, c2, d1, d2, e1, e2. repeat split; assumption.
Defined.

Lemma family_newctx_contract_witness :
  exists p m',
    family_newctx TARGET_S390X all_caps keccak_kmac_128 prov_up sample_mem
    = Some (Some p, m')
    /\ blocks m' !! p
       = Some (mk_block
                 (KECCAK1600_CTX_image
                    (family_newctx_value TARGET_S390X all_caps keccak_kmac_128))
                 true)
    /\ family_newctx TARGET_S390X all_caps keccak_kmac_128 prov_down sample_mem
       = Some (None, sample_mem).
Proof.
  destruct (family_newctx_contract TARGET_S390X all_caps keccak_kmac_128
              prov_up sample_mem) as [_ Hnew].
  destruct (family_newctx_contract TARGET_S390X all_caps keccak_kmac_128
              prov_down sample_mem) as [Hnull _].
  destruct Hnew as (p & m' & Hrun & _ & Hblock & _).
  - reflexivity.
  - vm_compute. discriminate.
  - exists p, m'. split; [exact Hrun|]. split; [exact Hblock|].
    apply Hnull. left. reflexivity.
Defined.

Lemma family_digest_has_advertised_length_witness :
  exists c1 c2 c3 digest,
    family_digest_init sha3_256 prov_up (Some sha3_256_ctx) (Some [xoflen_64])
    = Some (1, Some c1, prov_up)
    /\ keccak_update KeccakF1600_fips202 c1 [97; 98; 99] = Some (1, c2)
    /\ keccak_final KeccakF1600_fips202 prov_up c2 (replicate 64 0) 0 64
       = Some (1, digest ++ drop 32 (replicate 64 0), 32, c3)
    /\ length digest = 32%nat.
Proof.
  apply (family_digest_has_advertised_length KeccakF1600_fips202
           KeccakF1600_fips202_lanes TARGET_OTHER no_caps sha3_256 prov_up
           (Some [xoflen_64]) [97; 98; 99] (replicate 64 0) 0 64
           136 32 PROV_DIGEST_FLAG_ALGID_ABSENT); try reflexivity.
  - vm_compute. discriminate.
  - left. reflexivity.
Defined.

Lemma keccak_dupctx_freectx_roundtrip_witness :
  exists ret m' m'',
    keccak_dupctx prov_up sample_mem (Some 1%positive) = Some (Some ret, m')
    /\ keccak_freectx m' (Some ret) = Some m''
    /\ avail m'' = avail sample_mem.
Proof.
  destruct (keccak_dupctx_freectx_roundtrip prov_up sample_mem 1%positive
              sha3_256_ctx)
    as (ret & m' & m'' & Hdup & Hfree & _ & _ & _ & Hav).
  - reflexivity.
  - split; reflexivity.
  - reflexivity.
  - vm_compute. discriminate.
  - exists ret, m', m''. repeat split; assumption.
Defined.

Lemma shake_settable_params_are_accepted_witness :
  shake_set_ctx_params prov_up (Some shake_128_ctx)
    (Some [mk_param OSSL_DIGEST_PARAM_XOFLEN OSSL_PARAM_UNSIGNED_INTEGER
             [0; 1]])
  = (1, Some (set_md_size shake_128_ctx 256), prov_up)
  /\ shake_set_ctx_params prov_up (Some shake_128_ctx) (Some [other_param])
     = (1, Some shake_128_ctx, prov_up).
Proof.
  destruct (shake_settable_params_are_accepted prov_up shake_128_ctx tt)
    as [Hset Hother].
  split.
  - destruct (Hset (mk_param OSSL_DIGEST_PARAM_XOFLEN
                      OSSL_PARAM_UNSIGNED_INTEGER []) [0; 1]) as [H _].
    + apply list_elem_of_singleton. reflexivity.
    + repeat constructor; discriminate.
    + simpl. lia.
    + exact H.
  - apply Hother. intros p d Hp Hd.
    apply list_elem_of_singleton in Hp, Hd. subst. discriminate.
Defined.

Lemma secure_allocated_tracks_blocks_witness :
  exists p m' m'',
    CRYPTO_secure_malloc sample_mem 16 "a.c"%string 1 = (Some p, m')
    /\ CRYPTO_secure_allocated sample_mem (Some p) = 0
    /\ CRYPTO_secure_allocated m' (Some p) = 1
    /\ CRYPTO_secure_free m' (Some p) "a.c"%string 1 = Some m''
    /\ CRYPTO_secure_allocated m'' (Some p) = 0.
Proof.
  assert (E : exists p m',
            CRYPTO_secure_malloc sample_mem 16 "a.c"%string 1 = (Some p, m')).
  { eexists _, _. vm_compute. reflexivity. }
  destruct E as (p & m' & E).
  destruct (secure_allocated_tracks_blocks sample_mem m' 16 p "a.c"%string 1)
    as (H0 & H1 & _ & _ & _ & m'' & Hfree & H2 & _).
  - lia.
  - exact E.
  - exists p, m', m''. repeat split; assumption.
Defined.

Ltac ecx_refs_ok_by_computation :=
  split; apply map_Forall_to_list; vm_compute; repeat constructor;
  try discriminate; eauto.

Lemma ecx_refs_ok_preserved_witness :
  exists w', ecx_init sample_ecx_world (Some 1%positive) (Some 2%positive) None
             = Some (1, w')
             /\ ecx_refs_ok w'.
Proof.
  destruct (ecx_refs_ok_preserved sample_ecx_world) as (_ & Hinit & _).
  - ecx_refs_ok_by_computation.
  - assert (E : exists w', ecx_init sample_ecx_world (Some 1%positive)
                             (Some 2%positive) None = Some (1, w')).
    { eexists. vm_compute. reflexivity. }
    destruct E as (w' & E). exists w'. split; [exact E|].
    exact (Hinit _ _ _ _ _ E).
Defined.

Lemma ecx_entry_points_return_witness :
  (exists r w', ecx_set_peer sample_ecx_world_keyed (Some 1%positive)
                  (Some 2%positive) = Some (r, w'))
  /\ (exists w', ecx_freectx sample_ecx_world_keyed (Some 1%positive) = Some w').
Proof.
  destruct (ecx_entry_points_return sample_ecx_world_keyed 1%positive
              2%positive None) as (_ & Hpeer & _ & Hfree).
  - ecx_refs_ok_by_computation.
  - eexists. reflexivity.
  - eexists. reflexivity.
  - destruct Hpeer as (r & w' & Hrun & _). split; [eauto|exact Hfree].
Defined.

Lemma ecx_newctx_admits_its_keylen_witness :
  exists ctx w' w'',
    x25519_newctx sample_ecx_world = (Some ctx, w')
    /\ ecx_init w' (Some ctx) (Some 2%positive) None = Some (1, w'')
    /\ ecx_init w' (Some ctx) (Some 1%positive) None
       = Some (0, ecx_set_prov w'
                    (ERR_raise (prov w') ERR_LIB_PROV ERR_R_INTERNAL_ERROR)).
Proof.
  assert (E : exists ctx w', x25519_newctx sample_ecx_world = (Some ctx, w')).
  { eexists _, _. vm_compute. reflexivity. }
  destruct E as (ctx & w' & E).
  destruct (ecx_newctx_admits_its_keylen sample_ecx_world 2%positive
              (ECX_KEY.mk X25519_KEYLEN 1) None X25519_KEYLEN ctx w')
    as (_ & _ & Hok & _); [reflexivity|simpl; lia|left; auto|].
  destruct (ecx_newctx_admits_its_keylen sample_ecx_world 1%positive
              (ECX_KEY.mk X448_KEYLEN 1) None X25519_KEYLEN ctx w')
    as (_ & _ & _ & Hbad); [reflexivity|simpl; lia|left; auto|].
  destruct (Hok eq_refl) as (w'' & Hinit & _).
  exists ctx, w', w''. split; [exact E|]. split; [exact Hinit|].
  apply Hbad. vm_compute. discriminate.
Defined.

Lemma ecx_install_same_key_is_noop_witness :
  ecx_init sample_ecx_world_keyed (Some 1%positive) (Some 2%positive) None
  = Some (1, sample_ecx_world_keyed).
Proof.
  destruct (ecx_install_same_key_is_noop sample_ecx_world_keyed 1%positive
              2%positive
              (PROV_ECX_CTX.mk X25519_KEYLEN (Some 2%positive) None)
              (ECX_KEY.mk X25519_KEYLEN 2) None) as [Hinit _].
  - reflexivity.
  - reflexivity.
  - reflexivity.
  - simpl. lia.
  - reflexivity.
  - apply Hinit. reflexivity.
Defined.

Lemma ecx_dupctx_copies_witness :
  exists dstctx w',
    ecx_dupctx sample_ecx_world_keyed (Some 1%positive) = Some (Some dstctx, w')
    /\ ctxs w' !! dstctx
       = Some (PROV_ECX_CTX.mk X25519_KEYLEN (Some 2%positive) None)
    /\ keys w' !! 2%positive = Some (ECX_KEY.mk X25519_KEYLEN 3).
Proof.
  destruct (ecx_dupctx_copies sample_ecx_world_keyed 1%positive
              (PROV_ECX_CTX.mk X25519_KEYLEN (Some 2%positive) None))
    as [_ Hdup].
  - ecx_refs_ok_by_computation.
  - reflexivity.
  - destruct Hdup as (dstctx & w' & Hrun & _ & _ & Hdst & _ & Hkeys & _).
    + reflexivity.
    + vm_compute. discriminate.
    + exists dstctx, w'. split; [exact Hrun|]. split; [exact Hdst|].
      apply (Hkeys 2%positive (ECX_KEY.mk X25519_KEYLEN 2)). reflexivity.
Defined.

Lemma ecx_dupctx_freectx_roundtrip_witness :
  exists dstctx w',
    ecx_dupctx sample_ecx_world_keyed (Some 1%positive) = Some (Some dstctx, w')
    /\ ecx_freectx w' (Some dstctx) = Some sample_ecx_world_keyed.
Proof.
  apply (ecx_dupctx_freectx_roundtrip sample_ecx_world_keyed 1%positive).
  - ecx_refs_ok_by_computation.
  - eexists. reflexivity.
  - reflexivity.
  - vm_compute. discriminate.
Defined.

Lemma ecx_lifecycle_is_balanced_witness :
  exists ctx w1 w2 w3,
    x25519_newctx sample_ecx_world = (Some ctx, w1)
    /\ ecx_init w1 (Some ctx) (Some 2%positive) None = Some (1, w2)
    /\ ecx_set_peer w2 (Some ctx) (Some 2%positive) = Some (1, w3)
    /\ ecx_freectx w3 (Some ctx) = Some sample_ecx_world.
Proof.
  assert (E : exists ctx w1, x25519_newctx sample_ecx_world = (Some ctx, w1)).
  { eexists _, _. vm_compute. reflexivity. }
  destruct E as (ctx & w1 & E).
  destruct (ecx_lifecycle_is_balanced sample_ecx_world X25519_KEYLEN
              2%positive 2%positive (ECX_KEY.mk X25519_KEYLEN 1)
              (ECX_KEY.mk X25519_KEYLEN 1) None ctx w1)
    as (w2 & w3 & Hinit & Hpeer & Hfree).
  - reflexivity.
  - reflexivity.
  - simpl. lia.
  - simpl. lia.
  - reflexivity.
  - reflexivity.
  - exact E.
  - exists ctx, w1, w2, w3. repeat split; assumption.
Defined.

Lemma ecx_derive_uses_installed_keys_witness :
  exists w1 w2,
    ecx_init sample_ecx_world (Some 1%positive) (Some 2%positive) None
    = Some (1, w1)
    /\ ecx_set_peer w1 (Some 1%positive) (Some 2%positive) = Some (1, w2)
    /\ ecx_derive sample_compute_key w2 (Some 1%positive) None 0 0
       = Some (1, None, X25519_KEYLEN, w2).
Proof.
  assert (E1 : exists w1, ecx_init sample_ecx_world (Some 1%positive)
                            (Some 2%positive) None = Some (1, w1)).
  { eexists. vm_compute. reflexivity. }
  destruct E1 as (w1 & E1).
  assert (E2 : exists w2, ecx_set_peer w1 (Some 1%positive) (Some 2%positive)
                          = Some (1, w2)).
  { vm_compute in E1. injection E1 as <-. eexists. vm_compute. reflexivity. }
  destruct E2 as (w2 & E2).
  destruct (ecx_derive_uses_installed_keys sample_compute_key sample_ecx_world
              w1 w2 1%positive 2%positive 2%positive None None 0 0 E1 E2)
    as (c & k & kp & Hc & _ & _ & _ & _ & Hderive).
  exists w1, w2. split; [exact E1|]. split; [exact E2|].
  rewrite Hderive. vm_compute in Hc. injection Hc as <-. reflexivity.
Defined.

Lemma ecx_entry_point_guards_witness :
  ecx_init (ecx_set_prov sample_ecx_world prov_down) (Some 1%positive)
    (Some 2%positive) None
  = Some (0, ecx_set_prov sample_ecx_world prov_down)
  /\ ecx_init sample_ecx_world None (Some 2%positive) None
     = Some (0, ecx_set_prov sample_ecx_world
                  (ERR_raise prov_up ERR_LIB_PROV ERR_R_INTERNAL_ERROR))
  /\ ecx_derive sample_compute_key sample_ecx_world None None 0 0 = None.
Proof.
  destruct (ecx_entry_point_guards sample_compute_key
              (ecx_set_prov sample_ecx_world prov_down) (Some 1%positive)
              (Some 2%positive) None 32 None 0 0) as [Hdown _].
  destruct (ecx_entry_point_guards sample_compute_key sample_ecx_world
              (Some 1%positive) (Some 2%positive) None 32 None 0 0)
    as [_ Hnull].
  destruct (Hdown eq_refl) as (_ & Hinit & _).
  destruct (Hnull eq_refl) as (Hnoctx & _ & _ & _ & Hderive & _).
  split; [exact Hinit|]. split; [exact Hnoctx|exact Hderive].
Defined.

Lemma ecx_refused_install_changes_nothing_witness :
  exists w',
    ecx_init sample_ecx_world (Some 1%positive) (Some 1%positive) None
    = Some (0, w')
    /\ ctxs w' = ctxs sample_ecx_world /\ keys w' = keys sample_ecx_world
    /\ heap_left w' = heap_left sample_ecx_world.
Proof.
  assert (E : exists w', ecx_init sample_ecx_world (Some 1%positive)
                           (Some 1%positive) None = Some (0, w'))
    by (eexists; vm_compute; reflexivity).
  destruct E as [w' E]. exists w'. split; [exact E|].
  destruct (ecx_refused_install_changes_nothing sample_ecx_world
              (Some 1%positive) (Some 1%positive) None w')
    as (H1 & H2 & H3 & _).
  - ecx_refs_ok_by_computation.
  - left. exact E.
  - split; [exact H1|]. split; [exact H2|exact H3].
Defined.

Lemma every_target_computes_the_same_digest_witness :
  exists r ps' c0 d0 c d,
    family_digest_init keccak_kmac_128 prov_up
      (Some (family_newctx_value TARGET_S390X all_caps keccak_kmac_128))
      (Some [xoflen_64])
    = Some (r, Some c0, ps')
    /\ family_digest_init keccak_kmac_128 prov_up
         (Some (family_newctx_value TARGET_AARCH64 all_caps keccak_kmac_128))
         (Some [xoflen_64])
       = Some (r, Some d0, ps')
    /\ keccak_update_chunks KeccakF1600_fips202 c0 [[1; 2; 3]; replicate 200 7]
       = Some c
    /\ keccak_update_chunks KeccakF1600_fips202 d0 [[1; 2; 3]; replicate 200 7]
       = Some d
    /\ keccak_final_output
         (keccak_final KeccakF1600_fips202 ps' c (replicate 64 0) 0 64)
       = keccak_final_output
           (keccak_final KeccakF1600_fips202 ps' d (replicate 64 0) 0 64).
Proof.
  apply (every_target_computes_the_same_digest KeccakF1600_fips202
           KeccakF1600_fips202_lanes TARGET_S390X TARGET_AARCH64 all_caps
           all_caps keccak_kmac_128 prov_up (Some [xoflen_64])
           [[1; 2; 3]; replicate 200 7] (replicate 64 0) 0 64).
  - reflexivity.
  - repeat (constructor; [vm_compute; reflexivity|]). constructor.
Defined.
